(** * DFIR Log Sorter: timestamp normalisation, timeline ordering and
      the investigation store

    A shallow embedding of the desktop application
    ([src/app/dfir_log_sorter.py]) and of the web application
    ([src/web/app.py]), with the properties of their shared core:
    [LogEntry._parse_timestamp], the ascending and descending sorts, the
    CSV snapshot of an investigation and the analysis reports.

    Conventions.
    - A Python [str] is a [string]; its characters are the 8-bit code
      points.  Inside that range the classes [\d] and [\s] of [re] and the
      whitespace of [str.strip] are exactly [isdigit] and [isspace] below.
      The pictographs of the severity labels stand as the bytes of their
      UTF-8 form; the labels are only compared for equality.
    - An exception that the program catches is an [option] or a dedicated
      outcome; [None] is the raised exception.
    - [datetime.now()], [uuid.uuid4()] and the answers of the dialogs are
      inputs of the operation that reads them; one operation reads the
      clock once, except [Web.sort_entries] and [Web.update_entry],
      where every reading of the clock is an input of its own.
    - The values of a row of the tree view are kept as the texts that
      were stored, and read back as [ttk.Treeview.item] gives them: a
      text that [int] accepts comes back as an integer.
    - The file system is a finite map from (folder, file name) to the text
      of the file. *)

From Stdlib Require Import ZArith Lia List Ascii String Bool Permutation Sorted.
From stdpp Require Import base option list sorting gmap strings.

Local Open Scope string_scope.
Local Open Scope Z_scope.

(* ================================================================== *)
(** * Part I.  The Python library, as far as the program uses it       *)
(* ================================================================== *)

Module Py.

(** ** Characters and strings *)

Definition code (c : ascii) : Z := Z.of_N (N_of_ascii c).

(** [str.isspace] on one character, also the class [\s]. *)
Definition isspace (c : ascii) : bool :=
  let n := code c in
  ((9 <=? n) && (n <=? 13)) || ((28 <=? n) && (n <=? 32))
  || (n =? 133) || (n =? 160).

(** The class [\d], also [0-9]. *)
Definition isdigit (c : ascii) : bool :=
  let n := code c in (48 <=? n) && (n <=? 57).

Definition in_range (lo hi c : ascii) : bool :=
  (code lo <=? code c) && (code c <=? code hi).

Definition is_char (a c : ascii) : bool := code a =? code c.

(** Case folding of [re.IGNORECASE] on the ASCII letters. *)
Definition lower (c : ascii) : ascii :=
  if in_range "A" "Z" c then ascii_of_N (N_of_ascii c + 32) else c.

Definition is_char_nocase (a c : ascii) : bool :=
  code (lower a) =? code (lower c).

Fixpoint lstrip (s : string) : string :=
  match s with
  | String c s' => if isspace c then lstrip s' else s
  | EmptyString => EmptyString
  end.

Fixpoint rstrip (s : string) : string :=
  match s with
  | EmptyString => EmptyString
  | String c s' =>
      match rstrip s' with
      | EmptyString => if isspace c then EmptyString else String c EmptyString
      | r => String c r
      end
  end.

(** [s.strip()] *)
Definition strip (s : string) : string := rstrip (lstrip s).

(** [s.replace(a, b)] for single characters. *)
Fixpoint replace (a b : ascii) (s : string) : string :=
  match s with
  | EmptyString => EmptyString
  | String c s' => String (if is_char a c then b else c) (replace a b s')
  end.

Fixpoint take (n : nat) (s : string) : string :=
  match n, s with
  | S k, String c s' => String c (take k s')
  | _, _ => EmptyString
  end.

Fixpoint drop (n : nat) (s : string) : string :=
  match n, s with
  | S k, String _ s' => drop k s'
  | _, _ => s
  end.

(** ["sep".join(parts)] *)
Fixpoint join (sep : string) (parts : list string) : string :=
  match parts with
  | [] => EmptyString
  | [p] => p
  | p :: ps => p +:+ sep +:+ join sep ps
  end.

(** [c * n] *)
Fixpoint repeat_char (c : ascii) (n : nat) : string :=
  match n with
  | O => EmptyString
  | S k => String c (repeat_char c k)
  end.

(** The value of a run of decimal digits, most significant first. *)
Fixpoint digits_value (acc : Z) (s : string) : Z :=
  match s with
  | EmptyString => acc
  | String c s' => digits_value (10 * acc + (code c - 48)) s'
  end.

(** [int(s)] on the texts that the patterns below capture: decimal digits,
    possibly after blanks. *)
Definition int (s : string) : Z := digits_value 0 (lstrip s).

(** ** Regular expressions ([re])

    The fragment used by [_strptime] and by the program: character
    classes, sequence, ordered alternation, a greedy repetition of a class
    (with [None] for no upper bound), [$] and named groups.  [matches r s]
    enumerates the ways of matching [r] at the start of [s] in the order
    in which the backtracking matcher tries them; its head is what
    [re.match] returns. *)

Inductive regex : Type :=
  | Eps : regex
  | Chr (p : ascii -> bool) : regex
  | Seq (a b : regex) : regex
  | Alt (a b : regex) : regex
  | Rep (p : ascii -> bool) (lo : nat) (hi : option nat) : regex
  | Dollar : regex
  | Group (name : ascii) (r : regex) : regex.

Definition captures : Type := list (ascii * string).

(** The length of the longest prefix of [s] in the class [p], capped. *)
Fixpoint run_length (p : ascii -> bool) (cap : nat) (s : string) : nat :=
  match cap, s with
  | S k, String c s' => if p c then S (run_length p k s') else O
  | _, _ => O
  end.

(** Greedy repetition: the longest run first, then shorter ones down to
    [lo] characters. *)
Fixpoint rep_candidates (lo n : nat) (s : string) : list (captures * string) :=
  match n with
  | O => if (lo =? 0)%nat then [([], s)] else []
  | S k =>
      if (lo <=? n)%nat then ([], drop n s) :: rep_candidates lo k s else []
  end.

Fixpoint matches (r : regex) (s : string) : list (captures * string) :=
  match r with
  | Eps => [([], s)]
  | Chr p =>
      match s with
      | String c s' => if p c then [([], s')] else []
      | EmptyString => []
      end
  | Seq a b =>
      flat_map (fun m1 : captures * string =>
                  List.map (fun m2 : captures * string =>
                              (app (fst m1) (fst m2), snd m2))
                           (matches b (snd m1)))
               (matches a s)
  | Alt a b => matches a s ++ matches b s
  | Rep p lo hi =>
      rep_candidates lo (run_length p (default (String.length s) hi) s) s
  | Dollar =>
      match s with
      | EmptyString => [([], s)]
      | String c EmptyString => if is_char "010" c then [([], s)] else []
      | _ => []
      end
  | Group name r' =>
      List.map (fun m : captures * string =>
                  ((name, take (String.length s - String.length (snd m)) s)
                     :: fst m, snd m))
               (matches r' s)
  end.

(** [re.match(r, s)]: the captures and the unmatched rest. *)
Definition re_match (r : regex) (s : string) : option (captures * string) :=
  head (matches r s).

(** [re.sub(r, repl, s)]: every non-overlapping match, leftmost first, is
    replaced by [repl].  [skip] counts the characters of the current match
    that are still to be dropped. *)
Fixpoint re_sub_go (r : regex) (repl : string) (skip : nat) (s : string)
  : string :=
  match skip with
  | S k =>
      match s with
      | String _ s' => re_sub_go r repl k s'
      | EmptyString => EmptyString
      end
  | O =>
      match s with
      | EmptyString =>
          match re_match r s with
          | Some _ => repl
          | None => EmptyString
          end
      | String c s' =>
          match re_match r s with
          | Some (_, rest) =>
              match (String.length s - String.length rest)%nat with
              | O => repl +:+ String c (re_sub_go r repl 0 s')
              | S k => repl +:+ re_sub_go r repl k s'
              end
          | None => String c (re_sub_go r repl 0 s')
          end
      end
  end.

Definition re_sub (r : regex) (repl s : string) : string :=
  re_sub_go r repl 0 s.

Fixpoint lookup_group (name : ascii) (cs : captures) : option string :=
  match cs with
  | [] => None
  | (n, v) :: cs' => if is_char name n then Some v else lookup_group name cs'
  end.

(** ** [datetime] *)

(** A [datetime] object.  [tzinfo] is [None] for a naive object and the
    UTC offset in microseconds for an aware one. *)
Record datetime : Type := mkdatetime {
  year : Z;
  month : Z;
  day : Z;
  hour : Z;
  minute : Z;
  second : Z;
  microsecond : Z;
  tzinfo : option Z
}.

#[global] Instance datetime_eq_dec : EqDecision datetime.
Proof. solve_decision. Defined.

Definition is_leap (y : Z) : bool :=
  (y mod 4 =? 0) && (negb (y mod 100 =? 0) || (y mod 400 =? 0)).

Definition days_in_month (y m : Z) : Z :=
  if m =? 2 then (if is_leap y then 29 else 28)
  else if (m =? 4) || (m =? 6) || (m =? 9) || (m =? 11) then 30
  else 31.

Definition days_before_year (y : Z) : Z :=
  let p := y - 1 in p * 365 + p / 4 - p / 100 + p / 400.

Definition days_before_month (y m : Z) : Z :=
  nth (Z.to_nat (m - 1))
      [0; 31; 59; 90; 120; 151; 181; 212; 243; 273; 304; 334] 0
  + (if (2 <? m) && is_leap y then 1 else 0).

(** [date.toordinal()] *)
Definition toordinal (d : datetime) : Z :=
  days_before_year (year d) + days_before_month (year d) (month d) + day d.

Definition between (lo hi x : Z) : bool := (lo <=? x) && (x <=? hi).

Definition day_us : Z := 86400 * 1000000.

(** The constructor [datetime(y, m, d, h, mi, s, us, tzinfo)]; [None] is
    its [ValueError].  An offset is a [timezone], which must lie strictly
    between minus and plus 24 hours. *)
Definition make_datetime (y m d h mi s us : Z) (tz : option Z)
  : option datetime :=
  if between 1 9999 y && between 1 12 m && between 1 (days_in_month y m) d
     && between 0 23 h && between 0 59 mi && between 0 59 s
     && between 0 999999 us
     && match tz with
        | None => true
        | Some off => (- day_us <? off) && (off <? day_us)
        end
  then Some (mkdatetime y m d h mi s us tz)
  else None.

Definition fields (d : datetime) : list Z :=
  [year d; month d; day d; hour d; minute d; second d; microsecond d].

Fixpoint lex_ltb (a b : list Z) : bool :=
  match a, b with
  | x :: a', y :: b' => (x <? y) || ((x =? y) && lex_ltb a' b')
  | [], _ :: _ => true
  | _, [] => false
  end.

(** Microseconds since the start of day 0 of the proleptic calendar. *)
Definition local_us (d : datetime) : Z :=
  (((toordinal d * 24 + hour d) * 60 + minute d) * 60 + second d) * 1000000
  + microsecond d.

(** [a < b] on datetimes.  Two naive objects compare field by field, two
    aware ones by their UTC instants, and comparing a naive with an aware
    one raises [TypeError] ([None]). *)
Definition lt (a b : datetime) : option bool :=
  match tzinfo a, tzinfo b with
  | None, None => Some (lex_ltb (fields a) (fields b))
  | Some oa, Some ob => Some (local_us a - oa <? local_us b - ob)
  | _, _ => None
  end.

(** [a == b] on datetimes: the same fields for two naive objects, the
    same UTC instant for two aware ones, and never for a naive and an
    aware one. *)
Definition eq (a b : datetime) : bool :=
  match tzinfo a, tzinfo b with
  | None, None => bool_decide (fields a = fields b)
  | Some oa, Some ob => local_us a - oa =? local_us b - ob
  | _, _ => false
  end.

(** ** [datetime.strptime]

    [_strptime] turns the format into a regular expression: a run of
    whitespace becomes [\s+], a directive becomes its named group and any
    other character stands for itself, compared without case.  The data
    string must match from its start and nothing may remain. *)

Definition digit : regex := Chr isdigit.
Definition cls (lo hi : ascii) : regex := Chr (in_range lo hi).
Definition chr (c : ascii) : regex := Chr (is_char c).

Fixpoint alts (rs : list regex) : regex :=
  match rs with
  | [] => Chr (fun _ => false)
  | [r] => r
  | r :: rs' => Alt r (alts rs')
  end.

Fixpoint seqs (rs : list regex) : regex :=
  match rs with
  | [] => Eps
  | [r] => r
  | r :: rs' => Seq r (seqs rs')
  end.

(** The entries of [TimeRE] for the directives that the program uses; any
    other character after [%] is treated as a bad directive. *)
Definition directive_regex (c : ascii) : option regex :=
  if is_char "Y" c then Some (Group "Y" (seqs [digit; digit; digit; digit]))
  else if is_char "m" c then
    Some (Group "m" (alts [Seq (chr "1") (cls "0" "2");
                           Seq (chr "0") (cls "1" "9");
                           cls "1" "9"]))
  else if is_char "d" c then
    Some (Group "d" (alts [Seq (chr "3") (cls "0" "1");
                           Seq (cls "1" "2") digit;
                           Seq (chr "0") (cls "1" "9");
                           cls "1" "9";
                           Seq (chr " ") (cls "1" "9")]))
  else if is_char "H" c then
    Some (Group "H" (alts [Seq (chr "2") (cls "0" "3");
                           Seq (cls "0" "1") digit;
                           digit]))
  else if is_char "M" c then
    Some (Group "M" (alts [Seq (cls "0" "5") digit; digit]))
  else if is_char "S" c then
    Some (Group "S" (alts [Seq (chr "6") (cls "0" "1");
                           Seq (cls "0" "5") digit;
                           digit]))
  else if is_char "f" c then Some (Group "f" (Rep isdigit 1 (Some 6%nat)))
  else None.

(** [TimeRE.pattern(format)]; [in_ws] holds inside a run of whitespace,
    which yields one [\s+]. *)
Fixpoint pattern_go (in_ws : bool) (format : string) : option regex :=
  match format with
  | EmptyString => Some Eps
  | String c rest =>
      if is_char "%" c then
        match rest with
        | EmptyString => None
        | String d rest' =>
            match directive_regex d, pattern_go false rest' with
            | Some r, Some k => Some (Seq r k)
            | _, _ => None
            end
        end
      else if isspace c then
        if in_ws then pattern_go true rest
        else option_map (Seq (Rep isspace 1 None)) (pattern_go true rest)
      else option_map (Seq (Chr (is_char_nocase c))) (pattern_go false rest)
  end.

Definition pattern (format : string) : option regex := pattern_go false format.

Definition group_int (name : ascii) (dflt : Z) (found : captures) : Z :=
  match lookup_group name found with
  | Some v => int v
  | None => dflt
  end.

(** The fraction of a second: the digits are padded with zeros on the
    right to six. *)
Definition group_fraction (found : captures) : Z :=
  match lookup_group "f" found with
  | Some v => int (v +:+ repeat_char "0" (6 - String.length v))
  | None => 0
  end.

(** [datetime.strptime(data_string, format)]; [None] is [ValueError]. *)
Definition strptime (data_string format : string) : option datetime :=
  match pattern format with
  | None => None
  | Some r =>
      match re_match r data_string with
      | Some (found, EmptyString) =>
          make_datetime (group_int "Y" 1900 found) (group_int "m" 1 found)
                        (group_int "d" 1 found) (group_int "H" 0 found)
                        (group_int "M" 0 found) (group_int "S" 0 found)
                        (group_fraction found) None
      | _ => None
      end
  end.

(** ** [datetime.fromisoformat]

    The documented grammar
    [YYYY-MM-DD[*HH[:MM[:SS[.fff[fff]]]][+HH:MM[:SS[.ffffff]]]]], where [*]
    is any one character.  Later versions of the library accept further
    ISO 8601 forms; the general results below do not depend on which
    strings are accepted. *)

Fixpoint all_digits (s : string) : bool :=
  match s with
  | EmptyString => true
  | String c s' => isdigit c && all_digits s'
  end.

Definition take_digits (n : nat) (s : string) : option (Z * string) :=
  let t := take n s in
  if (String.length t =? n)%nat && all_digits t
  then Some (digits_value 0 t, drop n s) else None.

Definition expect (c : ascii) (s : string) : option string :=
  match s with
  | String x s' => if is_char c x then Some s' else None
  | EmptyString => None
  end.

(** [HH[:MM[:SS[.fff[fff]]]]], the whole of [s]. *)
Definition parse_hh_mm_ss_ff (s : string) : option (Z * Z * Z * Z) :=
  '(h, s1) ← take_digits 2 s;
  match s1 with
  | EmptyString => Some (h, 0, 0, 0)
  | _ =>
      s2 ← expect ":" s1;
      '(mi, s3) ← take_digits 2 s2;
      match s3 with
      | EmptyString => Some (h, mi, 0, 0)
      | _ =>
          s4 ← expect ":" s3;
          '(sec, s5) ← take_digits 2 s4;
          match s5 with
          | EmptyString => Some (h, mi, sec, 0)
          | _ =>
              s6 ← expect "." s5;
              if all_digits s6 && (String.length s6 =? 6)%nat
              then Some (h, mi, sec, digits_value 0 s6)
              else if all_digits s6 && (String.length s6 =? 3)%nat
              then Some (h, mi, sec, digits_value 0 s6 * 1000)
              else None
          end
      end
  end.

(** Splits the time text at its first sign: the time, and the sign with
    the offset text when there is one. *)
Fixpoint split_offset (s : string) : string * option (Z * string) :=
  match s with
  | EmptyString => (EmptyString, None)
  | String c s' =>
      if is_char "+" c then (EmptyString, Some (1, s'))
      else if is_char "-" c then (EmptyString, Some (-1, s'))
      else let '(t, o) := split_offset s' in (String c t, o)
  end.

Definition parse_offset (sign : Z) (s : string) : option Z :=
  let n := String.length s in
  if (n =? 5)%nat || (n =? 8)%nat || (n =? 15)%nat then
    '(h, mi, sec, us) ← parse_hh_mm_ss_ff s;
    Some (sign * (((h * 60 + mi) * 60 + sec) * 1000000 + us))
  else None.

(** [datetime.fromisoformat(date_string)]; [None] is [ValueError]. *)
Definition fromisoformat (date_string : string) : option datetime :=
  '(y, s1) ← take_digits 4 date_string;
  s2 ← expect "-" s1;
  '(m, s3) ← take_digits 2 s2;
  s4 ← expect "-" s3;
  '(d, s5) ← take_digits 2 s4;
  match s5 with
  | EmptyString => make_datetime y m d 0 0 0 0 None
  | String _ tstr =>
      let '(timestr, off) := split_offset tstr in
      '(h, mi, sec, us) ← parse_hh_mm_ss_ff timestr;
      match off with
      | None => make_datetime y m d h mi sec us None
      | Some (sign, tzstr) =>
          tz ← parse_offset sign tzstr;
          make_datetime y m d h mi sec us (Some tz)
      end
  end.

(** ** [datetime.strftime] *)

Definition digit_char (n : Z) : ascii := ascii_of_N (Z.to_N (48 + n mod 10)).

(** [n] in decimal on [w] digits, padded with zeros. *)
Fixpoint zpad (w : nat) (n : Z) : string :=
  match w with
  | O => EmptyString
  | S k => zpad k (n / 10) +:+ String (digit_char n) EmptyString
  end.

Definition directive_text (c : ascii) (d : datetime) : option string :=
  if is_char "Y" c then Some (zpad 4 (year d))
  else if is_char "m" c then Some (zpad 2 (month d))
  else if is_char "d" c then Some (zpad 2 (day d))
  else if is_char "H" c then Some (zpad 2 (hour d))
  else if is_char "M" c then Some (zpad 2 (minute d))
  else if is_char "S" c then Some (zpad 2 (second d))
  else None.

(** [d.strftime(format)] for the directives above; an unknown directive is
    copied. *)
Fixpoint strftime (d : datetime) (format : string) : string :=
  match format with
  | EmptyString => EmptyString
  | String c rest =>
      if is_char "%" c then
        match rest with
        | EmptyString => String c EmptyString
        | String x rest' =>
            match directive_text x d with
            | Some t => t +:+ strftime d rest'
            | None => String c (String x (strftime d rest'))
            end
        end
      else String c (strftime d rest)
  end.

(** ** [list.sort] and [sorted]

    A stable sort that only asks [x < y].  A comparison that raises
    aborts the sort ([None]).  The result of a completed sort is
    determined by stability, so the insertion sort below stands for the
    library's algorithm; it completes exactly when the library's does,
    since a list whose elements cannot all be compared makes every
    comparison sort ask for one of the impossible comparisons. *)

Section Sorting.
Context {A : Type} (less : A -> A -> option bool).

(** [x] stood before every element of [l]; it goes before the first
    element that is not smaller than it. *)
Fixpoint insert_sorted (x : A) (l : list A) : option (list A) :=
  match l with
  | [] => Some [x]
  | y :: l' =>
      match less y x with
      | None => None
      | Some true => option_map (cons y) (insert_sorted x l')
      | Some false => Some (x :: l)
      end
  end.

Fixpoint sorted (l : list A) : option (list A) :=
  match l with
  | [] => Some []
  | x :: l' =>
      match sorted l' with
      | Some r => insert_sorted x r
      | None => None
      end
  end.

(** [reverse=True]: the list is reversed, sorted and reversed again, so
    that equal elements keep their order. *)
Definition sorted_reverse (l : list A) : option (list A) :=
  option_map (@rev A) (sorted (rev l)).
End Sorting.

(** ** [csv.writer] with the default dialect

    Comma as delimiter, the double quote as quote character, doubled
    inside a field, line terminator CR LF and minimal quoting: a field is
    quoted when it holds the delimiter, the quote character, CR or LF. *)

Definition dquote : ascii := "034".
Definition LF : ascii := "010".
Definition CR : ascii := "013".

Definition csv_special (c : ascii) : bool :=
  is_char "," c || is_char dquote c || is_char CR c || is_char LF c.

Fixpoint has_char (p : ascii -> bool) (s : string) : bool :=
  match s with
  | EmptyString => false
  | String c s' => p c || has_char p s'
  end.

(** [s.replace] of every double quote by two. *)
Fixpoint double_quotes (s : string) : string :=
  match s with
  | EmptyString => EmptyString
  | String c s' =>
      if is_char dquote c
      then String dquote (String dquote (double_quotes s'))
      else String c (double_quotes s')
  end.

Definition quoted (s : string) : string :=
  String dquote (s +:+ String dquote EmptyString).

Definition csv_field (s : string) : string :=
  if has_char csv_special s then quoted (double_quotes s) else s.

(** [writer.writerow(row)]: the text added to the file. *)
Definition writerow (row : list string) : string :=
  join "," (List.map csv_field row) +:+ String CR (String LF EmptyString).

(** ** [datetime.isoformat]

    The date, the letter T, the time, the fraction when it is not zero,
    and the offset of an aware object. *)

Definition format_offset (off : Z) : string :=
  let a := Z.abs off in
  let ss := (a mod 60000000) / 1000000 in
  let us := a mod 1000000 in
  (if off <? 0 then "-" else "+")
  +:+ zpad 2 (a / 3600000000) +:+ ":" +:+ zpad 2 ((a mod 3600000000) / 60000000)
  +:+ (if (ss =? 0) && (us =? 0) then ""
       else ":" +:+ zpad 2 ss
            +:+ (if us =? 0 then "" else "." +:+ zpad 6 us)).

Definition isoformat (d : datetime) : string :=
  zpad 4 (year d) +:+ "-" +:+ zpad 2 (month d) +:+ "-" +:+ zpad 2 (day d)
  +:+ "T" +:+ zpad 2 (hour d) +:+ ":" +:+ zpad 2 (minute d) +:+ ":"
  +:+ zpad 2 (second d)
  +:+ (if microsecond d =? 0 then "" else "." +:+ zpad 6 (microsecond d))
  +:+ match tzinfo d with
      | None => ""
      | Some off => format_offset off
      end.

(** ** [str.lower], on the ASCII letters

    No other character folds to a letter, except the Kelvin sign, which
    the 8-bit texts do not hold. *)
Fixpoint lower_str (s : string) : string :=
  match s with
  | EmptyString => EmptyString
  | String c s' => String (lower c) (lower_str s')
  end.

(** ** Reading a text file line by line

    A file opened for reading in text mode without [newline] translates
    CR LF and a lone CR to LF; iterating over it gives the lines, each
    with its final LF except possibly the last. *)

Fixpoint universal_newlines (s : string) : string :=
  match s with
  | EmptyString => EmptyString
  | String c s' =>
      if is_char CR c then
        String LF
          match s' with
          | String d s'' =>
              if is_char LF d then universal_newlines s''
              else universal_newlines s'
          | EmptyString => EmptyString
          end
      else String c (universal_newlines s')
  end.

Fixpoint file_lines (s : string) : list string :=
  match s with
  | EmptyString => []
  | String c s' =>
      if is_char LF c then String c EmptyString :: file_lines s'
      else match file_lines s' with
           | [] => [String c EmptyString]
           | line :: rest => String c line :: rest
           end
  end.

(** ** [csv.reader] with the default dialect

    The state machine of the reader for the default dialect: comma, the
    double quote doubled inside a quoted field, no escape character, not
    strict.  [None] is [csv.Error].  A field may hold [field_limit]
    characters.  A line with a NUL character is refused, as the versions
    before 3.11 do; the later ones accept it, and all agree on the texts
    without one. *)

Module Reader.

Inductive ParserState : Type :=
  | START_RECORD
  | START_FIELD
  | IN_FIELD
  | IN_QUOTED_FIELD
  | QUOTE_IN_QUOTED_FIELD
  | EAT_CRNL.

Record ReaderObj : Type := mkReaderObj {
  state : ParserState;
  field : string;
  fields : list string
}.

Definition field_limit : Z := 131072.

Definition parse_reset : ReaderObj := mkReaderObj START_RECORD "" [].

Definition with_state (self : ReaderObj) (st : ParserState) : ReaderObj :=
  mkReaderObj st (field self) (fields self).

Definition parse_save_field (self : ReaderObj) : ReaderObj :=
  mkReaderObj (state self) "" (fields self ++ [field self]).

Definition parse_add_char (self : ReaderObj) (c : ascii) : option ReaderObj :=
  if field_limit <=? Z.of_nat (String.length (field self)) then None
  else Some (mkReaderObj (state self) (field self +:+ String c EmptyString)
                         (fields self)).

Definition is_newline (c : ascii) : bool := is_char LF c || is_char CR c.

(** The case [START_FIELD]; the character [None] is the end of the
    line. *)
Definition start_field (self : ReaderObj) (c : option ascii)
  : option ReaderObj :=
  match c with
  | None => Some (with_state (parse_save_field self) START_RECORD)
  | Some x =>
      if is_newline x then Some (with_state (parse_save_field self) EAT_CRNL)
      else if is_char dquote x then Some (with_state self IN_QUOTED_FIELD)
      else if is_char "," x then Some (parse_save_field self)
      else option_map (fun s => with_state s IN_FIELD) (parse_add_char self x)
  end.

Definition parse_process_char (self : ReaderObj) (c : option ascii)
  : option ReaderObj :=
  match state self with
  | START_RECORD =>
      match c with
      | None => Some self
      | Some x =>
          if is_newline x then Some (with_state self EAT_CRNL)
          else start_field (with_state self START_FIELD) c
      end
  | START_FIELD => start_field self c
  | IN_FIELD =>
      match c with
      | None => Some (with_state (parse_save_field self) START_RECORD)
      | Some x =>
          if is_newline x
          then Some (with_state (parse_save_field self) EAT_CRNL)
          else if is_char "," x
          then Some (with_state (parse_save_field self) START_FIELD)
          else parse_add_char self x
      end
  | IN_QUOTED_FIELD =>
      match c with
      | None => Some self
      | Some x =>
          if is_char dquote x then Some (with_state self QUOTE_IN_QUOTED_FIELD)
          else parse_add_char self x
      end
  | QUOTE_IN_QUOTED_FIELD =>
      match c with
      | None => Some (with_state (parse_save_field self) START_RECORD)
      | Some x =>
          if is_char dquote x
          then option_map (fun s => with_state s IN_QUOTED_FIELD)
                          (parse_add_char self x)
          else if is_char "," x
          then Some (with_state (parse_save_field self) START_FIELD)
          else if is_newline x
          then Some (with_state (parse_save_field self) EAT_CRNL)
          else option_map (fun s => with_state s IN_FIELD)
                          (parse_add_char self x)
      end
  | EAT_CRNL =>
      match c with
      | None => Some (with_state self START_RECORD)
      | Some x => if is_newline x then Some self else None
      end
  end.

(** The characters of one line, then the end of the line. *)
Fixpoint process_line (self : ReaderObj) (line : string) : option ReaderObj :=
  match line with
  | EmptyString => parse_process_char self None
  | String c rest =>
      if is_char "000" c then None
      else match parse_process_char self (Some c) with
           | Some self' => process_line self' rest
           | None => None
           end
  end.

Definition in_quoted_field (st : ParserState) : bool :=
  match st with IN_QUOTED_FIELD => true | _ => false end.

(** The records that iterating over the reader gives, and whether the
    iteration ended without an error.  A record ends with the line that
    leaves the machine in [START_RECORD]; when the lines run out inside a
    quoted field, what was read is the last record. *)
Fixpoint records_from (self : ReaderObj) (lines : list string)
  : list (list string) * bool :=
  match lines with
  | [] =>
      if negb (String.eqb (field self) "") || in_quoted_field (state self)
      then ([fields (parse_save_field self)], true)
      else ([], true)
  | line :: rest =>
      match process_line self line with
      | None => ([], false)
      | Some self' =>
          match state self' with
          | START_RECORD =>
              let '(records, ok) := records_from parse_reset rest in
              (fields self' :: records, ok)
          | _ => records_from self' rest
          end
      end
  end.

Definition records (lines : list string) : list (list string) * bool :=
  records_from parse_reset lines.

End Reader.

(** ** [csv.DictReader]

    The first record gives the field names.  Each later record that is
    not empty becomes a dictionary; a name without a value gets [None],
    and of two equal names the later one counts. *)

Definition zip_dict (fieldnames row : list string)
  : gmap string (option string) :=
  foldl (fun d key => <[key := None]> d)
        (foldl (fun d kv => <[fst kv := Some (snd kv)]> d) ∅
               (zip fieldnames row))
        (List.skipn (length row) fieldnames).

Definition is_empty_record (row : list string) : bool :=
  match row with [] => true | _ => false end.

Definition DictReader (text : string)
  : list (gmap string (option string)) * bool :=
  let '(records, ok) := Reader.records (file_lines (universal_newlines text)) in
  match records with
  | [] => ([], ok)
  | fieldnames :: rows =>
      (List.map (zip_dict fieldnames)
                (List.filter (fun row => negb (is_empty_record row)) rows),
       ok)
  end.

(** [row.get(key, default)]; the value [None] stays [None]. *)
Definition dict_get (row : gmap string (option string)) (key dflt : string)
  : option string :=
  match row !! key with
  | Some v => v
  | None => Some dflt
  end.

(** ** [int] of a text

    [int(s)] in base ten reads blanks, an optional sign, decimal digits
    with single underscores between two of them, and blanks to the end;
    anything else is a [ValueError].  The blanks of [int] are those of
    [str.strip] without the four separators of codes 28 to 31.  A text
    of more digits than [sys.get_int_max_str_digits()], 4300 unless it
    was configured, is refused too (Python 3.11, and the later releases
    of 3.7 to 3.10). *)

Definition int_space (c : ascii) : bool :=
  let n := code c in
  ((9 <=? n) && (n <=? 13)) || (n =? 32) || (n =? 133) || (n =? 160).

Fixpoint skip_spaces (s : string) : string :=
  match s with
  | String c s' => if int_space c then skip_spaces s' else s
  | EmptyString => EmptyString
  end.

Fixpoint all_spaces (s : string) : bool :=
  match s with
  | EmptyString => true
  | String c s' => int_space c && all_spaces s'
  end.

Definition max_str_digits : nat := 4300.

(** What follows a digit: the value read so far and the number of its
    digits go on to the end of the text. *)
Fixpoint digits_go (acc : Z) (n : nat) (s : string) : option (Z * nat) :=
  match s with
  | EmptyString => Some (acc, n)
  | String c rest =>
      if isdigit c then digits_go (10 * acc + (code c - 48)) (S n) rest
      else if is_char "_" c then
        match rest with
        | String d rest' =>
            if isdigit d
            then digits_go (10 * acc + (code d - 48)) (S n) rest'
            else None
        | EmptyString => None
        end
      else if all_spaces s then Some (acc, n) else None
  end.

(** [int(s)]; [None] is the [ValueError]. *)
Definition int_text (s : string) : option Z :=
  let t := skip_spaces s in
  let '(sgn, u) :=
    match t with
    | String c rest =>
        if is_char "-" c then (-1, rest)
        else if is_char "+" c then (1, rest)
        else (1, t)
    | EmptyString => (1, t)
    end in
  match u with
  | String d rest =>
      if isdigit d then
        match digits_go (code d - 48) 1 rest with
        | Some (v, n) =>
            if (n <=? max_str_digits)%nat then Some (sgn * v) else None
        | None => None
        end
      else None
  | EmptyString => None
  end.

(** ** Values read back from a tree view ([tkinter.ttk])

    [Treeview.item(item)['values']] gives the values of a row as a list,
    each value through [_convert_stringval]: the integer [int(value)]
    when [int] accepts the text, otherwise the text. *)

Inductive tk_value : Type :=
  | TkText (s : string)
  | TkInt (n : Z).

Definition _convert_stringval (value : string) : tk_value :=
  match int_text value with
  | Some n => TkInt n
  | None => TkText value
  end.

(** [s == value] for a text [s]: a text and an integer are never
    equal. *)
Definition text_eq (s : string) (value : tk_value) : bool :=
  match value with
  | TkText t => String.eqb s t
  | TkInt _ => false
  end.

End Py.

Import Py.

(** The store: one folder per investigation under the [logs] directory,
    and the text of each file in it.  Writing and unlinking always
    succeed. *)
Abbreviation disk := (gmap (string * string) string).

(** The class of [get_investigation_folder]: the characters that are
    reserved in file names; each is replaced by an underscore. *)
Definition reserved (c : ascii) : bool :=
  is_char "<" c || is_char ">" c || is_char ":" c || is_char dquote c
  || is_char "/" c || is_char "\" c || is_char "|" c || is_char "?" c
  || is_char "*" c.

Definition safe_name (investigation_name : string) : string :=
  re_sub (Chr reserved) "_" investigation_name.

(** The loop over the formats, the same in both applications: the first
    format that [strptime] accepts returns, a [ValueError] moves on to
    the next. *)
Fixpoint try_formats (data : string) (fmts : list string) : option datetime :=
  match fmts with
  | [] => None
  | fmt :: rest =>
      match strptime data fmt with
      | Some d => Some d
      | None => try_formats data rest
      end
  end.

Definition warning (timestamp : string) : string :=
  "Warning: Could not parse timestamp '" +:+ timestamp
  +:+ "', using current time".

Definition newline : string := String LF EmptyString.

Definition csv_name : string := "investigation_logs.csv".

Definition banner : string := repeat_char "=" 80.

(** [save_ai_analysis_to_file], whose body is the same in both
    applications: nothing for an empty text, else the report is written
    under a name made of the clock reading, and that path is returned. *)
Definition report_name (now : datetime) : string :=
  "ai_analysis_" +:+ strftime now "%Y%m%d_%H%M%S" +:+ ".txt".

Definition report_content (investigation_name : string) (now : datetime)
    (analysis_text : string) : string :=
  join newline
    [ banner;
      "AI Security Analysis: " +:+ investigation_name;
      banner;
      "Generated: " +:+ strftime now "%Y-%m-%d %H:%M:%S";
      banner;
      "";
      analysis_text;
      "";
      banner;
      "End of AI Analysis";
      banner ].

Definition save_ai_analysis_to_file (now : datetime)
    (investigation_name analysis_text : string) (files : disk)
  : disk * option (string * string) :=
  match analysis_text with
  | EmptyString => (files, None)
  | _ =>
      let filepath := (safe_name investigation_name, report_name now) in
      (<[filepath := report_content investigation_name now analysis_text]>
         files,
       Some filepath)
  end.

(* ================================================================== *)
(** * Part II.  The desktop application                                *)
(* ================================================================== *)

Module Desktop.

Record LogEntry : Type := mkLogEntry {
  timestamp : string;
  description : string;
  severity : string;
  parsed_time : datetime
}.

#[global] Instance LogEntry_eq_dec : EqDecision LogEntry.
Proof. solve_decision. Defined.

Definition formats : list string :=
  [ "%Y-%m-%d-%H-%M-%S";
    "%Y-%m-%d %H:%M:%S";
    "%Y/%m/%d %H:%M:%S";
    "%d/%m/%Y %H:%M:%S";
    "%m/%d/%Y %H:%M:%S";
    "%Y-%m-%d %H:%M:%S.%f";
    "%Y-%m-%dT%H:%M:%S";
    "%Y-%m-%dT%H:%M:%S.%fZ";
    "%d-%m-%Y %H:%M:%S" ].

Definition sign (c : ascii) : bool := is_char "+" c || is_char "-" c.

(** The pattern [[+-]\d{2}:?\d{2}$|Z$]. *)
Definition tz_pattern : regex :=
  Alt (seqs [Chr sign; Rep isdigit 2 (Some 2%nat); Alt (chr ":") Eps;
             Rep isdigit 2 (Some 2%nat); Dollar])
      (Seq (chr "Z") Dollar).

(** [LogEntry._parse_timestamp]: the datetime returned and the lines
    printed.  [now] is the reading of the clock. *)
Definition _parse_timestamp (now : datetime) (timestamp : string)
  : datetime * list string :=
  match try_formats (strip timestamp) formats with
  | Some d => (d, [])
  | None =>
      let clean_timestamp := re_sub tz_pattern "" (strip timestamp) in
      match fromisoformat (replace "T" " " clean_timestamp) with
      | Some d => (d, [])
      | None => (now, [warning timestamp])
      end
  end.

(** [LogEntry.__init__] *)
Definition __init__ (now : datetime) (timestamp description severity : string)
  : LogEntry :=
  mkLogEntry timestamp description severity
             (fst (_parse_timestamp now timestamp)).

(** [LogEntry.__lt__] *)
Definition __lt__ (self other : LogEntry) : option bool :=
  lt (parsed_time self) (parsed_time other).

Inductive direction : Type := asc | desc.

(** A row of the tree view: timestamp, severity label, description. *)
Definition row : Type := string * string * string.

(** The state of [DFIRLogSorter] that the operations below read or write,
    and the files of the store. *)
Record State : Type := mkState {
  log_entries : list LogEntry;
  is_sorted : bool;
  current_sort_direction : option direction;
  investigation_name : string;
  tree : list row;
  files : disk
}.

(** The data of a new window, as [DFIRLogSorter.__init__] sets them. *)
Definition start (files : disk) : State :=
  mkState [] false None "Default Investigation" [] files.

(** What the user is shown. *)
Inductive dialog : Type :=
  | NoDialog
  | ShowWarning (message : string)
  | ShowError (message : string).

Definition severity_map (severity_text : string) : string :=
  if String.eqb severity_text "🔴 Critical" then "Critical"
  else if String.eqb severity_text "🟠 High" then "High"
  else if String.eqb severity_text "🟡 Medium" then "Medium"
  else if String.eqb severity_text "🔵 Low" then "Low"
  else if String.eqb severity_text "ℹ️ Info" then "Info"
  else "Info".

Definition severity_emoji_map (severity : string) : string :=
  if String.eqb severity "Critical" then "🔴 Critical"
  else if String.eqb severity "High" then "🟠 High"
  else if String.eqb severity "Medium" then "🟡 Medium"
  else if String.eqb severity "Low" then "🔵 Low"
  else if String.eqb severity "Info" then "ℹ️ Info"
  else severity.

Definition get_investigation_csv_path (self : State) : string * string :=
  (safe_name (investigation_name self), csv_name).

Definition csv_text (sorted_entries : list LogEntry) : string :=
  writerow ["Timestamp"; "Severity"; "Description"]
  +:+ String.concat ""
        (List.map (fun entry =>
                     writerow [timestamp entry; severity entry;
                               description entry])
                  sorted_entries).

Definition with_files (self : State) (f : disk) : State :=
  mkState (log_entries self) (is_sorted self) (current_sort_direction self)
          (investigation_name self) (tree self) f.

(** [auto_save_logs_to_csv]: without entries the snapshot is unlinked;
    else the entries are sorted by [parsed_time] and the file is written
    anew.  A sort that raises is caught and leaves the file as it was. *)
Definition auto_save_logs_to_csv (self : State) : State :=
  let csv_path := get_investigation_csv_path self in
  match log_entries self with
  | [] => with_files self (delete csv_path (files self))
  | _ =>
      match sorted (fun x y => lt (parsed_time x) (parsed_time y))
                   (log_entries self) with
      | Some sorted_entries =>
          with_files self (<[csv_path := csv_text sorted_entries]> (files self))
      | None => self
      end
  end.

(** [add_log_entry]; the three texts are those of the input fields. *)
Definition add_log_entry (now : datetime)
    (timestamp_var description_text severity_var : string) (self : State)
  : State * dialog :=
  let timestamp := strip timestamp_var in
  let description := strip description_text in
  let severity_text := severity_var in
  let severity := severity_map severity_text in
  match timestamp, description with
  | EmptyString, _ => (self, ShowError "Please enter a timestamp")
  | _, EmptyString => (self, ShowError "Please enter a description")
  | _, _ =>
      let log_entry := __init__ now timestamp description severity in
      (auto_save_logs_to_csv
         (mkState (log_entries self ++ [log_entry]) false None
                  (investigation_name self)
                  (tree self ++ [(timestamp, severity_text, description)])
                  (files self)),
       NoDialog)
  end.

(** [refresh_treeview] *)
Definition refresh_treeview (entries : list LogEntry) : list row :=
  List.map (fun entry => (timestamp entry, severity_emoji_map (severity entry),
                          description entry))
           entries.

(** The result of a sort button.  When the in-place sort raises, the
    handler shows an error and the list stays as the interrupted sort
    left it, which is not followed here. *)
Inductive sort_result : Type :=
  | Sorted_ (self : State)
  | NothingToSort (self : State)
  | SortFailed.

(** [sort_ascending] *)
Definition sort_ascending (self : State) : sort_result :=
  match log_entries self with
  | [] => NothingToSort self
  | _ =>
      match sorted __lt__ (log_entries self) with
      | Some entries =>
          Sorted_ (auto_save_logs_to_csv
                     (mkState entries true (Some asc) (investigation_name self)
                              (refresh_treeview entries) (files self)))
      | None => SortFailed
      end
  end.

(** [sort_descending] *)
Definition sort_descending (self : State) : sort_result :=
  match log_entries self with
  | [] => NothingToSort self
  | _ =>
      match sorted_reverse __lt__ (log_entries self) with
      | Some entries =>
          Sorted_ (auto_save_logs_to_csv
                     (mkState entries true (Some desc) (investigation_name self)
                              (refresh_treeview entries) (files self)))
      | None => SortFailed
      end
  end.

(** [clear_logs]; [confirm] is the answer to the question. *)
Definition clear_logs (confirm : bool) (self : State) : State :=
  match log_entries self with
  | [] => self
  | _ =>
      if confirm
      then auto_save_logs_to_csv
             (mkState [] false None (investigation_name self) [] (files self))
      else self
  end.

(** The loop of [delete_selected_entry]: the first entry whose timestamp
    and description equal the first and the third value of the row is
    deleted, and the loop stops. *)
Fixpoint delete_first (v0 v2 : tk_value) (entries : list LogEntry)
  : list LogEntry :=
  match entries with
  | [] => []
  | entry :: rest =>
      if text_eq (timestamp entry) v0 && text_eq (description entry) v2
      then rest
      else entry :: delete_first v0 v2 rest
  end.

(** [delete_selected_entry]; [selection] holds the positions of the
    selected rows and [confirm] the answer to the question.  The values
    of the row are read back from the tree view, so that a timestamp or
    a description that [int] accepts is an integer and equals the text
    of no entry; the row is deleted whether an entry was or not. *)
Definition delete_selected_entry (selection : list nat) (confirm : bool)
    (self : State) : State * dialog :=
  match selection with
  | [] => (self, ShowWarning "Please select an entry to delete")
  | sel :: _ =>
      if confirm then
        match tree self !! sel with
        | Some (s0, _, s2) =>
            let v0 := _convert_stringval s0 in
            let v2 := _convert_stringval s2 in
            (auto_save_logs_to_csv
               (mkState (delete_first v0 v2 (log_entries self))
                        (is_sorted self) (current_sort_direction self)
                        (investigation_name self) (delete sel (tree self))
                        (files self)),
             NoDialog)
        | None => (self, NoDialog)
        end
      else (self, NoDialog)
  end.

(** [insert_current_time]: the text put into the timestamp field. *)
Definition insert_current_time (now : datetime) : string :=
  strftime now "%Y-%m-%d-%H-%M-%S".

(** [sort_logs], the sort of the control section: an ascending sort that
    leaves the sort direction as it was. *)
Definition sort_logs (self : State) : sort_result :=
  match log_entries self with
  | [] => NothingToSort self
  | _ =>
      match sorted __lt__ (log_entries self) with
      | Some entries =>
          Sorted_ (auto_save_logs_to_csv
                     (mkState entries true (current_sort_direction self)
                              (investigation_name self)
                              (refresh_treeview entries) (files self)))
      | None => SortFailed
      end
  end.

(** What the export functions write: the list as it is when the flag
    says it is sorted, else a sorted copy; [None] when that sort
    raises. *)
Definition entries_to_export (self : State) : option (list LogEntry) :=
  if is_sorted self then Some (log_entries self)
  else sorted __lt__ (log_entries self).

(** [export_csv]: the text written to the chosen file, if it was opened,
    and the dialog shown.  [filename] is the answer of the file dialog,
    empty when it was cancelled.  The header is written before the
    entries are sorted. *)
Definition export_csv (filename : string) (self : State)
  : option string * dialog :=
  match log_entries self, filename with
  | [], _ => (None, ShowWarning "No log entries to export")
  | _, EmptyString => (None, NoDialog)
  | _, _ =>
      let header :=
        writerow ["Timestamp"; "Severity"; "Description"; "Parsed Time"] in
      match entries_to_export self with
      | Some entries =>
          (Some (header
                 +:+ String.concat ""
                       (List.map
                          (fun entry =>
                             writerow [timestamp entry; severity entry;
                                       description entry;
                                       strftime (parsed_time entry)
                                                "%Y-%m-%d %H:%M:%S"])
                          entries)),
           NoDialog)
      | None =>
          (Some header,
           ShowError ("Failed to export CSV: can't compare offset-naive "
                      +:+ "and offset-aware datetimes"))
      end
  end.

(** One row of [import_csv]: the three values are trimmed, and a row
    with a timestamp and a description adds an entry and a row of the
    tree.  [None] is the [AttributeError] of a value that is [None]. *)
Definition import_row (now : datetime) (row : gmap string (option string))
    (self : State) : option State :=
  match dict_get row "Timestamp" "", dict_get row "Description" "",
        dict_get row "Severity" "Info" with
  | Some timestamp_value, Some description_value, Some severity_value =>
      let timestamp := strip timestamp_value in
      let description := strip description_value in
      let severity := strip severity_value in
      match timestamp, description with
      | String _ _, String _ _ =>
          Some (mkState
                  (log_entries self
                   ++ [__init__ now timestamp description severity])
                  (is_sorted self) (current_sort_direction self)
                  (investigation_name self)
                  (tree self
                   ++ [(timestamp, severity_emoji_map severity, description)])
                  (files self))
      | _, _ => Some self
      end
  | _, _, _ => None
  end.

(** The loop over the rows: the state reached, and whether the loop ran
    to its end. *)
Fixpoint import_rows (now : datetime)
    (rows : list (gmap string (option string))) (self : State)
  : State * bool :=
  match rows with
  | [] => (self, true)
  | row :: rest =>
      match import_row now row self with
      | Some self' => import_rows now rest self'
      | None => (self, false)
      end
  end.

(** [import_csv]; [chosen] is the text of the file that the user chose,
    [None] when the dialog was cancelled.  An exception inside the loop
    leaves the entries added so far and skips the rest of the function;
    the error dialog then shows these words followed by the text of the
    exception, which is not modelled. *)
Definition import_csv (now : datetime) (chosen : option string)
    (self : State) : State * dialog :=
  match chosen with
  | None => (self, NoDialog)
  | Some text =>
      let '(rows, ok) := DictReader text in
      let '(self', completed) := import_rows now rows self in
      if completed && ok
      then (auto_save_logs_to_csv
              (mkState (log_entries self') false (current_sort_direction self')
                       (investigation_name self') (tree self') (files self')),
            NoDialog)
      else (self', ShowError "Failed to import CSV")
  end.

(** The loop of [edit_selected_entry]: the first entry whose timestamp,
    severity and description equal the three values of the row, with its
    index. *)
Fixpoint find_entry (i : nat) (values : tk_value * tk_value * tk_value)
    (entries : list LogEntry) : option (nat * LogEntry) :=
  match entries with
  | [] => None
  | entry :: rest =>
      let '(v0, v1, v2) := values in
      if text_eq (timestamp entry) v0 && text_eq (severity entry) v1
         && text_eq (description entry) v2
      then Some (i, entry)
      else find_entry (S i) values rest
  end.

(** [edit_selected_entry]: the index and the entry for which the edit
    dialog opens, if it does.  The values of the row are read back from
    the tree view, as in [delete_selected_entry]. *)
Definition edit_selected_entry (selection : list nat) (self : State)
  : option (nat * LogEntry) :=
  match selection with
  | [] => None
  | sel :: _ =>
      match tree self !! sel with
      | Some (s0, s1, s2) =>
          find_entry 0
                     (_convert_stringval s0, _convert_stringval s1,
                      _convert_stringval s2)
                     (log_entries self)
      | None => None
      end
  end.

(** [save_changes] of the edit dialog that was opened for [index]; the
    three texts are those of its fields.  An index outside the list or
    outside the rows of the tree raises, and the handler shows the
    error. *)
Definition save_changes (now : datetime) (index : nat)
    (timestamp_var severity_var desc_text : string) (self : State)
  : State * dialog :=
  let new_timestamp := strip timestamp_var in
  let new_severity := severity_var in
  let new_description := strip desc_text in
  match new_timestamp, new_description with
  | String _ _, String _ _ =>
      let updated_entry :=
        __init__ now new_timestamp new_description new_severity in
      if (index <? length (log_entries self))%nat then
        let entries := <[index := updated_entry]> (log_entries self) in
        if (index <? length (tree self))%nat then
          (auto_save_logs_to_csv
             (mkState entries false (current_sort_direction self)
                      (investigation_name self)
                      (<[index := (new_timestamp, new_severity,
                                   new_description)]> (tree self))
                      (files self)),
           NoDialog)
        else
          (mkState entries (is_sorted self) (current_sort_direction self)
                   (investigation_name self) (tree self) (files self),
           ShowError "Failed to update entry: tuple index out of range")
      else
        (self,
         ShowError "Failed to update entry: list assignment index out of range")
  | _, _ => (self, ShowError "Please fill all fields")
  end.

(** [new_investigation]; [confirm] is the answer to the question.  The
    setup dialog that follows is [start_investigation]. *)
Definition new_investigation (confirm : bool) (self : State) : State :=
  if confirm
  then mkState [] false None (investigation_name self) [] (files self)
  else self.

(** [start_investigation] of the setup dialog. *)
Definition start_investigation (investigation_var : string) (self : State)
  : State * dialog :=
  match strip investigation_var with
  | EmptyString => (self, ShowError "Please enter an investigation name")
  | name =>
      (mkState (log_entries self) (is_sorted self)
               (current_sort_direction self) name (tree self) (files self),
       NoDialog)
  end.

End Desktop.

(* ================================================================== *)
(** * Part III.  The web application                                   *)
(* ================================================================== *)

Module Web.

Record LogEntry : Type := mkLogEntry {
  id : string;
  timestamp : string;
  description : string;
  severity : string;
  parsed_time : datetime;
  created_at : datetime
}.

#[global] Instance LogEntry_eq_dec : EqDecision LogEntry.
Proof. solve_decision. Defined.

Definition formats : list string :=
  [ "%Y-%m-%d-%H-%M-%S";
    "%Y-%m-%d %H:%M:%S";
    "%Y-%m-%dT%H:%M";
    "%Y-%m-%dT%H:%M:%S";
    "%Y/%m/%d %H:%M:%S";
    "%d/%m/%Y %H:%M:%S" ].

(** [LogEntry._parse_timestamp]: the datetime returned and the lines
    printed. *)
Definition _parse_timestamp (now : datetime) (timestamp_str : string)
  : datetime * list string :=
  match try_formats (strip timestamp_str) formats with
  | Some d => (d, [])
  | None =>
      match fromisoformat (replace "T" " " timestamp_str) with
      | Some d => (d, [])
      | None => (now, [warning timestamp_str])
      end
  end.

(** [LogEntry.__init__]; [fresh] is the identifier that [uuid.uuid4()]
    would give. *)
Definition __init__ (now : datetime) (fresh : string)
    (timestamp description severity : string) (entry_id : option string)
  : LogEntry :=
  mkLogEntry (match entry_id with
              | Some (String c i) => String c i
              | _ => fresh
              end)
             timestamp description severity
             (fst (_parse_timestamp now timestamp)) now.

(** The session cookie.  An entry of [session['log_entries']] is the
    dictionary of [to_dict], kept as the entry it was made from. *)
Record Session : Type := mkSession {
  investigation_name : option string;
  log_entries : list LogEntry
}.

(** [get_session_logs]: every entry is built anew from the stored
    timestamp, description, severity and id. *)
Definition get_session_logs (now : datetime) (fresh : string)
    (session : Session) : list LogEntry :=
  List.map (fun entry_data =>
              __init__ now fresh (timestamp entry_data)
                       (description entry_data) (severity entry_data)
                       (Some (id entry_data)))
           (log_entries session).

(** [get_session_logs] with the readings of the clock told apart: the
    entries are built one after the other, and [clock k] is the reading
    of the clock while the entry at position [k] is built, for the
    fallback of its normaliser and for its [created_at] alike, as in
    [__init__]. *)
Definition get_session_logs_at (clock : nat -> datetime) (fresh : string)
    (session : Session) : list LogEntry :=
  imap (fun k entry_data =>
          __init__ (clock k) fresh (timestamp entry_data)
                   (description entry_data) (severity entry_data)
                   (Some (id entry_data)))
       (log_entries session).

(** [save_session_logs] *)
Definition save_session_logs (entries : list LogEntry) (session : Session)
  : Session :=
  mkSession (investigation_name session) entries.

Definition csv_line (entry : LogEntry) : string :=
  quoted (timestamp entry) +:+ "," +:+ quoted (severity entry) +:+ ","
  +:+ quoted (double_quotes (description entry)) +:+ newline.

Definition csv_text (sorted_entries : list LogEntry) : string :=
  "Timestamp,Severity,Description" +:+ newline
  +:+ String.concat "" (List.map csv_line sorted_entries).

(** [save_logs_to_file]: the files afterwards and the path returned;
    [None] is the [TypeError] of a sort that cannot compare two
    entries, raised before the file is opened. *)
Definition save_logs_to_file (investigation_name : string)
    (entries : list LogEntry) (files : disk)
  : option (disk * option (string * string)) :=
  match entries with
  | [] => Some (files, None)
  | _ =>
      let filepath := (safe_name investigation_name, csv_name) in
      match sorted (fun x y => lt (parsed_time x) (parsed_time y)) entries with
      | Some sorted_entries =>
          Some (<[filepath := csv_text sorted_entries]> files, Some filepath)
      | None => None
      end
  end.

(** The call sites wrap [save_logs_to_file] in a handler that prints a
    warning. *)
Definition auto_save (session : Session) (entries : list LogEntry)
    (files : disk) : disk :=
  match save_logs_to_file (default "Unknown" (investigation_name session))
                          entries files with
  | Some (files', _) => files'
  | None => files
  end.

Inductive response : Type :=
  | Success
  | Error (status : Z) (message : string).

(** [add_entry]; the three data are the fields of the request, an absent
    text being empty. *)
Definition add_entry (now : datetime) (fresh : string)
    (data_timestamp data_description : string) (data_severity : option string)
    (session : Session) (files : disk) : Session * disk * response :=
  let timestamp := strip data_timestamp in
  let description := strip data_description in
  let severity := default "Info" data_severity in
  match timestamp, description with
  | EmptyString, _ => (session, files, Error 400 "Timestamp is required")
  | _, EmptyString => (session, files, Error 400 "Description is required")
  | _, _ =>
      if (String.length description <? 5)%nat
      then (session, files,
            Error 400 "Description must be at least 5 characters long")
      else
        let log_entry := __init__ now fresh timestamp description severity None in
        let entries := (get_session_logs now fresh session ++ [log_entry])%list in
        (save_session_logs entries session, auto_save session entries files,
         Success)
  end.

(** [delete_entry] *)
Definition delete_entry (now : datetime) (fresh : string) (entry_id : string)
    (session : Session) (files : disk) : Session * disk * response :=
  let entries := get_session_logs now fresh session in
  let original_count := length entries in
  let entries' :=
    List.filter (fun entry => negb (String.eqb (id entry) entry_id)) entries in
  if (length entries' =? original_count)%nat
  then (session, files, Error 404 "Entry not found")
  else (save_session_logs entries' session, auto_save session entries' files,
        Success).

(** [sort_entries]; [clock k] is the reading of the clock while the
    stored entry at position [k] is built anew. *)
Definition sort_entries (clock : nat -> datetime) (fresh : string)
    (session : Session) (files : disk) : Session * disk * response :=
  match get_session_logs_at clock fresh session with
  | [] => (session, files, Error 400 "No entries to sort")
  | entries =>
      match sorted (fun x y => lt (parsed_time x) (parsed_time y)) entries with
      | Some entries' => (save_session_logs entries' session, files, Success)
      | None => (session, files, Error 500 "Failed to sort entries")
      end
  end.

(** [clear_entries] *)
Definition clear_entries (session : Session) (files : disk)
  : Session * disk * response :=
  (mkSession (investigation_name session) [],
   delete (safe_name (default "Unknown" (investigation_name session)), csv_name)
          files,
   Success).

(** The loop of [update_entry]: the first entry with the identifier gets
    the new texts and a new canonical time; [None] when the loop ends
    without finding one. *)
Fixpoint update_first (now : datetime)
    (entry_id timestamp description severity : string)
    (entries : list LogEntry) : option (list LogEntry) :=
  match entries with
  | [] => None
  | entry :: rest =>
      if String.eqb (id entry) entry_id
      then Some (mkLogEntry (id entry) timestamp description severity
                            (fst (_parse_timestamp now timestamp))
                            (created_at entry)
                 :: rest)
      else option_map (cons entry)
                      (update_first now entry_id timestamp description severity
                                    rest)
  end.

(** [update_entry].  The stored entries are built anew first, each at
    its reading of the clock, and the entry that is updated is parsed
    again after all of them: [clock n], for [n] stored entries, is the
    reading of the clock at that moment. *)
Definition update_entry (clock : nat -> datetime) (fresh : string)
    (entry_id : string)
    (data_timestamp data_description : string) (data_severity : option string)
    (session : Session) (files : disk) : Session * disk * response :=
  let timestamp := strip data_timestamp in
  let description := strip data_description in
  let severity := default "Info" data_severity in
  match timestamp, description with
  | String _ _, String _ _ =>
      match update_first (clock (length (log_entries session))) entry_id
                         timestamp description severity
                         (get_session_logs_at clock fresh session) with
      | Some entries =>
          (save_session_logs entries session, auto_save session entries files,
           Success)
      | None => (session, files, Error 404 "Entry not found")
      end
  | _, _ =>
      (session, files, Error 400 "Timestamp and description are required")
  end.

(** A value of an imported object: absent, a text, or a value of
    another kind, on which [strip] raises. *)
Inductive json_field : Type :=
  | Absent
  | Text (s : string)
  | NotText.

(** An element of the imported list: an object with its three values,
    or a value of another kind, on which [get] raises. *)
Inductive json_entry : Type :=
  | Object (timestamp description severity : json_field)
  | NotObject.

Definition text_of (v : json_field) (dflt : string) : option string :=
  match v with
  | Absent => Some dflt
  | Text s => Some s
  | NotText => None
  end.

(** [severity_map.get(severity.lower(), severity)] of [import_csv]. *)
Definition severity_map (severity : string) : string :=
  let key := lower_str severity in
  if String.eqb key "critical" then "Critical"
  else if String.eqb key "high" then "High"
  else if String.eqb key "medium" then "Medium"
  else if String.eqb key "low" then "Low"
  else if String.eqb key "info" then "Info"
  else if String.eqb key "information" then "Info"
  else severity.

(** The body of the loop of [import_csv]: the entry made, or [None] when
    the element is skipped, for a missing text or for an exception. *)
Definition import_entry (now : datetime) (fresh : string)
    (entry_data : json_entry) : option LogEntry :=
  match entry_data with
  | NotObject => None
  | Object timestamp_field description_field severity_field =>
      match text_of timestamp_field "", text_of description_field "",
            text_of severity_field "Info" with
      | Some timestamp_value, Some description_value, Some severity_value =>
          let timestamp := strip timestamp_value in
          let description := strip description_value in
          let severity := strip severity_value in
          match timestamp, description with
          | String _ _, String _ _ =>
              Some (__init__ now fresh timestamp description
                             (severity_map severity) None)
          | _, _ => None
          end
      | _, _, _ => None
      end
  end.

(** The loop of [import_csv]; [uuid4 k] is the identifier given to the
    entry number [k] that the loop makes. *)
Fixpoint import_entries (now : datetime) (uuid4 : nat -> string) (k : nat)
    (entries_data : list json_entry) : list LogEntry :=
  match entries_data with
  | [] => []
  | entry_data :: rest =>
      match import_entry now (uuid4 k) entry_data with
      | Some log_entry => log_entry :: import_entries now uuid4 (S k) rest
      | None => import_entries now uuid4 k rest
      end
  end.

Inductive import_response : Type :=
  | Imported (imported_count total_entries : nat)
  | ImportError (status : Z) (message : string).

(** [import_csv]; [entries_data] is the list under the key [entries] of
    the request, [None] without that key. *)
Definition import_csv (now : datetime) (fresh : string) (uuid4 : nat -> string)
    (entries_data : option (list json_entry)) (session : Session)
  : Session * import_response :=
  match entries_data with
  | None => (session, ImportError 400 "No entries data provided")
  | Some [] => (session, ImportError 400 "No entries to import")
  | Some entries_data =>
      let current_entries := get_session_logs now fresh session in
      let imported := import_entries now uuid4 0 entries_data in
      (mkSession (investigation_name session) (current_entries ++ imported),
       Imported (length imported) (length (current_entries ++ imported)))
  end.

(** [current_time]: the four texts of the answer. *)
Record times : Type := mktimes {
  datetime_local : string;
  formatted : string;
  iso : string;
  display : string
}.

Definition current_time (now : datetime) : times :=
  mktimes (strftime now "%Y-%m-%dT%H:%M:%S") (strftime now "%Y-%m-%d-%H-%M-%S")
          (isoformat now) (strftime now "%Y-%m-%d %H:%M:%S").

End Web.

(* ================================================================== *)
(** * Part IV.  Vocabulary of the statements                           *)
(* ================================================================== *)

(** Ascending order for a comparison that may raise: no element is
    smaller than its predecessor. *)
Definition ascending {A : Type} (less : A -> A -> option bool) : relation A :=
  fun a b => less b a = Some false.

Definition aware (d : datetime) : bool :=
  match tzinfo d with Some _ => true | None => false end.

(** What two datetimes of the same kind are compared by. *)
Definition sort_key (d : datetime) : list Z :=
  match tzinfo d with
  | None => fields d
  | Some off => [local_us d - off]
  end.

(** Datetimes that can be compared with each other without a
    [TypeError]: all naive, or all aware. *)
Definition comparable (times : list datetime) : Prop :=
  forall a b, a ∈ times -> b ∈ times -> is_Some (lt a b).

(** The same, as a test that can be run on a given list. *)
Definition comparableb (times : list datetime) : bool :=
  forallb (fun a =>
             forallb (fun b => match lt a b with
                               | Some _ => true
                               | None => false
                               end)
                     times)
          times.

(** [data] is refused by the format: [strptime] raises. *)
Definition rejects (data format : string) : Prop := strptime data format = None.

(** Some format of the desktop list, or else the ISO parse of the text
    without its offset, accepts the timestamp. *)
Definition desktop_accepts (timestamp : string) : bool :=
  match try_formats (strip timestamp) Desktop.formats,
        fromisoformat
          (replace "T" " " (re_sub Desktop.tz_pattern "" (strip timestamp)))
  with
  | None, None => false
  | _, _ => true
  end.

Definition web_accepts (timestamp_str : string) : bool :=
  match try_formats (strip timestamp_str) Web.formats,
        fromisoformat (replace "T" " " timestamp_str)
  with
  | None, None => false
  | _, _ => true
  end.

(** The comparison of two entries by their canonical times, as
    [LogEntry.__lt__] and the sort key of the snapshot make it. *)
Definition by_time {E : Type} (time : E -> datetime) : E -> E -> option bool :=
  fun x y => lt (time x) (time y).

(** The entries whose canonical time equals [t]. *)
Definition at_time {E : Type} (time : E -> datetime) (t : datetime)
    (l : list E) : list E :=
  List.filter (fun e => eq (time e) t) l.

(** No two entries of the list have equal canonical times. *)
Definition distinct_times {E : Type} (time : E -> datetime) (l : list E)
  : Prop :=
  NoDup l /\ forall a b, a ∈ l -> b ∈ l -> eq (time a) (time b) = true -> a = b.

(** The same, as a test that can be run on a given list. *)
Definition distinct_timesb {E : Type} `{EqDecision E} (time : E -> datetime)
    (l : list E) : bool :=
  bool_decide (NoDup l)
  && forallb (fun a =>
                forallb (fun b => implb (eq (time a) (time b))
                                        (bool_decide (a = b)))
                        l)
             l.

(** The state after a sort button, unless the sort failed. *)
Definition after (r : Desktop.sort_result) : option Desktop.State :=
  match r with
  | Desktop.Sorted_ self => Some self
  | Desktop.NothingToSort self => Some self
  | Desktop.SortFailed => None
  end.

Definition comma_or_quote (c : ascii) : bool :=
  is_char "," c || is_char dquote c.

Definition crlf : string := String CR (String LF EmptyString).

(** The text of a report before and after the analysis text. *)
Definition report_header (investigation_name : string) (now : datetime)
  : string :=
  banner +:+ newline +:+ ("AI Security Analysis: " +:+ investigation_name)
  +:+ newline +:+ banner +:+ newline
  +:+ ("Generated: " +:+ strftime now "%Y-%m-%d %H:%M:%S")
  +:+ newline +:+ banner +:+ newline +:+ newline.

Definition report_footer : string :=
  newline +:+ newline +:+ banner +:+ newline +:+ "End of AI Analysis"
  +:+ newline +:+ banner.

(** The fields of a clock reading are in the ranges of a date on four
    digits of year. *)
Definition clock_reading (d : datetime) : Prop :=
  0 <= year d < 10000 /\ 0 <= month d < 100 /\ 0 <= day d < 100
  /\ 0 <= hour d < 100 /\ 0 <= minute d < 100 /\ 0 <= second d < 100.

(** Two clock readings within the same second. *)
Definition same_second (a b : datetime) : Prop :=
  year a = year b /\ month a = month b /\ day a = day b
  /\ hour a = hour b /\ minute a = minute b /\ second a = second b.


(** The text comes back from the tree view as an integer. *)
Definition reads_as_int (s : string) : bool :=
  match int_text s with Some _ => true | None => false end.

(** No timestamp and no description of the entries comes back from the
    tree view as an integer. *)
Definition plain_texts (entries : list Desktop.LogEntry) : Prop :=
  Forall (fun e => reads_as_int (Desktop.timestamp e) = false
                   /\ reads_as_int (Desktop.description e) = false)
         entries.

(** The same, as a test that can be run on a given list. *)
Definition plain_textsb (entries : list Desktop.LogEntry) : bool :=
  forallb (fun e => negb (reads_as_int (Desktop.timestamp e))
                    && negb (reads_as_int (Desktop.description e)))
          entries.

(** The snapshot of the investigation is on the disk. *)
Definition snapshot_exists (self : Desktop.State) : Prop :=
  is_Some (Desktop.files self !! Desktop.get_investigation_csv_path self).

(** A time-zone annotation at the end of a timestamp: the letter Z, or a
    sign, two digits, a colon and two digits. *)
Definition annotation (tz : string) : bool :=
  match tz with
  | String z EmptyString => is_char "Z" z
  | String sg (String h1 (String h2 (String c (String m1 (String m2
      EmptyString))))) =>
      Desktop.sign sg && isdigit h1 && isdigit h2 && is_char ":" c
      && isdigit m1 && isdigit m2
  | _ => false
  end.

Fixpoint last_char (s : string) : option ascii :=
  match s with
  | EmptyString => None
  | String c s' =>
      match s' with
      | EmptyString => Some c
      | _ => last_char s'
      end
  end.

(** What the end of a text must look like for the offset pattern to match
    at its start: the single letter Z, a final line feed, or at most six
    characters the last of which is a digit. *)
Definition tz_end (u : string) : bool :=
  match last_char u with
  | None => false
  | Some c =>
      (is_char "Z" c && (String.length u =? 1)%nat) || is_char LF c
      || (isdigit c && (String.length u <=? 6)%nat)
  end.

(** A text that is empty once trimmed. *)
Definition blank (s : string) : bool :=
  match strip s with EmptyString => true | _ => false end.

Definition a_now : datetime := mkdatetime 2030 1 1 0 0 0 0 None.


(** A clock that has moved on by one second at each reading. *)
Definition ticking (k : nat) : datetime :=
  mkdatetime 2030 1 1 0 0 (Z.of_nat k) 0 None.

(** Two entries of the web application, the later instant first. *)
Definition web_later : Web.LogEntry :=
  Web.__init__ a_now "id-1" "2024-01-15 10:00:00" "login, then logout" "Low"
               None.

Definition web_earlier : Web.LogEntry :=
  Web.__init__ a_now "id-2" "2024-01-14 09:00:00" "scan started" "Critical"
               None.

(** An entry whose timestamp carries an offset. *)
Definition web_offset : Web.LogEntry :=
  Web.__init__ a_now "id-3" "2024-01-15T10:00:00+05:00" "remote login" "Info"
               None.




(** A session of the web application with two entries whose timestamps
    no format reads. *)
Definition web_unparseable : Web.Session :=
  Web.mkSession (Some "Case")
    [ Web.__init__ a_now "id-1" "this morning" "apple pie" "Low" None;
      Web.__init__ a_now "id-2" "this evening" "cherry pie" "Low" None ].

(** Two insertions at different instants, the later one first. *)
Definition two_distinct : Desktop.State :=
  let s0 := Desktop.start ∅ in
  let s1 := fst (Desktop.add_log_entry a_now "2024-01-15 10:00:00"
                   "first event" "🔵 Low" s0) in
  fst (Desktop.add_log_entry a_now "2024-01-14 09:00:00"
         "second event" "🔴 Critical" s1).

(** A session of the web application with the same three entries as
    [three_entries] below. *)
Definition web_three : Web.Session :=
  Web.mkSession (Some "Case")
    [ Web.__init__ a_now "id-1" "2024-01-15 10:00:00" "first event" "Low" None;
      Web.__init__ a_now "id-2" "2024-01-14 09:00:00" "second event" "Critical"
                   None;
      Web.__init__ a_now "id-3" "2024-01-15 10:00:00" "third event" "Info"
                   None ].

(** Two insertions at the same instant. *)
Definition two_ties : Desktop.State :=
  let s0 := Desktop.start ∅ in
  let s1 := fst (Desktop.add_log_entry a_now "2024-01-15 10:00:00"
                   "first event" "🔵 Low" s0) in
  fst (Desktop.add_log_entry a_now "2024-01-15 10:00:00"
         "second event" "ℹ️ Info" s1).

(** The timeline of the end-to-end example: three insertions, the first
    and the third at the same instant. *)
Definition three_entries : Desktop.State :=
  let s0 := Desktop.start ∅ in
  let s1 := fst (Desktop.add_log_entry a_now "2024-01-15 10:00:00"
                   "first event" "🔵 Low" s0) in
  let s2 := fst (Desktop.add_log_entry a_now "2024-01-14 09:00:00"
                   "second event" "🔴 Critical" s1) in
  fst (Desktop.add_log_entry a_now "2024-01-15 10:00:00"
         "third event" "ℹ️ Info" s2).

(** One of the two sort buttons. *)
Definition sort_button (d : Desktop.direction) (self : Desktop.State)
  : Desktop.sort_result :=
  match d with
  | Desktop.asc => Desktop.sort_ascending self
  | Desktop.desc => Desktop.sort_descending self
  end.

(** The five severities of the combo boxes. *)
Definition known_severity (severity : string) : bool :=
  String.eqb severity "Critical" || String.eqb severity "High"
  || String.eqb severity "Medium" || String.eqb severity "Low"
  || String.eqb severity "Info".

(** The entries are in the order of their canonical times, ascending or
    descending. *)
Definition time_ordered (entries : list Desktop.LogEntry) : Prop :=
  Sorted (ascending Desktop.__lt__) entries
  \/ Sorted (flip (ascending Desktop.__lt__)) entries.

(** What [delete_selected_entry] compares of a row and of an entry. *)
Definition row_key (values : Desktop.row) : string * string :=
  let '(v0, _, v2) := values in (v0, v2).

Definition entry_key (entry : Desktop.LogEntry) : string * string :=
  (Desktop.timestamp entry, Desktop.description entry).

(** The states that the window reaches from its start by the operations
    on the timeline, as long as no timestamp and no description of the
    timeline comes back from the tree view as an integer.  A sort that
    raises leaves the entries in some order; an import is followed when
    it runs to its end. *)
Inductive reachable : Desktop.State -> Prop :=
  | reach_start files : reachable (Desktop.start files)
  | reach_add_log_entry now timestamp_var description_text severity_var self :
      reachable self ->
      plain_texts
        (Desktop.log_entries
           (fst (Desktop.add_log_entry now timestamp_var description_text
                                       severity_var self))) ->
      reachable (fst (Desktop.add_log_entry now timestamp_var description_text
                                            severity_var self))
  | reach_sort_ascending self self' :
      reachable self -> Desktop.sort_ascending self = Desktop.Sorted_ self' ->
      reachable self'
  | reach_sort_descending self self' :
      reachable self -> Desktop.sort_descending self = Desktop.Sorted_ self' ->
      reachable self'
  | reach_sort_logs self self' :
      reachable self -> Desktop.sort_logs self = Desktop.Sorted_ self' ->
      reachable self'
  | reach_sort_failed self entries :
      reachable self ->
      Desktop.sort_ascending self = Desktop.SortFailed
      \/ Desktop.sort_descending self = Desktop.SortFailed
      \/ Desktop.sort_logs self = Desktop.SortFailed ->
      Permutation (Desktop.log_entries self) entries ->
      reachable (Desktop.mkState entries (Desktop.is_sorted self)
                   (Desktop.current_sort_direction self)
                   (Desktop.investigation_name self) (Desktop.tree self)
                   (Desktop.files self))
  | reach_clear_logs confirm self :
      reachable self -> reachable (Desktop.clear_logs confirm self)
  | reach_delete_selected_entry selection confirm self :
      reachable self ->
      reachable (fst (Desktop.delete_selected_entry selection confirm self))
  | reach_save_changes now index timestamp_var severity_var desc_text self :
      reachable self ->
      plain_texts
        (Desktop.log_entries
           (fst (Desktop.save_changes now index timestamp_var severity_var
                                      desc_text self))) ->
      reachable (fst (Desktop.save_changes now index timestamp_var severity_var
                                           desc_text self))
  | reach_import_csv now text self self' :
      reachable self ->
      Desktop.import_csv now (Some text) self = (self', Desktop.NoDialog) ->
      plain_texts (Desktop.log_entries self') ->
      reachable self'
  | reach_new_investigation confirm self :
      reachable self -> reachable (Desktop.new_investigation confirm self)
  | reach_start_investigation investigation_var self :
      reachable self ->
      reachable (fst (Desktop.start_investigation investigation_var self)).

(** What the flag promises: the entries are in time order, and the rows
    stand for the entries. *)
Definition flag_holds (self : Desktop.State) : Prop :=
  Desktop.is_sorted self = true ->
  time_ordered (Desktop.log_entries self)
  /\ Permutation (List.map row_key (Desktop.tree self))
                 (List.map entry_key (Desktop.log_entries self)).

(** The pieces of the pattern of a format: the group of a directive, a
    literal character, a run of whitespace. *)
Definition field (c : ascii) : regex := default Eps (directive_regex c).

Definition lit (c : ascii) : regex := Chr (is_char_nocase c).

Definition ws : regex := Rep isspace 1 None.

(** The clock reading without its fraction of a second. *)
Definition to_the_second (d : datetime) : datetime :=
  mkdatetime (year d) (month d) (day d) (hour d) (minute d) (second d) 0
             (tzinfo d).

(** A naive datetime that the constructor accepts, with a year of four
    digits. *)
Definition valid_clock (d : datetime) : Prop :=
  make_datetime (year d) (month d) (day d) (hour d) (minute d) (second d)
                (microsecond d) None = Some d
  /\ 1000 <= year d.

(** The patterns that read a bounded number of characters: those without
    a repetition and without the end of the text; and the bound. *)
Fixpoint simple (r : regex) : bool :=
  match r with
  | Eps | Chr _ => true
  | Seq a b | Alt a b => simple a && simple b
  | Group _ r' => simple r'
  | Rep _ _ _ | Dollar => false
  end.

Fixpoint width (r : regex) : nat :=
  match r with
  | Eps | Dollar | Rep _ _ _ => 0
  | Chr _ => 1
  | Seq a b => width a + width b
  | Alt a b => Nat.max (width a) (width b)
  | Group _ r' => width r'
  end.

(** What the group of a directive does on the text of a value followed
    by anything: the first way of matching takes the whole text, and every
    other way stops before a digit. *)
Definition takes (g : regex) (name : ascii) (text : string) : Prop :=
  forall rest,
    exists others,
      matches g (text +:+ rest) = ([(name, text)], rest) :: others
      /\ Forall (fun m : captures * string =>
                   exists b s, snd m = String b s /\ isdigit b = true)
                others.

(** The same, as a test on the text alone. *)
Definition takes_check (g : regex) (name : ascii) (text : string) : bool :=
  simple g && (width g <=? String.length text)%nat
  && match matches g text with
     | (found, EmptyString) :: _ => bool_decide (found = [(name, text)])
     | _ => false
     end
  && forallb (fun m : captures * string =>
                match snd m with
                | String b _ => isdigit b
                | EmptyString => false
                end)
             (tl (matches g text)).

(** A pattern that matches no text starting with a digit. *)
Definition refuses_digits (k : regex) : Prop :=
  forall b s, isdigit b = true -> matches k (String b s) = [].

(** The test that every way in which a group matches the start of a
    text of digits stops inside the text. *)
Definition stops_check (g : regex) (text : string) : bool :=
  simple g && (width g <=? String.length text)%nat
  && forallb (fun m : captures * string =>
                match snd m with
                | String b _ => isdigit b
                | EmptyString => false
                end)
             (matches g text).

(** The group found, put before what the rest of the pattern finds. *)
Definition found_first (name : ascii) (text : string)
    (m : captures * string) : captures * string :=
  ((name, text) :: fst m, snd m).

(** The reader run over a text whose lines all end with LF: every
    character is processed, after each LF the end of the line, and a
    record is given when that leaves the machine at the start of a
    record.  The result is the records given, and the machine at the end
    unless a character was refused. *)
Fixpoint scan (self : Reader.ReaderObj) (text : string)
  : list (list string) * option Reader.ReaderObj :=
  match text with
  | EmptyString => ([], Some self)
  | String c rest =>
      if is_char "000" c then ([], None)
      else
        match Reader.parse_process_char self (Some c) with
        | None => ([], None)
        | Some self1 =>
            if is_char LF c then
              match Reader.parse_process_char self1 None with
              | None => ([], None)
              | Some self2 =>
                  match Reader.state self2 with
                  | Reader.START_RECORD =>
                      let '(records, final) := scan Reader.parse_reset rest in
                      (Reader.fields self2 :: records, final)
                  | _ => scan self2 rest
                  end
              end
            else scan self1 rest
        end
  end.

(** The text is empty or ends with LF. *)
Fixpoint ends_lines (text : string) : bool :=
  match text with
  | EmptyString => true
  | String c EmptyString => is_char LF c
  | String _ rest => ends_lines rest
  end.

(** A text that can be a field of a CSV file written and read back: no
    CR (a text file read without [newline] turns it into LF), no NUL, and
    no more characters than a field may hold. *)
Definition csv_safe (s : string) : Prop :=
  has_char (is_char CR) s = false /\ has_char (is_char "000") s = false
  /\ Z.of_nat (String.length s) <= Reader.field_limit.

(** The text of a field in a CSV file: the field itself when it has none
    of the special characters, or the field between quotes with its
    quotes doubled. *)
Definition encoded (text f : string) : Prop :=
  (text = f /\ has_char csv_special f = false)
  \/ text = quoted (double_quotes f).

(** The lines of a CSV text, each made of the texts of its fields and
    ended by LF. *)
Fixpoint lines_text (rows : list (list string)) : string :=
  match rows with
  | [] => EmptyString
  | texts :: rest => join "," texts +:+ String LF (lines_text rest)
  end.

(** The entry that [import_csv] makes of the three values of a row. *)
Definition reimported (now : datetime) (values : string * string * string)
  : Desktop.LogEntry :=
  let '(timestamp, severity, description) := values in
  Desktop.__init__ now (strip timestamp) (strip description) (strip severity).

(** The row of the tree that [import_csv] adds for them. *)
Definition reimported_row (values : string * string * string) : Desktop.row :=
  let '(timestamp, severity, description) := values in
  (strip timestamp, Desktop.severity_emoji_map (strip severity),
   strip description).

(** Values that a CSV file gives back and that [import_csv] makes an
    entry of. *)
Definition importable (values : string * string * string) : Prop :=
  let '(timestamp, severity, description) := values in
  csv_safe timestamp /\ csv_safe severity /\ csv_safe description
  /\ blank timestamp = false /\ blank description = false.

Definition desktop_values (e : Desktop.LogEntry) : string * string * string :=
  (Desktop.timestamp e, Desktop.severity e, Desktop.description e).

Definition web_values (e : Web.LogEntry) : string * string * string :=
  (Web.timestamp e, Web.severity e, Web.description e).

(** The state after a completed [import_csv] that has read the values
    [read] in this order. *)
Definition imported (now : datetime) (read : list (string * string * string))
    (self : Desktop.State) : Desktop.State :=
  Desktop.auto_save_logs_to_csv
    (Desktop.mkState
       (Desktop.log_entries self ++ List.map (reimported now) read)
       false (Desktop.current_sort_direction self)
       (Desktop.investigation_name self)
       (Desktop.tree self ++ List.map reimported_row read)
       (Desktop.files self)).

(** What [import_csv] needs of a row: its three values. *)
Definition row_gives (row : gmap string (option string))
    (values : string * string * string) : Prop :=
  let '(timestamp, severity, description) := values in
  dict_get row "Timestamp" "" = Some timestamp
  /\ dict_get row "Severity" "Info" = Some severity
  /\ dict_get row "Description" "" = Some description.

(** Values that [strip] leaves as they are. *)
Definition trimmed (values : string * string * string) : Prop :=
  let '(timestamp, severity, description) := values in
  strip timestamp = timestamp /\ strip severity = severity
  /\ strip description = description.

(** The same conditions as tests. *)
Definition csv_safeb (s : string) : bool :=
  negb (has_char (is_char CR) s) && negb (has_char (is_char "000") s)
  && (Z.of_nat (String.length s) <=? Reader.field_limit).

Definition importableb (values : string * string * string) : bool :=
  let '(timestamp, severity, description) := values in
  csv_safeb timestamp && csv_safeb severity && csv_safeb description
  && negb (blank timestamp) && negb (blank description).

Definition no_double_quote (e : Web.LogEntry) : bool :=
  negb (has_char (is_char dquote) (Web.timestamp e))
  && negb (has_char (is_char dquote) (Web.severity e)).

(** A timeline whose texts need the quoting of a CSV file: a description
    with a comma and double quotes, and one of two lines. *)
Definition quoted_entries : Desktop.State :=
  let s0 := Desktop.start ∅ in
  let s1 := fst (Desktop.add_log_entry a_now "2024-01-15 10:00:00"
                   ("said " +:+ String dquote ("hi" +:+ String dquote
                                                  ", then left"))
                   "🔵 Low" s0) in
  fst (Desktop.add_log_entry a_now "2024-01-14 09:00:00"
         ("two" +:+ String LF "lines") "🔴 Critical" s1).

(* ================================================================== *)
(** * Part V.  Properties                                             *)
(* ================================================================== *)

(** ** The stable sort *)

Section SortingFacts.
Context {A : Type} (less : A -> A -> option bool).
Implicit Types (l r : list A) (x y : A).

Lemma insert_sorted_perm x l r :
  insert_sorted less x l = Some r -> Permutation (x :: l) r.
Proof.
  revert r; induction l as [|y l IH]; intros r H; simpl in H.
  - by inversion H.
  - destruct (less y x) as [[|]|]; try done.
    + destruct (insert_sorted less x l) as [r'|] eqn:E; simpl in H; [|done].
      inversion H; subst. rewrite perm_swap. constructor. by apply IH.
    + by inversion H.
Qed.

Lemma sorted_perm l r : sorted less l = Some r -> Permutation l r.
Proof.
  revert r; induction l as [|x l IH]; intros r H; simpl in H.
  - by inversion H.
  - destruct (sorted less l) as [r'|]; [|done].
    rewrite <- (insert_sorted_perm _ _ _ H). constructor. by apply IH.
Qed.

(** Stability: the elements selected by [f] keep their order, as soon
    as no selected element is smaller than another selected one. *)
Section Stable.
Context (f : A -> bool).
Hypothesis f_tie : forall x y,
    f x = true -> f y = true -> less y x <> Some true.

Lemma insert_sorted_filter x l r :
    insert_sorted less x l = Some r ->
    List.filter f r = List.filter f (x :: l).
Proof using f_tie.
    revert r; induction l as [|y l IH]; intros r H; simpl in H.
    - by inversion H.
    - destruct (less y x) as [[|]|] eqn:Hyx; try done.
      + destruct (insert_sorted less x l) as [r'|] eqn:E; simpl in H; [|done].
        inversion H; subst. specialize (IH _ eq_refl).
        cbn [List.filter] in *. rewrite IH.
        destruct (f x) eqn:Hx, (f y) eqn:Hy; try done.
        by destruct (f_tie x y Hx Hy).
      + by inversion H.
Qed.

Lemma sorted_filter l r :
    sorted less l = Some r -> List.filter f r = List.filter f l.
Proof using f_tie.
    revert r; induction l as [|x l IH]; intros r H; simpl in H.
    - by inversion H.
    - destruct (sorted less l) as [r'|]; [|done].
      rewrite (insert_sorted_filter _ _ _ H). cbn [List.filter].
      by rewrite (IH _ eq_refl).
Qed.
End Stable.

(** The result is in ascending order. *)
Section Ordered.
Hypothesis less_asym : forall x y,
    less x y = Some true -> less y x = Some false.

Lemma insert_sorted_Sorted x l r :
    Sorted (ascending less) l -> insert_sorted less x l = Some r ->
    Sorted (ascending less) r.
Proof using less_asym.
    intros Hl; revert r; induction Hl as [|y l Hl IH Hhd]; intros r H;
      simpl in H.
    - inversion H. repeat constructor.
    - destruct (less y x) as [[|]|] eqn:Hyx; try done.
      + destruct (insert_sorted less x l) as [r'|] eqn:E; simpl in H; [|done].
        inversion H; subst. constructor; [by apply IH|].
        destruct Hhd as [|z l Hz]; simpl in E.
        * inversion E. constructor. by apply less_asym.
        * destruct (less z x) as [[|]|]; try done.
          -- destruct (insert_sorted less x l); inversion E.
             by constructor.
          -- inversion E. constructor. by apply less_asym.
      + inversion H; subst. repeat constructor; done.
Qed.

Lemma sorted_Sorted l r : sorted less l = Some r -> Sorted (ascending less) r.
Proof using less_asym.
    revert r; induction l as [|x l IH]; intros r H; simpl in H.
    - inversion H. constructor.
    - destruct (sorted less l) as [r'|]; [|done].
      eapply insert_sorted_Sorted; [by apply IH | exact H].
Qed.
End Ordered.

(** The sort completes when every two elements can be compared. *)
Lemma insert_sorted_total x l :
  (forall y, y ∈ l -> is_Some (less y x)) -> is_Some (insert_sorted less x l).
Proof.
  induction l as [|y l IH]; intros H; simpl; [by eexists|].
  destruct (H y) as [[|] ->]; [by left| |by eexists].
  destruct IH as [r ->]; [|by eexists].
  intros z Hz. apply H. by right.
Qed.

Lemma sorted_total l :
  (forall x y, x ∈ l -> y ∈ l -> is_Some (less x y)) -> is_Some (sorted less l).
Proof.
  induction l as [|x l IH]; intros H; simpl; [by eexists|].
  destruct IH as [r Hr].
  { intros y z Hy Hz. apply H; by right. }
  rewrite Hr. apply insert_sorted_total.
  intros y Hy. apply H; [right|left].
  by rewrite (sorted_perm _ _ Hr).
Qed.

(** A list in strictly ascending order is what sorting its reverse
    gives. *)
Lemma insert_sorted_last x l :
  Forall (fun y => less y x = Some true) l ->
  insert_sorted less x l = Some (l ++ [x])%list.
Proof.
  induction 1 as [|y l Hy _ IH]; simpl; [done|].
  by rewrite Hy, IH.
Qed.

Lemma sorted_rev_strict l :
  StronglySorted (fun a b => less a b = Some true) l ->
  sorted less (rev l) = Some l.
Proof.
  induction l as [|x l IH] using rev_ind; intros H; [done|].
  rewrite rev_unit. simpl.
  apply StronglySorted_app in H as (Hx & Hl & _).
  rewrite (IH Hl). apply insert_sorted_last.
  apply Forall_forall. intros y Hy. apply Hx; [done|]. by left.
Qed.
End SortingFacts.

(** ** The order of datetimes *)

Section DatetimeOrder.
Implicit Types (a b c : list Z) (x y t : datetime).

Ltac by_cases :=
  repeat match goal with
         | |- context [?u <? ?v] => destruct (Z.ltb_spec u v)
         | |- context [?u =? ?v] => destruct (Z.eqb_spec u v)
         | H : context [?u <? ?v] |- _ => destruct (Z.ltb_spec u v)
         | H : context [?u =? ?v] |- _ => destruct (Z.eqb_spec u v)
         end.

Lemma lex_ltb_irrefl a : lex_ltb a a = false.
Proof. induction a as [|u a IH]; simpl; [done|]. rewrite IH. by_cases; simpl; lia. Qed.

Lemma lex_ltb_asym a b : lex_ltb a b = true -> lex_ltb b a = false.
Proof.
  revert b; induction a as [|u a IH]; intros [|v b]; simpl; try done.
  intros H. by_cases; simpl in *; try lia; try done. by apply IH.
Qed.

Lemma lex_ltb_trans a b c :
  lex_ltb a b = true -> lex_ltb b c = true -> lex_ltb a c = true.
Proof.
  revert b c; induction a as [|u a IH]; intros [|v b] [|w c]; simpl;
    try done.
  intros H1 H2. by_cases; simpl in *; try lia; try done. by apply (IH b).
Qed.

Lemma lex_ltb_total a b :
  length a = length b -> lex_ltb a b = false -> lex_ltb b a = false -> a = b.
Proof.
  revert b; induction a as [|u a IH]; intros [|v b]; simpl; try done.
  intros Hlen H1 H2. by_cases; simpl in *; try lia; try done.
  subst. f_equal. apply IH; [lia|done..].
Qed.

Lemma lt_key x y :
  lt x y = if Bool.eqb (aware x) (aware y)
           then Some (lex_ltb (sort_key x) (sort_key y)) else None.
Proof.
  unfold lt, aware, sort_key.
  destruct (tzinfo x), (tzinfo y); simpl; try done.
  by rewrite andb_false_r, orb_false_r.
Qed.

Lemma eq_key x y :
  eq x y = Bool.eqb (aware x) (aware y)
           && bool_decide (sort_key x = sort_key y).
Proof.
  unfold eq, aware, sort_key.
  destruct (tzinfo x), (tzinfo y); simpl; try done.
  destruct (Z.eqb_spec (local_us x - z) (local_us y - z0)) as [->|Hne].
  - by rewrite bool_decide_eq_true_2.
  - rewrite bool_decide_eq_false_2; [done|]. intros [=]. done.
Qed.

Lemma sort_key_length x y :
  aware x = aware y -> length (sort_key x) = length (sort_key y).
Proof.
  unfold aware, sort_key. by destruct (tzinfo x), (tzinfo y).
Qed.

Lemma lt_asym x y : lt x y = Some true -> lt y x = Some false.
Proof.
  rewrite !lt_key.
  destruct (aware x), (aware y); simpl; try done;
    intros [= H]; by rewrite (lex_ltb_asym _ _ H).
Qed.

Lemma lt_trans x y t :
  lt x y = Some true -> lt y t = Some true -> lt x t = Some true.
Proof.
  rewrite !lt_key.
  destruct (aware x), (aware y), (aware t); simpl; try done;
    intros [= H1] [= H2]; by rewrite (lex_ltb_trans _ _ _ H1 H2).
Qed.

(** Two datetimes equal to a third are not ordered. *)
Lemma lt_tie t x y : eq x t = true -> eq y t = true -> lt y x <> Some true.
Proof.
  rewrite !eq_key, lt_key.
  intros [Hx Kx%bool_decide_eq_true]%andb_true_iff
         [Hy Ky%bool_decide_eq_true]%andb_true_iff.
  rewrite Kx, Ky, lex_ltb_irrefl.
  destruct (Bool.eqb (aware y) (aware x)); congruence.
Qed.

(** Of two different comparable datetimes one is the smaller. *)
Lemma lt_connected x y :
  lt y x = Some false -> eq x y = false -> lt x y = Some true.
Proof.
  rewrite !lt_key, eq_key.
  destruct (aware x) eqn:Hx, (aware y) eqn:Hy; simpl; try done;
    intros [= H1] H2%bool_decide_eq_false; f_equal;
    (destruct (lex_ltb (sort_key x) (sort_key y)) eqn:H3; [done|]);
    destruct H2; (apply lex_ltb_total; [|done..]);
    apply sort_key_length; congruence.
Qed.
End DatetimeOrder.

(** ** The runnable tests *)

Lemma comparableb_sound (times : list datetime) :
  comparableb times = true -> comparable times.
Proof.
  unfold comparableb, comparable. rewrite forallb_forall.
  intros H a b Ha%list_elem_of_In Hb%list_elem_of_In.
  specialize (H a Ha). rewrite forallb_forall in H. specialize (H b Hb).
  destruct (lt a b); [by eexists|done].
Qed.

Lemma distinct_timesb_sound {E : Type} `{EqDecision E} (time : E -> datetime)
    (l : list E) :
  distinct_timesb time l = true -> distinct_times time l.
Proof.
  unfold distinct_timesb, distinct_times.
  intros [Hnd H]%andb_true_iff. split; [by apply bool_decide_eq_true in Hnd|].
  rewrite forallb_forall in H.
  intros a b Ha%list_elem_of_In Hb%list_elem_of_In Heq.
  specialize (H a Ha). rewrite forallb_forall in H. specialize (H b Hb).
  rewrite Heq in H. simpl in H. by apply bool_decide_eq_true in H.
Qed.

(** ** Timestamp normalisation *)

Lemma try_formats_first data pre fmt post d :
  Forall (rejects data) pre -> strptime data fmt = Some d ->
  try_formats data (pre ++ fmt :: post) = Some d.
Proof.
  induction 1 as [|f pre Hf _ IH]; intros Hd; simpl.
  - by rewrite Hd.
  - unfold rejects in Hf. rewrite Hf. by apply IH.
Qed.

Lemma try_formats_inv data fmts d :
  try_formats data fmts = Some d ->
  exists pre fmt post,
    fmts = (pre ++ fmt :: post)%list /\ Forall (rejects data) pre
    /\ strptime data fmt = Some d.
Proof.
  induction fmts as [|f fmts IH]; simpl; [done|].
  destruct (strptime data f) as [d'|] eqn:Hf.
  - intros [= ->]. by exists [], f, fmts.
  - intros (pre & fmt & post & -> & Hpre & Hd)%IH.
    exists (f :: pre), fmt, post. repeat split; [|done]. by constructor.
Qed.

(** A string that [strptime] accepts is matched to its end. *)
Lemma strptime_whole data format d :
  strptime data format = Some d ->
  exists r found,
    pattern format = Some r /\ re_match r data = Some (found, EmptyString).
Proof.
  unfold strptime. destruct (pattern format) as [r|]; [|done].
  destruct (re_match r data) as [[found rest]|] eqn:E; [|done].
  destruct rest; [|done]. intros _. by exists r, found.
Qed.

(** C2.  Normalisation tries the formats in the order of the list and
    commits to the first one that matches the whole trimmed string: when
    every format before [fmt] refuses the trimmed timestamp and [fmt]
    accepts it as [d], the result is [d], in the desktop and in the web
    application, and the pattern of [fmt] has matched the trimmed string
    to its end.  In particular the day-first format wins on
    ["15/01/2024 14:30:25"], which becomes 15 January 2024 14:30:25 (the
    instance below). *)
Theorem parse_commits_to_first_format
    (now : datetime) (timestamp : string) (pre post : list string)
    (fmt : string) (d : datetime) :
  Forall (rejects (strip timestamp)) pre ->
  strptime (strip timestamp) fmt = Some d ->
  (Desktop.formats = (pre ++ fmt :: post)%list ->
   Desktop._parse_timestamp now timestamp = (d, []))
  /\ (Web.formats = (pre ++ fmt :: post)%list ->
      Web._parse_timestamp now timestamp = (d, []))
  /\ exists r found,
       pattern fmt = Some r
       /\ re_match r (strip timestamp) = Some (found, EmptyString).
Proof.
  intros Hpre Hd. split; [|split].
  - intros E. unfold Desktop._parse_timestamp.
    by rewrite E, (try_formats_first _ _ _ _ _ Hpre Hd).
  - intros E. unfold Web._parse_timestamp.
    by rewrite E, (try_formats_first _ _ _ _ _ Hpre Hd).
  - by eapply strptime_whole.
Qed.

(** The instance ["15/01/2024 14:30:25"]: the three formats before the
    day-first one refuse it, and so does the month-first format. *)
Lemma parse_commits_to_first_format_witness :
  Desktop._parse_timestamp a_now "15/01/2024 14:30:25"
  = (mkdatetime 2024 1 15 14 30 25 0 None, [])
  /\ Web._parse_timestamp a_now "15/01/2024 14:30:25"
     = (mkdatetime 2024 1 15 14 30 25 0 None, [])
  /\ rejects "15/01/2024 14:30:25" "%m/%d/%Y %H:%M:%S".
Proof.
  split; [|split].
  - refine (proj1 (parse_commits_to_first_format a_now "15/01/2024 14:30:25"
             ["%Y-%m-%d-%H-%M-%S"; "%Y-%m-%d %H:%M:%S"; "%Y/%m/%d %H:%M:%S"]
             ["%m/%d/%Y %H:%M:%S"; "%Y-%m-%d %H:%M:%S.%f";
              "%Y-%m-%dT%H:%M:%S"; "%Y-%m-%dT%H:%M:%S.%fZ";
              "%d-%m-%Y %H:%M:%S"]
             "%d/%m/%Y %H:%M:%S" _ _ _) _);
      [repeat constructor | vm_compute; reflexivity | reflexivity].
  - refine (proj1 (proj2 (parse_commits_to_first_format a_now
             "15/01/2024 14:30:25"
             ["%Y-%m-%d-%H-%M-%S"; "%Y-%m-%d %H:%M:%S"; "%Y-%m-%dT%H:%M";
              "%Y-%m-%dT%H:%M:%S"; "%Y/%m/%d %H:%M:%S"]
             [] "%d/%m/%Y %H:%M:%S" _ _ _)) _);
      [repeat constructor | vm_compute; reflexivity | reflexivity].
  - vm_compute; reflexivity.
Defined.

(** A timestamp that both the day-first and the month-first format accept
    is read day first, the earlier format of the list. *)
Example day_first_on_ambiguous_text :
  strptime "05/01/2024 14:30:25" "%d/%m/%Y %H:%M:%S"
  = Some (mkdatetime 2024 1 5 14 30 25 0 None)
  /\ strptime "05/01/2024 14:30:25" "%m/%d/%Y %H:%M:%S"
     = Some (mkdatetime 2024 5 1 14 30 25 0 None)
  /\ Desktop._parse_timestamp a_now "05/01/2024 14:30:25"
     = (mkdatetime 2024 1 5 14 30 25 0 None, []).
Proof. repeat split; vm_compute; reflexivity. Qed.

(** C1, as amended.  Normalisation is total: for every input string
    [_parse_timestamp] returns a datetime.  When no format and no
    fallback ISO parse accepts the string it returns the clock reading
    and prints one warning that quotes the raw timestamp; otherwise it
    prints nothing.  The entry built from the string stores that
    datetime as its canonical time and nothing else about the parse: the
    degradation is reported on the console only. *)
Theorem parse_timestamp_falls_back_to_now (now : datetime) (timestamp : string) :
  (desktop_accepts timestamp = false ->
   Desktop._parse_timestamp now timestamp = (now, [warning timestamp]))
  /\ (desktop_accepts timestamp = true ->
      exists d, Desktop._parse_timestamp now timestamp = (d, []))
  /\ (web_accepts timestamp = false ->
      Web._parse_timestamp now timestamp = (now, [warning timestamp]))
  /\ (web_accepts timestamp = true ->
      exists d, Web._parse_timestamp now timestamp = (d, []))
  /\ (forall description severity,
        Desktop.parsed_time (Desktop.__init__ now timestamp description severity)
        = fst (Desktop._parse_timestamp now timestamp))
  /\ (forall fresh description severity entry_id,
        Web.parsed_time
          (Web.__init__ now fresh timestamp description severity entry_id)
        = fst (Web._parse_timestamp now timestamp)).
Proof.
  unfold desktop_accepts, web_accepts, Desktop._parse_timestamp,
    Web._parse_timestamp.
  repeat split; try done.
  - destruct (try_formats _ Desktop.formats); [done|].
    by destruct (fromisoformat _).
  - destruct (try_formats _ Desktop.formats) as [d|]; [by exists d|].
    destruct (fromisoformat _) as [d|]; [by exists d|done].
  - destruct (try_formats _ Web.formats); [done|].
    by destruct (fromisoformat _).
  - destruct (try_formats _ Web.formats) as [d|]; [by exists d|].
    destruct (fromisoformat _) as [d|]; [by exists d|done].
Qed.

(** Instances: a text that nothing accepts, and an ISO timestamp. *)
Lemma parse_timestamp_falls_back_to_now_witness :
  Desktop._parse_timestamp a_now "banana" = (a_now, [warning "banana"])
  /\ Web._parse_timestamp a_now "banana" = (a_now, [warning "banana"])
  /\ exists d, Desktop._parse_timestamp a_now "2024-01-15 10:00:00" = (d, []).
Proof.
  destruct (parse_timestamp_falls_back_to_now a_now "banana")
    as (HD & _ & HW & _).
  destruct (parse_timestamp_falls_back_to_now a_now "2024-01-15 10:00:00")
    as (_ & HA & _).
  split; [|split].
  - apply HD. vm_compute; reflexivity.
  - apply HW. vm_compute; reflexivity.
  - apply HA. vm_compute; reflexivity.
Defined.

(** C1 as stated fails: nothing in the value returned tells a degraded
    parse from a successful one.  ["banana"] is accepted by no parser,
    the other timestamp is, and both return the same datetime when the
    clock shows that instant; hence no [degraded] flag is a function of
    the returned value. *)
Lemma degraded_flag_is_not_returned :
  desktop_accepts "banana" = false
  /\ desktop_accepts "2030-01-01 00:00:00" = true
  /\ fst (Desktop._parse_timestamp a_now "banana")
     = fst (Desktop._parse_timestamp a_now "2030-01-01 00:00:00")
  /\ ~ (exists degraded : datetime -> bool,
          forall now timestamp,
            degraded (fst (Desktop._parse_timestamp now timestamp))
            = negb (desktop_accepts timestamp)).
Proof.
  assert (E : fst (Desktop._parse_timestamp a_now "banana")
              = fst (Desktop._parse_timestamp a_now "2030-01-01 00:00:00"))
    by (vm_compute; reflexivity).
  split; [vm_compute; reflexivity|].
  split; [vm_compute; reflexivity|].
  split; [exact E|].
  intros [degraded H].
  pose proof (H a_now "banana") as H1.
  pose proof (H a_now "2030-01-01 00:00:00") as H2.
  rewrite E in H1. rewrite H1 in H2. vm_compute in H2. discriminate.
Qed.

(** ** Insertion *)

(** C7, as amended.  In the desktop application an insertion is refused
    exactly when the timestamp or the description is blank once trimmed.
    The web application refuses in the same cases and also when the
    trimmed description has fewer than five characters.  A refused
    insertion changes neither the timeline nor the files; every other
    insertion appends the new entry, built from the trimmed texts, at
    the end of the timeline. *)
Theorem insert_refused_or_appended
    (now : datetime) (fresh timestamp description severity_text : string)
    (severity : option string) (self : Desktop.State)
    (session : Web.Session) (files : disk) :
  (if blank timestamp || blank description
   then exists message,
          Desktop.add_log_entry now timestamp description severity_text self
          = (self, Desktop.ShowError message)
   else snd (Desktop.add_log_entry now timestamp description severity_text self)
        = Desktop.NoDialog
        /\ Desktop.log_entries
             (fst (Desktop.add_log_entry now timestamp description
                                         severity_text self))
           = (Desktop.log_entries self
              ++ [Desktop.__init__ now (strip timestamp) (strip description)
                                   (Desktop.severity_map severity_text)])%list)
  /\ (if blank timestamp || blank description
         || (String.length (strip description) <? 5)%nat
      then exists message,
             Web.add_entry now fresh timestamp description severity
                           session files
             = (session, files, Web.Error 400 message)
      else exists files',
             Web.add_entry now fresh timestamp description severity
                           session files
             = (Web.mkSession
                  (Web.investigation_name session)
                  (Web.get_session_logs now fresh session
                   ++ [Web.__init__ now fresh (strip timestamp)
                                    (strip description)
                                    (default "Info" severity) None])%list,
                files', Web.Success)).
Proof.
  unfold blank, Desktop.add_log_entry, Web.add_entry. split.
  - destruct (strip timestamp) as [|c t]; simpl; [by eexists|].
    destruct (strip description) as [|c' t']; simpl; [by eexists|].
    split; [done|]. unfold Desktop.auto_save_logs_to_csv; simpl.
    destruct (Desktop.log_entries self ++ _)%list; [done|].
    by destruct (sorted _ _).
  - destruct (strip timestamp) as [|c t]; simpl; [by eexists|].
    destruct (strip description) as [|c' t']; simpl; [by eexists|].
    destruct (_ <? 5)%nat; [by eexists|]. by eexists.
Qed.

(** C7 as stated fails in the web application: a description of three
    characters is not blank, yet the insertion is refused and the
    timeline stays empty. *)
Lemma web_refuses_short_description :
  blank "2024-01-15 10:00:00" = false /\ blank "abc" = false
  /\ Web.add_entry a_now "id-1" "2024-01-15 10:00:00" "abc" None
                   (Web.mkSession (Some "Case") []) ∅
     = (Web.mkSession (Some "Case") [], ∅,
        Web.Error 400 "Description must be at least 5 characters long").
Proof. repeat split; vm_compute; reflexivity. Qed.

(** ** Sorting entries by canonical time *)

Section ByTime.
Context {E : Type} (time : E -> datetime).
Implicit Types (l r : list E).

Lemma by_time_asym (x y : E) :
  by_time time x y = Some true -> by_time time y x = Some false.
Proof. apply lt_asym. Qed.

Lemma by_time_tie t (x y : E) :
  eq (time x) t = true -> eq (time y) t = true ->
  by_time time y x <> Some true.
Proof. apply lt_tie. Qed.

(** What a completed sort has done: the same entries, in ascending
    order, those of equal time in the order they had. *)
Lemma sorted_by_time_spec l r :
  sorted (by_time time) l = Some r ->
  Permutation l r /\ Sorted (ascending (by_time time)) r
  /\ forall t, at_time time t r = at_time time t l.
Proof.
  intros H. split; [by eapply sorted_perm|]. split.
  - eapply sorted_Sorted; [apply by_time_asym|exact H].
  - intros t. eapply sorted_filter; [|exact H].
    intros x y. apply by_time_tie.
Qed.

Lemma sorted_by_time_total l :
  comparable (List.map time l) -> is_Some (sorted (by_time time) l).
Proof.
  intros H. apply sorted_total. intros x y Hx Hy. apply H.
  - apply list_elem_of_In, in_map. by apply list_elem_of_In.
  - apply list_elem_of_In, in_map. by apply list_elem_of_In.
Qed.

Lemma distinct_times_perm l r :
  Permutation l r -> distinct_times time l -> distinct_times time r.
Proof.
  intros P [Hnd Hinj]. split; [by rewrite <- P|].
  intros a b Ha Hb. rewrite <- P in Ha, Hb. by apply Hinj.
Qed.

(** Without equal times, ascending order is strictly ascending between
    any two positions. *)
Lemma ascending_strict l :
  distinct_times time l -> Sorted (ascending (by_time time)) l ->
  StronglySorted (fun a b => by_time time a b = Some true) l.
Proof.
  intros [Hnd Hinj] Hs.
  apply Sorted.Sorted_StronglySorted.
  { intros x y z. apply lt_trans. }
  induction Hs as [|a l Hs IH Hhd]; [constructor|].
  apply NoDup_cons in Hnd as [Ha Hnd].
  constructor.
  - apply IH; [done|]. intros x y Hx Hy. apply Hinj; by right.
  - destruct Hhd as [|b l Hb]; constructor.
    apply lt_connected; [exact Hb|].
    destruct (eq (time a) (time b)) eqn:Heq; [|done].
    destruct Ha. rewrite (Hinj a b); [by left|by left|by right; left|done].
Qed.

(** Sorting the reverse of a list that a sort has put in ascending order
    gives that list back when no two times are equal. *)
Lemma sorted_rev_of_sorted l r :
  distinct_times time l -> sorted (by_time time) l = Some r ->
  sorted (by_time time) (rev r) = Some r.
Proof.
  intros Hd H. destruct (sorted_by_time_spec _ _ H) as (P & Hs & _).
  apply sorted_rev_strict, ascending_strict; [|done].
  by eapply distinct_times_perm.
Qed.

(** The descending sort, which keeps entries of equal time in the order
    they had. *)
Lemma sorted_reverse_by_time_spec l r :
  sorted_reverse (by_time time) l = Some r ->
  Permutation l r /\ Sorted (flip (ascending (by_time time))) r
  /\ forall t, at_time time t r = at_time time t l.
Proof.
  unfold sorted_reverse. destruct (sorted _ (rev l)) as [r'|] eqn:H; [|done].
  intros [= <-]. destruct (sorted_by_time_spec _ _ H) as (P & Hs & Hf).
  split; [|split].
  - by rewrite <- Permutation_rev, <- P, <- Permutation_rev.
  - rewrite rev_alt. by apply Sorted_reverse.
  - intros t. unfold at_time in *. by rewrite filter_rev, Hf, filter_rev, rev_involutive.
Qed.

Lemma sorted_reverse_by_time_total l :
  comparable (List.map time l) -> is_Some (sorted_reverse (by_time time) l).
Proof.
  intros H. unfold sorted_reverse.
  destruct (sorted_by_time_total (rev l)) as [r ->]; [|by eexists].
  intros a b Ha Hb. rewrite map_rev in Ha, Hb.
  apply H; apply list_elem_of_In, in_rev; by apply list_elem_of_In.
Qed.
End ByTime.

(** ** The sort buttons *)

Lemma auto_save_keeps_entries (self : Desktop.State) :
  Desktop.log_entries (Desktop.auto_save_logs_to_csv self)
  = Desktop.log_entries self.
Proof.
  unfold Desktop.auto_save_logs_to_csv, Desktop.with_files.
  destruct (Desktop.log_entries self) as [|e l] eqn:E; [done|].
  destruct (sorted _ (e :: l)); [done|congruence].
Qed.

Lemma auto_save_keeps_tree (self : Desktop.State) :
  Desktop.tree (Desktop.auto_save_logs_to_csv self) = Desktop.tree self.
Proof.
  unfold Desktop.auto_save_logs_to_csv, Desktop.with_files.
  destruct (Desktop.log_entries self) as [|e l] eqn:E; [done|].
  destruct (sorted _ (e :: l)); done.
Qed.

Lemma auto_save_keeps_flags (self : Desktop.State) :
  Desktop.is_sorted (Desktop.auto_save_logs_to_csv self) = Desktop.is_sorted self
  /\ Desktop.current_sort_direction (Desktop.auto_save_logs_to_csv self)
     = Desktop.current_sort_direction self
  /\ Desktop.investigation_name (Desktop.auto_save_logs_to_csv self)
     = Desktop.investigation_name self.
Proof.
  unfold Desktop.auto_save_logs_to_csv, Desktop.with_files.
  destruct (Desktop.log_entries self) as [|e l] eqn:E; [done|].
  destruct (sorted _ (e :: l)); done.
Qed.

Lemma sort_ascending_inv (self self' : Desktop.State) :
  Desktop.sort_ascending self = Desktop.Sorted_ self' ->
  sorted Desktop.__lt__ (Desktop.log_entries self)
  = Some (Desktop.log_entries self').
Proof.
  unfold Desktop.sort_ascending.
  destruct (Desktop.log_entries self) as [|e l] eqn:E; [done|].
  destruct (sorted _ (e :: l)) as [r|]; [|done].
  intros [= <-]. by rewrite auto_save_keeps_entries.
Qed.

Lemma sort_descending_inv (self self' : Desktop.State) :
  Desktop.sort_descending self = Desktop.Sorted_ self' ->
  sorted_reverse Desktop.__lt__ (Desktop.log_entries self)
  = Some (Desktop.log_entries self').
Proof.
  unfold Desktop.sort_descending.
  destruct (Desktop.log_entries self) as [|e l] eqn:E; [done|].
  destruct (sorted_reverse _ (e :: l)) as [r|]; [|done].
  intros [= <-]. by rewrite auto_save_keeps_entries.
Qed.

(** C3, as amended.  The ascending sort is stable.  In the desktop
    application, on a timeline that is not empty and whose canonical
    times can be compared with each other, [sort_ascending] does sort:
    the entries afterwards are the same, in ascending order of canonical
    time, the flag is set, the rows are those of the entries, and for
    every instant the entries at that instant are in the order they had
    in the timeline before the sort.  The same holds for [sort_entries]
    of the web application, whatever the clock shows while the stored
    entries are built anew.  An insertion puts its entry after all the
    stored ones, so that the order before the sort is the order of
    insertion as long as the timeline has only been inserted into.  The
    instance below is the timeline of three entries, two of them at the
    same instant. *)
Theorem sort_ascending_is_stable
    (self : Desktop.State) (now : datetime) (clock : nat -> datetime)
    (fresh : string) (session : Web.Session) (files : disk) :
  (Desktop.log_entries self <> [] ->
   comparable (List.map Desktop.parsed_time (Desktop.log_entries self)) ->
   exists self',
     Desktop.sort_ascending self = Desktop.Sorted_ self'
     /\ Desktop.is_sorted self' = true
     /\ Desktop.tree self' = Desktop.refresh_treeview (Desktop.log_entries self')
     /\ Permutation (Desktop.log_entries self) (Desktop.log_entries self')
     /\ Sorted (ascending Desktop.__lt__) (Desktop.log_entries self')
     /\ forall t,
          at_time Desktop.parsed_time t (Desktop.log_entries self')
          = at_time Desktop.parsed_time t (Desktop.log_entries self))
  /\ (Web.log_entries session <> [] ->
      comparable (List.map Web.parsed_time
                           (Web.get_session_logs_at clock fresh session)) ->
      exists entries',
        Web.sort_entries clock fresh session files
        = (Web.save_session_logs entries' session, files, Web.Success)
        /\ Permutation (Web.get_session_logs_at clock fresh session) entries'
        /\ Sorted (ascending (by_time Web.parsed_time)) entries'
        /\ forall t,
             at_time Web.parsed_time t entries'
             = at_time Web.parsed_time t
                       (Web.get_session_logs_at clock fresh session))
  /\ (forall timestamp description severity_text self',
        Desktop.add_log_entry now timestamp description severity_text self
        = (self', Desktop.NoDialog) ->
        exists log_entry,
          Desktop.log_entries self'
          = (Desktop.log_entries self ++ [log_entry])%list)
  /\ (forall timestamp description severity session' files',
        Web.add_entry now fresh timestamp description severity session files
        = (session', files', Web.Success) ->
        exists log_entry,
          Web.log_entries session'
          = (Web.get_session_logs now fresh session ++ [log_entry])%list).
Proof.
  split; [|split; [|split]].
  - intros Hne Hc. unfold Desktop.sort_ascending.
    destruct (Desktop.log_entries self) as [|e l] eqn:E; [done|].
    destruct (sorted_by_time_total Desktop.parsed_time (e :: l) Hc) as [r Hr].
    destruct (sorted_by_time_spec Desktop.parsed_time _ _ Hr) as (P & S & F).
    unfold by_time in Hr. unfold Desktop.__lt__. rewrite Hr.
    eexists. split; [reflexivity|].
    rewrite auto_save_keeps_entries.
    unfold Desktop.auto_save_logs_to_csv, Desktop.with_files.
    cbn [Desktop.log_entries Desktop.is_sorted Desktop.tree].
    destruct r as [|x r]; [by apply Permutation_nil_r in P|].
    destruct (sorted _ (x :: r)); done.
  - intros Hne Hc. unfold Web.sort_entries.
    destruct (Web.get_session_logs_at clock fresh session) as [|e l] eqn:E.
    { unfold Web.get_session_logs_at in E.
      destruct (Web.log_entries session); [done|].
      cbn [imap] in E. discriminate E. }
    destruct (sorted_by_time_total Web.parsed_time (e :: l) Hc) as [r Hr].
    destruct (sorted_by_time_spec Web.parsed_time _ _ Hr) as (P & S & F).
    unfold by_time in Hr. rewrite Hr. by exists r.
  - intros timestamp description severity_text self'.
    unfold Desktop.add_log_entry.
    destruct (strip timestamp); [done|]. destruct (strip description); [done|].
    intros [= <-]. rewrite auto_save_keeps_entries. by eexists.
  - intros timestamp description severity session' files'.
    unfold Web.add_entry.
    destruct (strip timestamp); [done|]. destruct (strip description); [done|].
    destruct (_ <? _)%nat; [done|]. intros [= <- _]. by eexists.
Qed.

(** The instance of three entries: the entry of 14 January comes first,
    then the two entries of 15 January in the order of their insertion. *)
Lemma sort_ascending_is_stable_witness :
  (exists self',
     Desktop.sort_ascending three_entries = Desktop.Sorted_ self'
     /\ List.map (fun e => (Desktop.timestamp e, Desktop.severity e))
                 (Desktop.log_entries self')
        = [("2024-01-14 09:00:00", "Critical");
           ("2024-01-15 10:00:00", "Low");
           ("2024-01-15 10:00:00", "Info")]
     /\ at_time Desktop.parsed_time (mkdatetime 2024 1 15 10 0 0 0 None)
                (Desktop.log_entries self')
        = at_time Desktop.parsed_time (mkdatetime 2024 1 15 10 0 0 0 None)
                  (Desktop.log_entries three_entries))
  /\ (exists session',
        Web.sort_entries ticking "id-9" web_three ∅ = (session', ∅, Web.Success)
        /\ List.map Web.id (Web.log_entries session') = ["id-2"; "id-1"; "id-3"]
        /\ at_time Web.parsed_time (mkdatetime 2024 1 15 10 0 0 0 None)
                   (Web.log_entries session')
           = at_time Web.parsed_time (mkdatetime 2024 1 15 10 0 0 0 None)
                     (Web.get_session_logs_at ticking "id-9" web_three)).
Proof.
  destruct (sort_ascending_is_stable three_entries a_now ticking "id-9"
              web_three ∅)
    as (Hd & Hw & _). split.
  - destruct Hd as (self' & E & _ & _ & _ & _ & Hst).
    { vm_compute. discriminate. }
    { apply comparableb_sound. vm_compute; reflexivity. }
    exists self'. split; [exact E|]. split; [|apply Hst].
    apply sort_ascending_inv in E.
    remember (Desktop.log_entries self') as r eqn:Er. clear Er Hst.
    vm_compute in E. injection E as <-. reflexivity.
  - destruct Hw as (entries' & E & P & _ & Hst).
    { vm_compute. discriminate. }
    { apply comparableb_sound. vm_compute; reflexivity. }
    exists (Web.save_session_logs entries' web_three).
    split; [exact E|]. split; [|exact (Hst _)].
    assert (Web.sort_entries ticking "id-9" web_three ∅
            = (Web.save_session_logs
                 (default [] (sorted (by_time Web.parsed_time)
                                (Web.get_session_logs_at ticking "id-9"
                                                         web_three)))
                 web_three, ∅, Web.Success)) as E' by (vm_compute; reflexivity).
    rewrite E' in E.
    apply (f_equal (fun x => Web.log_entries (fst (fst x)))) in E.
    cbn [fst Web.log_entries Web.save_session_logs] in E. rewrite <- E.
    vm_compute; reflexivity.
Defined.

(** C3 as stated fails when a timestamp is changed after a sort: the
    ties keep the order of the timeline before the sort, which then is
    not the order of insertion.  In the web application the entry id-A
    of 15 January is inserted first and the entry id-B of 14 January
    second; the sort puts id-B first; [update_entry] gives id-B the
    timestamp of id-A; after the next sort the two entries have the same
    canonical time and id-B, inserted second, still comes first. *)
Lemma ties_are_not_always_in_insertion_order :
  let r1 := Web.add_entry a_now "id-A" "2024-01-15 10:00:00" "first event"
              (Some "Low") (Web.mkSession (Some "Case") []) ∅ in
  let r2 := Web.add_entry a_now "id-B" "2024-01-14 09:00:00" "second event"
              (Some "Low") (fst (fst r1)) (snd (fst r1)) in
  let r3 := Web.sort_entries ticking "id-9" (fst (fst r2)) (snd (fst r2)) in
  let r4 := Web.update_entry ticking "id-9" "id-B" "2024-01-15 10:00:00"
              "second event" (Some "Low") (fst (fst r3)) (snd (fst r3)) in
  let r5 := Web.sort_entries ticking "id-9" (fst (fst r4)) (snd (fst r4)) in
  List.map snd [r1; r2; r3; r4; r5]
  = [Web.Success; Web.Success; Web.Success; Web.Success; Web.Success]
  /\ List.map Web.id (Web.log_entries (fst (fst r2))) = ["id-A"; "id-B"]
  /\ List.map Web.id (Web.log_entries (fst (fst r3))) = ["id-B"; "id-A"]
  /\ List.map Web.parsed_time (Web.log_entries (fst (fst r5)))
     = [mkdatetime 2024 1 15 10 0 0 0 None; mkdatetime 2024 1 15 10 0 0 0 None]
  /\ List.map Web.id (Web.log_entries (fst (fst r5))) = ["id-B"; "id-A"].
Proof. repeat split; vm_compute; reflexivity. Qed.

Lemma comparable_perm {E : Type} (time : E -> datetime) (l r : list E) :
  Permutation l r -> comparable (List.map time l) ->
  comparable (List.map time r).
Proof.
  intros P H a b Ha Hb.
  apply H; by rewrite (Permutation_map time P).
Qed.

Lemma sort_ascending_after (self : Desktop.State) :
  comparable (List.map Desktop.parsed_time (Desktop.log_entries self)) ->
  exists self',
    after (Desktop.sort_ascending self) = Some self'
    /\ sorted Desktop.__lt__ (Desktop.log_entries self)
       = Some (Desktop.log_entries self').
Proof.
  intros Hc. unfold Desktop.sort_ascending.
  destruct (Desktop.log_entries self) as [|e l] eqn:E.
  { exists self. by rewrite E. }
  destruct (sorted_by_time_total Desktop.parsed_time (e :: l) Hc) as [r Hr].
  unfold by_time in Hr. unfold Desktop.__lt__. rewrite Hr.
  eexists. split; [done|]. by rewrite auto_save_keeps_entries.
Qed.

Lemma sort_descending_after (self : Desktop.State) :
  comparable (List.map Desktop.parsed_time (Desktop.log_entries self)) ->
  exists self',
    after (Desktop.sort_descending self) = Some self'
    /\ sorted_reverse Desktop.__lt__ (Desktop.log_entries self)
       = Some (Desktop.log_entries self').
Proof.
  intros Hc. unfold Desktop.sort_descending.
  destruct (Desktop.log_entries self) as [|e l] eqn:E.
  { exists self. by rewrite E. }
  destruct (sorted_reverse_by_time_total Desktop.parsed_time (e :: l) Hc)
    as [r Hr].
  unfold by_time in Hr. unfold Desktop.__lt__. rewrite Hr.
  eexists. split; [done|]. by rewrite auto_save_keeps_entries.
Qed.

(** C4, as amended.  For every timeline whose canonical times can be
    compared with each other, sorting ascending, then descending, then
    ascending again completes and keeps the same entries.  The
    descending sequence is in descending order of canonical time, and
    entries with the same canonical time stand in it in the same
    relative order as in the ascending sequence: a group of ties is not
    reversed.  When no two canonical times are equal, the descending
    sequence is the exact reverse of the ascending one and the second
    ascending sort gives the first ascending sequence again. *)
Theorem sort_ascending_descending_ascending (self : Desktop.State) :
  comparable (List.map Desktop.parsed_time (Desktop.log_entries self)) ->
  exists s1 s2 s3,
    after (Desktop.sort_ascending self) = Some s1
    /\ after (Desktop.sort_descending s1) = Some s2
    /\ after (Desktop.sort_ascending s2) = Some s3
    /\ Permutation (Desktop.log_entries self) (Desktop.log_entries s1)
    /\ Permutation (Desktop.log_entries self) (Desktop.log_entries s2)
    /\ Permutation (Desktop.log_entries self) (Desktop.log_entries s3)
    /\ Sorted (flip (ascending Desktop.__lt__)) (Desktop.log_entries s2)
    /\ (forall t,
          at_time Desktop.parsed_time t (Desktop.log_entries s2)
          = at_time Desktop.parsed_time t (Desktop.log_entries s1))
    /\ (distinct_times Desktop.parsed_time (Desktop.log_entries self) ->
        Desktop.log_entries s2 = rev (Desktop.log_entries s1)
        /\ Desktop.log_entries s3 = Desktop.log_entries s1).
Proof.
  intros Hc.
  destruct (sort_ascending_after self Hc) as (s1 & E1 & H1).
  destruct (sorted_by_time_spec Desktop.parsed_time _ _ H1) as (P1 & _ & _).
  pose proof (comparable_perm _ _ _ P1 Hc) as Hc1.
  destruct (sort_descending_after s1 Hc1) as (s2 & E2 & H2).
  destruct (sorted_reverse_by_time_spec Desktop.parsed_time _ _ H2)
    as (P2 & S2 & F2).
  pose proof (comparable_perm _ _ _ P2 Hc1) as Hc2.
  destruct (sort_ascending_after s2 Hc2) as (s3 & E3 & H3).
  destruct (sorted_by_time_spec Desktop.parsed_time _ _ H3) as (P3 & _ & _).
  exists s1, s2, s3. repeat (split; [done|]).
  split; [by rewrite P1|]. split; [by rewrite P1, P2|].
  split; [done|]. split; [done|].
  intros Hd.
  pose proof (sorted_rev_of_sorted Desktop.parsed_time _ _ Hd H1) as R.
  assert (K : Desktop.log_entries s2 = rev (Desktop.log_entries s1)).
  { unfold sorted_reverse in H2. unfold by_time in R.
    unfold Desktop.__lt__ in H2. rewrite R in H2. by injection H2. }
  split; [done|].
  rewrite K in H3. unfold by_time in R. unfold Desktop.__lt__ in H3.
  rewrite R in H3. by injection H3.
Qed.

(** The instance of three entries, two of them at the same instant, and
    an instance without equal instants. *)
Lemma sort_ascending_descending_ascending_witness :
  (exists s1 s2 s3,
     after (Desktop.sort_ascending three_entries) = Some s1
     /\ after (Desktop.sort_descending s1) = Some s2
     /\ after (Desktop.sort_ascending s2) = Some s3
     /\ Permutation (Desktop.log_entries three_entries)
                    (Desktop.log_entries s3)
     /\ at_time Desktop.parsed_time (mkdatetime 2024 1 15 10 0 0 0 None)
                (Desktop.log_entries s2)
        = at_time Desktop.parsed_time (mkdatetime 2024 1 15 10 0 0 0 None)
                  (Desktop.log_entries s1))
  /\ (exists s1 s2 s3,
        after (Desktop.sort_ascending two_distinct) = Some s1
        /\ after (Desktop.sort_descending s1) = Some s2
        /\ after (Desktop.sort_ascending s2) = Some s3
        /\ Desktop.log_entries s2 = rev (Desktop.log_entries s1)
        /\ Desktop.log_entries s3 = Desktop.log_entries s1).
Proof.
  split.
  - destruct (sort_ascending_descending_ascending three_entries)
      as (s1 & s2 & s3 & E1 & E2 & E3 & _ & _ & P3 & _ & F & _).
    { apply comparableb_sound. vm_compute; reflexivity. }
    exists s1, s2, s3. repeat split; try done.
  - destruct (sort_ascending_descending_ascending two_distinct)
      as (s1 & s2 & s3 & E1 & E2 & E3 & _ & _ & _ & _ & _ & D).
    { apply comparableb_sound. vm_compute; reflexivity. }
    destruct D as [D2 D3].
    { apply distinct_timesb_sound. vm_compute; reflexivity. }
    exists s1, s2, s3. repeat split; try done.
Defined.

(** C4 as stated fails when two entries share a canonical time: after
    the ascending sort, the descending sort leaves the two entries in
    the same order instead of reversing them. *)
Lemma descending_is_not_the_reverse_on_ties :
  exists s1 s2,
    Desktop.sort_ascending two_ties = Desktop.Sorted_ s1
    /\ Desktop.sort_descending s1 = Desktop.Sorted_ s2
    /\ List.map Desktop.description (Desktop.log_entries s1)
       = ["first event"; "second event"]
    /\ List.map Desktop.description (Desktop.log_entries s2)
       = ["first event"; "second event"]
    /\ Desktop.log_entries s2 <> rev (Desktop.log_entries s1).
Proof.
  eexists. eexists.
  split; [vm_compute; reflexivity|].
  split; [vm_compute; reflexivity|].
  split; [vm_compute; reflexivity|].
  split; [vm_compute; reflexivity|].
  intros H. vm_compute in H. discriminate H.
Qed.

(** ** The snapshot of the timeline *)

Lemma has_char_weaken (p q : ascii -> bool) (s : string) :
  (forall c, p c = true -> q c = true) ->
  has_char p s = true -> has_char q s = true.
Proof.
  intros Hpq. induction s as [|c s IH]; simpl; [done|].
  intros [H|H]%orb_true_iff; apply orb_true_iff; [left|right]; auto.
Qed.

(** The snapshot when the canonical times can be compared.  For every
    non-empty entry list whose canonical times can be compared with each
    other, saving the snapshot writes
    the file [investigation_logs.csv] of the investigation folder, whatever
    it held before, with the header row and then one row per entry, the
    entries in ascending order of canonical time and those of equal time
    in their order in the list; no other file changes.  The web
    application puts every field between quotes, the desktop application
    only the fields that need it; in both a description that holds a
    comma or a quote is written between quotes with its quotes
    doubled. *)
Theorem snapshot_is_the_sorted_timeline
    (investigation_name : string) (entries : list Web.LogEntry)
    (self : Desktop.State) (files : disk) :
  (entries <> [] -> comparable (List.map Web.parsed_time entries) ->
   exists sorted_entries,
     Permutation entries sorted_entries
     /\ Sorted (ascending (by_time Web.parsed_time)) sorted_entries
     /\ (forall t, at_time Web.parsed_time t sorted_entries
                   = at_time Web.parsed_time t entries)
     /\ Web.save_logs_to_file investigation_name entries files
        = Some (<[(safe_name investigation_name, csv_name)
                  := Web.csv_text sorted_entries]> files,
                Some (safe_name investigation_name, csv_name)))
  /\ (Desktop.log_entries self <> [] ->
      comparable (List.map Desktop.parsed_time (Desktop.log_entries self)) ->
      exists sorted_entries,
        Permutation (Desktop.log_entries self) sorted_entries
        /\ Sorted (ascending (by_time Desktop.parsed_time)) sorted_entries
        /\ (forall t, at_time Desktop.parsed_time t sorted_entries
                      = at_time Desktop.parsed_time t (Desktop.log_entries self))
        /\ Desktop.auto_save_logs_to_csv self
           = Desktop.with_files self
               (<[(safe_name (Desktop.investigation_name self), csv_name)
                  := Desktop.csv_text sorted_entries]> (Desktop.files self)))
  /\ (forall l,
        Web.csv_text l
        = "Timestamp,Severity,Description" +:+ newline
          +:+ String.concat ""
                (List.map
                   (fun e => quoted (Web.timestamp e) +:+ ","
                             +:+ quoted (Web.severity e) +:+ ","
                             +:+ quoted (double_quotes (Web.description e))
                             +:+ newline)
                   l))
  /\ (forall l,
        Desktop.csv_text l
        = ("Timestamp,Severity,Description" +:+ crlf)
          +:+ String.concat ""
                (List.map
                   (fun e => (csv_field (Desktop.timestamp e) +:+ ","
                              +:+ csv_field (Desktop.severity e) +:+ ","
                              +:+ csv_field (Desktop.description e))
                             +:+ crlf)
                   l))
  /\ (forall d, has_char comma_or_quote d = true ->
                csv_field d = quoted (double_quotes d)).
Proof.
  split; [|split; [|split; [|split]]].
  - intros Hne Hc.
    destruct (sorted_by_time_total Web.parsed_time entries Hc) as [r Hr].
    destruct (sorted_by_time_spec Web.parsed_time _ _ Hr) as (P & S & F).
    exists r. repeat (split; [done|]).
    unfold Web.save_logs_to_file. unfold by_time in Hr.
    destruct entries; [done|]. by rewrite Hr.
  - intros Hne Hc.
    destruct (sorted_by_time_total Desktop.parsed_time _ Hc) as [r Hr].
    destruct (sorted_by_time_spec Desktop.parsed_time _ _ Hr) as (P & S & F).
    exists r. repeat (split; [done|]).
    unfold Desktop.auto_save_logs_to_csv. unfold by_time in Hr.
    destruct (Desktop.log_entries self); [done|]. by rewrite Hr.
  - reflexivity.
  - reflexivity.
  - intros d Hd. unfold csv_field.
    rewrite (has_char_weaken comma_or_quote csv_special); [done| |done].
    intros c. unfold comma_or_quote, csv_special.
    intros [->| ->]%orb_true_iff; simpl; by rewrite ?orb_true_r.
Qed.

(** An instance in the web application: the entry of the earlier instant
    is written first, and the reserved character of the investigation
    name is replaced in the folder name. *)
Lemma snapshot_is_the_sorted_timeline_witness :
  (exists sorted_entries,
     Permutation [web_later; web_earlier] sorted_entries
     /\ Web.save_logs_to_file "Case:1" [web_later; web_earlier] ∅
        = Some (<[("Case_1", csv_name) := Web.csv_text sorted_entries]> ∅,
                Some ("Case_1", csv_name))
     /\ sorted (by_time Web.parsed_time) [web_later; web_earlier]
        = Some [web_earlier; web_later])
  /\ (exists sorted_entries,
        Permutation (Desktop.log_entries three_entries) sorted_entries
        /\ Desktop.auto_save_logs_to_csv three_entries
           = Desktop.with_files three_entries
               (<[("Default Investigation", csv_name)
                  := Desktop.csv_text sorted_entries]>
                  (Desktop.files three_entries)))
  /\ option_map (List.map Desktop.description)
                (sorted (by_time Desktop.parsed_time)
                        (Desktop.log_entries three_entries))
     = Some ["second event"; "first event"; "third event"]
  /\ csv_field "login, then logout" = quoted "login, then logout".
Proof.
  destruct (snapshot_is_the_sorted_timeline "Case:1" [web_later; web_earlier]
              three_entries ∅) as (HW & HD & _ & _ & HQ).
  split; [|split; [|split]].
  - destruct HW as (r & P & _ & _ & E).
    + discriminate.
    + apply comparableb_sound. vm_compute; reflexivity.
    + exists r. split; [exact P|]. split; [exact E|].
      vm_compute; reflexivity.
  - destruct HD as (r & P & _ & _ & E).
    + vm_compute. discriminate.
    + apply comparableb_sound. vm_compute; reflexivity.
    + exists r. split; [exact P|exact E].
  - vm_compute; reflexivity.
  - apply HQ. vm_compute; reflexivity.
Defined.

(** C5.  A defect of the web application: its normaliser keeps the
    offset of a timestamp such as 2024-01-15T10:00:00+05:00, which the
    normaliser of the desktop application strips, and reads it as an
    aware datetime.  Next to an entry with a plain timestamp the sort of
    the snapshot then raises, and the snapshot is not written: after the
    two insertions the timeline has two entries and the file still lists
    the first only.  The desktop application, given the same two
    timestamps, reads both as naive datetimes and writes the snapshot of
    the two entries. *)
Theorem snapshot_not_written_for_mixed_times :
  let first := Web.add_entry a_now "id-1" "2024-01-15 10:00:00"
                 "login, then logout" (Some "Low")
                 (Web.mkSession (Some "Case") []) ∅ in
  let second := Web.add_entry a_now "id-3" "2024-01-15T10:00:00+05:00"
                  "remote login" None (fst (fst first)) (snd (fst first)) in
  let desktop_first :=
    fst (Desktop.add_log_entry a_now "2024-01-15 10:00:00"
           "login, then logout" "🔵 Low" (Desktop.start ∅)) in
  let desktop_second :=
    fst (Desktop.add_log_entry a_now "2024-01-15T10:00:00+05:00"
           "remote login" "ℹ️ Info" desktop_first) in
  Web.log_entries (fst (fst second)) = [web_later; web_offset]
  /\ snd second = Web.Success
  /\ Web.save_logs_to_file "Case" [web_later; web_offset] (snd (fst first))
     = None
  /\ snd (fst second) !! ("Case", csv_name) = Some (Web.csv_text [web_later])
  /\ lt (Web.parsed_time web_later) (Web.parsed_time web_offset) = None
  /\ List.map Desktop.parsed_time (Desktop.log_entries desktop_second)
     = [mkdatetime 2024 1 15 10 0 0 0 None; mkdatetime 2024 1 15 10 0 0 0 None]
  /\ Desktop.files desktop_second !! ("Default Investigation", csv_name)
     = Some (Desktop.csv_text (Desktop.log_entries desktop_second)).
Proof. repeat split; vm_compute; reflexivity. Qed.

(** C6.  The property holds in the desktop application (see
    [desktop_snapshot_iff_entries] below) and after [clear_entries] of the
    web application, but [delete_entry] of the web application breaks it:
    deleting the only entry empties the timeline and leaves the snapshot
    on the disk, still listing the deleted entry. *)
Theorem web_delete_leaves_stale_snapshot :
  let first := Web.add_entry a_now "id-1" "2024-01-15 10:00:00"
                 "login, then logout" (Some "Low")
                 (Web.mkSession (Some "Case") []) ∅ in
  let deleted := Web.delete_entry a_now "id-9" "id-1"
                   (fst (fst first)) (snd (fst first)) in
  snd first = Web.Success
  /\ snd deleted = Web.Success
  /\ Web.log_entries (fst (fst deleted)) = []
  /\ snd (fst deleted) !! ("Case", csv_name) = Some (Web.csv_text [web_later])
  /\ snd (fst (Web.clear_entries (fst (fst first)) (snd (fst first))))
       !! ("Case", csv_name) = None.
Proof. repeat split; vm_compute; reflexivity. Qed.

(** The desktop application keeps the snapshot in step with the
    timeline: [auto_save_logs_to_csv], which every mutation ends with,
    leaves a snapshot exactly when there are entries, provided that this
    held before the entry list was changed by at most one insertion. *)
Lemma sorted_singleton {A : Type} (less : A -> A -> option bool) (x : A) :
  sorted less [x] = Some [x].
Proof. reflexivity. Qed.

Lemma auto_save_snapshot_iff (self : Desktop.State) :
  (forall e l, Desktop.log_entries self = e :: l -> l <> [] ->
               snapshot_exists self) ->
  snapshot_exists (Desktop.auto_save_logs_to_csv self)
  <-> Desktop.log_entries self <> [].
Proof.
  intros Hprev. unfold snapshot_exists.
  unfold Desktop.auto_save_logs_to_csv, Desktop.get_investigation_csv_path,
    Desktop.with_files.
  destruct (Desktop.log_entries self) as [|e l] eqn:E.
  - simpl. rewrite lookup_delete_eq. split; [by intros [? ?]|done].
  - destruct l as [|e' l].
    + simpl. rewrite lookup_insert_eq. by split; [|eexists].
    + destruct (sorted _ (e :: e' :: l)) eqn:Hs; simpl.
      * rewrite lookup_insert_eq. by split; [|eexists].
      * split; [done|]. intros _. by apply (Hprev e (e' :: l)).
Qed.

Lemma desktop_snapshot_iff_entries
    (now : datetime) (timestamp description severity : string)
    (selection : list nat) (confirm : bool) (self : Desktop.State) :
  (snapshot_exists self <-> Desktop.log_entries self <> []) ->
  let added :=
    fst (Desktop.add_log_entry now timestamp description severity self) in
  let deleted := fst (Desktop.delete_selected_entry selection confirm self) in
  let cleared := Desktop.clear_logs confirm self in
  (snapshot_exists added <-> Desktop.log_entries added <> [])
  /\ (snapshot_exists deleted <-> Desktop.log_entries deleted <> [])
  /\ (snapshot_exists cleared <-> Desktop.log_entries cleared <> []).
Proof.
  intros Inv. split; [|split].
  - unfold Desktop.add_log_entry.
    destruct (strip timestamp); [done|].
    destruct (strip description); [done|]. cbn [fst].
    rewrite auto_save_keeps_entries. apply auto_save_snapshot_iff.
    cbn [Desktop.log_entries]. intros e l E Hl.
    unfold snapshot_exists, Desktop.get_investigation_csv_path.
    cbn [Desktop.files Desktop.investigation_name]. apply Inv.
    destruct (Desktop.log_entries self); [|done].
    simpl in E. injection E as _ <-. done.
  - unfold Desktop.delete_selected_entry.
    destruct selection as [|sel ?]; [done|].
    destruct confirm; [|done].
    destruct (Desktop.tree self !! sel) as [[[v0 v1] v2]|]; [|done].
    cbn [fst]. rewrite auto_save_keeps_entries. apply auto_save_snapshot_iff.
    cbn [Desktop.log_entries]. intros e l E Hl.
    unfold snapshot_exists, Desktop.get_investigation_csv_path.
    cbn [Desktop.files Desktop.investigation_name]. apply Inv.
    destruct (Desktop.log_entries self); [|done]. done.
  - unfold Desktop.clear_logs.
    destruct (Desktop.log_entries self) eqn:E; [by rewrite <- E in *|].
    destruct confirm; [|by rewrite <- E in *].
    rewrite auto_save_keeps_entries. apply auto_save_snapshot_iff.
    cbn [Desktop.log_entries]. done.
Qed.

(** ** Analysis reports *)

Lemma append_cons (c : ascii) (s t : string) :
  String c s +:+ t = String c (s +:+ t).
Proof. reflexivity. Qed.

Lemma append_assoc (a b c : string) : (a +:+ b) +:+ c = a +:+ (b +:+ c).
Proof.
  induction a as [|x a IH]; [done|]. by rewrite !append_cons, IH.
Qed.

Lemma append_length (a b : string) :
  String.length (a +:+ b) = (String.length a + String.length b)%nat.
Proof.
  induction a as [|x a IH]; [done|]. rewrite append_cons. simpl. by rewrite IH.
Qed.

Lemma append_inj_length (s1 s2 t1 t2 : string) :
  String.length s1 = String.length s2 ->
  s1 +:+ t1 = s2 +:+ t2 -> s1 = s2 /\ t1 = t2.
Proof.
  revert s2; induction s1 as [|c s1 IH]; intros [|c' s2]; simpl; try done.
  intros [= Hl]. rewrite !append_cons. intros [= -> H].
  destruct (IH _ Hl H) as [-> ->]. done.
Qed.

Lemma string_tail_eq (c : ascii) (s t : string) :
  String c s = String c t -> s = t.
Proof.
  intros H.
  exact (f_equal (fun x => match x with String _ r => r | EmptyString => x end)
                 H).
Qed.

Lemma zpad_length (w : nat) (n : Z) : String.length (zpad w n) = w.
Proof.
  revert n; induction w as [|w IH]; intros n; simpl; [done|].
  rewrite append_length, IH. simpl. lia.
Qed.

Lemma digit_char_inj (a b : Z) :
  digit_char a = digit_char b -> a mod 10 = b mod 10.
Proof.
  unfold digit_char. intros H.
  apply (f_equal N_of_ascii) in H.
  pose proof (Z.mod_pos_bound a 10 ltac:(lia)).
  pose proof (Z.mod_pos_bound b 10 ltac:(lia)).
  rewrite !N_ascii_embedding in H by lia. lia.
Qed.

Lemma zpad_inj (w : nat) (a b : Z) :
  0 <= a < 10 ^ Z.of_nat w -> 0 <= b < 10 ^ Z.of_nat w ->
  zpad w a = zpad w b -> a = b.
Proof.
  revert a b; induction w as [|w IH]; intros a b Ha Hb.
  { simpl in *. lia. }
  rewrite Nat2Z.inj_succ, Z.pow_succ_r in Ha, Hb by lia.
  simpl. intros H.
  apply append_inj_length in H as [H1 [= H2]]; [|by rewrite !zpad_length].
  apply digit_char_inj in H2.
  apply IH in H1.
  - rewrite (Z.div_mod a 10), (Z.div_mod b 10) by lia. lia.
  - split; [apply Z.div_pos; lia|]. apply Z.div_lt_upper_bound; lia.
  - split; [apply Z.div_pos; lia|]. apply Z.div_lt_upper_bound; lia.
Qed.

Lemma report_name_eq (d : datetime) :
  report_name d
  = "ai_analysis_"
    +:+ (zpad 4 (year d) +:+ zpad 2 (month d) +:+ zpad 2 (day d)
         +:+ String "_" (zpad 2 (hour d) +:+ zpad 2 (minute d)
                         +:+ zpad 2 (second d) +:+ EmptyString))
    +:+ ".txt".
Proof. reflexivity. Qed.

Lemma report_name_inj (a b : datetime) :
  clock_reading a -> clock_reading b ->
  report_name a = report_name b -> same_second a b.
Proof.
  intros (Ya & Ma & Da & Ha & Mia & Sa) (Yb & Mb & Db & Hb & Mib & Sb).
  rewrite !report_name_eq. intros H.
  apply (inj (String.append _)) in H.
  rewrite !append_assoc in H.
  apply append_inj_length in H as [Hy H]; [|by rewrite !zpad_length].
  apply append_inj_length in H as [Hm H]; [|by rewrite !zpad_length].
  apply append_inj_length in H as [Hd H]; [|by rewrite !zpad_length].
  rewrite !append_cons in H. apply string_tail_eq in H.
  rewrite !append_assoc in H.
  apply append_inj_length in H as [Hh H]; [|by rewrite !zpad_length].
  apply append_inj_length in H as [Hmi H]; [|by rewrite !zpad_length].
  apply append_inj_length in H as [Hs _]; [|by rewrite !zpad_length].
  repeat split; (eapply zpad_inj; [| |eassumption]); simpl; lia.
Qed.

(** C9, as amended.  For a non-empty text, [save_ai_analysis_to_file]
    writes the text verbatim between a fixed header, which names the
    investigation and the generation time, and a fixed footer, to the
    file [ai_analysis_<YYYYMMDD_HHMMSS>.txt] of the investigation folder,
    named after the clock reading, and returns that path; no other file
    changes.  Two clock readings give the same file name only when they
    lie within the same second, so a report written in another second
    is never overwritten, while a second report of the same second
    replaces the first.  For an empty text nothing is written and no
    path is returned. *)
Theorem report_goes_to_a_timestamped_file
    (now : datetime) (investigation_name analysis_text : string)
    (files : disk) :
  (analysis_text = EmptyString ->
   save_ai_analysis_to_file now investigation_name analysis_text files
   = (files, None))
  /\ (analysis_text <> EmptyString ->
      let filepath :=
        (safe_name investigation_name,
         "ai_analysis_" +:+ strftime now "%Y%m%d_%H%M%S" +:+ ".txt") in
      let content :=
        report_header investigation_name now +:+ analysis_text
        +:+ report_footer in
      save_ai_analysis_to_file now investigation_name analysis_text files
      = (<[filepath := content]> files, Some filepath)
      /\ forall other,
           other <> filepath ->
           fst (save_ai_analysis_to_file now investigation_name
                                         analysis_text files) !! other
           = files !! other)
  /\ (forall earlier,
        clock_reading now -> clock_reading earlier ->
        report_name now = report_name earlier -> same_second now earlier).
Proof.
  split; [|split].
  - by intros ->.
  - intros Hne. cbn zeta.
    assert (E : report_content investigation_name now analysis_text
                = report_header investigation_name now +:+ analysis_text
                  +:+ report_footer).
    { unfold report_content, report_header, report_footer. cbn [join].
      by rewrite !append_assoc. }
    unfold save_ai_analysis_to_file.
    destruct analysis_text; [done|]. rewrite E. split; [done|].
    intros other Ho. cbn [fst]. by rewrite lookup_insert_ne.
  - intros earlier. apply report_name_inj.
Qed.

(** An instance: a report written at midnight of 1 January 2030. *)
Lemma report_goes_to_a_timestamped_file_witness :
  snd (save_ai_analysis_to_file a_now "Case:1" "Two failed logins." ∅)
  = Some ("Case_1", "ai_analysis_20300101_000000.txt")
  /\ fst (save_ai_analysis_to_file a_now "Case:1" "Two failed logins." ∅)
       !! ("Case_1", "ai_analysis_20300101_000000.txt")
     = Some (report_header "Case:1" a_now +:+ "Two failed logins."
             +:+ report_footer)
  /\ same_second a_now a_now
  /\ save_ai_analysis_to_file a_now "Case:1" "" ∅ = (∅, None).
Proof.
  destruct (report_goes_to_a_timestamped_file a_now "Case:1"
              "Two failed logins." ∅) as (_ & H & I).
  destruct (report_goes_to_a_timestamped_file a_now "Case:1" "" ∅)
    as (N & _).
  destruct H as [E _]; [discriminate|].
  split; [by rewrite E|]. split; [|split].
  - rewrite E. cbn [fst]. by rewrite lookup_insert_eq.
  - apply I; [| |reflexivity]; unfold clock_reading; simpl; lia.
  - apply N. reflexivity.
Defined.

(** C9 as stated fails for two calls within one second: both go to the
    same file, and the second report replaces the first. *)
Lemma second_report_of_the_same_second_overwrites :
  let path := ("Case", "ai_analysis_20300101_000000.txt") in
  let first := save_ai_analysis_to_file a_now "Case" "first report" ∅ in
  let second :=
    save_ai_analysis_to_file a_now "Case" "second report" (fst first) in
  snd first = Some path /\ snd second = Some path
  /\ fst first !! path = Some (report_content "Case" a_now "first report")
  /\ fst second !! path = Some (report_content "Case" a_now "second report")
  /\ report_content "Case" a_now "first report"
     <> report_content "Case" a_now "second report".
Proof.
  repeat split; try (vm_compute; reflexivity).
  intros H. vm_compute in H. discriminate H.
Qed.

(** ** Deleting the selected row *)

Lemma convert_plain (s : string) :
  reads_as_int s = false -> _convert_stringval s = TkText s.
Proof.
  unfold reads_as_int, _convert_stringval. by destruct (int_text s).
Qed.









(** ** Time-zone annotations *)

Section MatchInversion.
Implicit Types (x : captures * string) (u : string).

Lemma matches_Seq x a b u :
  In x (matches (Seq a b) u) ->
  exists m1 m2,
    In m1 (matches a u) /\ In m2 (matches b (snd m1)) /\ snd x = snd m2.
Proof.
  simpl. intros (m1 & H1 & (m2 & <- & H2)%in_map_iff)%in_flat_map.
  by exists m1, m2.
Qed.

Lemma matches_Alt x a b u :
  In x (matches (Alt a b) u) -> In x (matches a u) \/ In x (matches b u).
Proof. simpl. apply in_app_or. Qed.

Lemma matches_Chr x p u :
  In x (matches (Chr p) u) -> exists c, u = String c (snd x) /\ p c = true.
Proof.
  simpl. destruct u as [|c u]; [done|].
  destruct (p c) eqn:Hc; [|done]. intros [<-|[]]. by exists c.
Qed.

Lemma matches_Eps x u : In x (matches Eps u) -> snd x = u.
Proof. simpl. by intros [<-|[]]. Qed.

Lemma matches_Dollar x u :
  In x (matches Dollar u) ->
  snd x = u
  /\ (u = EmptyString
      \/ exists c, u = String c EmptyString /\ is_char LF c = true).
Proof.
  simpl. destruct u as [|c [|c' u]]; try done.
  - intros [<-|[]]. split; [done|by left].
  - destruct (is_char "010" c) eqn:Hc; [|done].
    intros [<-|[]]. split; [done|]. right. by exists c.
Qed.

Lemma matches_Rep2 x p u :
  In x (matches (Rep p 2 (Some 2%nat)) u) ->
  exists a b, u = String a (String b (snd x)) /\ p a = true /\ p b = true.
Proof.
  simpl. destruct u as [|a [|b u]]; simpl.
  - done.
  - by destruct (p a).
  - destruct (p a) eqn:Ha; [|done]. destruct (p b) eqn:Hb; [|done].
    simpl. intros [<-|[]]. by exists a, b.
Qed.
End MatchInversion.

Lemma tz_pattern_end (x : captures * string) (u : string) :
  In x (matches Desktop.tz_pattern u) -> tz_end u = true.
Proof.
  unfold Desktop.tz_pattern.
  intros [H|H]%matches_Alt.
  - cbn [seqs] in H.
    apply matches_Seq in H as ([? r1] & n1 & (c0 & E0 & H0)%matches_Chr & H & _).
    apply matches_Seq in H
        as ([? r2] & n2 & (d1 & d2 & E1 & H1 & H2)%matches_Rep2 & H & _).
    apply matches_Seq in H as ([? r3] & n3 & Hc & H & _).
    apply matches_Seq in H
        as ([? r4] & n4 & (d3 & d4 & E3 & H3 & H4)%matches_Rep2 & H & _).
    apply matches_Dollar in H as [_ Hend]. cbn [fst snd] in *. subst u r1 r3.
    assert (Hr4 : tz_end (String c0 (String d1 (String d2 (String d3
                    (String d4 r4))))) = true
                  /\ forall c, tz_end (String c0 (String d1 (String d2
                       (String c (String d3 (String d4 r4)))))) = true).
    { destruct Hend as [->|(e & -> & He)]; unfold tz_end; simpl;
        rewrite ?H4, ?He, ?orb_true_r; done. }
    apply matches_Alt in Hc as [(k & Ec & Hk)%matches_Chr | Ec%matches_Eps];
      cbn [fst snd] in Ec; subst r2; apply Hr4.
  - apply matches_Seq in H as ([? r1] & n1 & (z & E & Hz)%matches_Chr & H & _).
    cbn [fst snd] in *. subst u.
    apply matches_Dollar in H as [_ [->|(e & -> & He)]]; unfold tz_end; simpl.
    + by rewrite Hz.
    + by rewrite He, orb_true_r.
Qed.

Lemma last_char_app (a b : string) :
  b <> EmptyString -> last_char (a +:+ b) = last_char b.
Proof.
  intros Hb. induction a as [|c a IH]; [done|].
  change (String c a +:+ b) with (String c (a +:+ b)). simpl.
  destruct (a +:+ b) eqn:E; [|done].
  destruct a; [|done]. by destruct Hb.
Qed.

Lemma digit_not_Z_LF_space (c : ascii) :
  isdigit c = true ->
  is_char "Z" c = false /\ is_char LF c = false /\ isspace c = false.
Proof.
  unfold isdigit, is_char, isspace.
  change (code "Z") with 90. change (code LF) with 10.
  generalize (code c). intros z. lia.
Qed.

Lemma sign_chars (c : ascii) :
  Desktop.sign c = true ->
  isspace c = false /\ is_char "Z" c = false /\ isdigit c = false.
Proof.
  unfold Desktop.sign, isdigit, is_char, isspace.
  change (code "Z") with 90. change (code "+") with 43.
  change (code "-") with 45.
  generalize (code c). intros z. lia.
Qed.

Lemma Z_chars (c : ascii) :
  is_char "Z" c = true ->
  isspace c = false /\ isdigit c = false /\ is_char LF c = false
  /\ Desktop.sign c = false.
Proof.
  unfold Desktop.sign, isdigit, is_char, isspace.
  change (code "Z") with 90. change (code "+") with 43.
  change (code "-") with 45. change (code LF) with 10.
  generalize (code c). intros z. lia.
Qed.

Lemma colon_chars (c : ascii) :
  is_char ":" c = true -> isspace c = false /\ isdigit c = false.
Proof.
  unfold isdigit, is_char, isspace. change (code ":") with 58.
  generalize (code c). intros z. lia.
Qed.

(** The two forms of an annotation. *)
Lemma annotation_inv (tz : string) :
  annotation tz = true ->
  (exists z, tz = String z EmptyString /\ is_char "Z" z = true)
  \/ (exists sg h1 h2 c m1 m2,
        tz = String sg (String h1 (String h2 (String c (String m1
               (String m2 EmptyString)))))
        /\ Desktop.sign sg = true /\ isdigit h1 = true /\ isdigit h2 = true
        /\ is_char ":" c = true /\ isdigit m1 = true /\ isdigit m2 = true).
Proof.
  destruct tz as [|c0 [|c1 [|c2 [|c3 [|c4 [|c5 [|c6 t]]]]]]]; simpl; try done.
  - intros H. left. by exists c0.
  - intros H. right. exists c0, c1, c2, c3, c4, c5.
    repeat (apply andb_true_iff in H as [H ?]). done.
Qed.

Lemma tz_end_annotated (p tz : string) :
  annotation tz = true -> p <> EmptyString -> tz_end (p +:+ tz) = false.
Proof.
  intros Htz Hp.
  assert (Hlen : (1 <= String.length p)%nat) by (destruct p; simpl; [done|lia]).
  unfold tz_end.
  destruct (annotation_inv tz Htz)
    as [(z & -> & Hz)|(sg & h1 & h2 & c & m1 & m2 & -> & _ & _ & _ & _ & _ & Hm)].
  - rewrite last_char_app by done. simpl.
    destruct (Z_chars z Hz) as (_ & -> & -> & _). rewrite Hz. simpl.
    rewrite append_length. simpl. rewrite ?orb_false_r.
    apply Nat.eqb_neq. lia.
  - rewrite last_char_app by done. simpl.
    destruct (digit_not_Z_LF_space m2 Hm) as (-> & -> & _). rewrite Hm. simpl.
    rewrite append_length. simpl. apply Nat.leb_gt. lia.
Qed.

Lemma tz_pattern_rejects_inside (p tz : string) :
  annotation tz = true -> p <> EmptyString ->
  re_match Desktop.tz_pattern (p +:+ tz) = None.
Proof.
  intros Htz Hp. unfold re_match.
  destruct (matches Desktop.tz_pattern (p +:+ tz)) as [|x l] eqn:E; [done|].
  assert (H : tz_end (p +:+ tz) = true).
  { apply (tz_pattern_end x). rewrite E. by left. }
  by rewrite tz_end_annotated in H.
Qed.

Lemma tz_pattern_accepts (tz : string) :
  annotation tz = true ->
  exists found, re_match Desktop.tz_pattern tz = Some (found, EmptyString).
Proof.
  intros Htz.
  destruct (annotation_inv tz Htz)
    as [(z & -> & Hz)
       |(sg & h1 & h2 & c & m1 & m2 & -> & Hs & H1 & H2 & Hc & H3 & H4)].
  - destruct (Z_chars z Hz) as (_ & _ & _ & Hsg).
    unfold re_match. simpl. rewrite Hsg, Hz. simpl. by eexists.
  - unfold re_match. simpl.
    repeat (progress (rewrite ?Hs, ?H1, ?H2, ?Hc, ?H3, ?H4; simpl)).
    by eexists.
Qed.

Lemma re_sub_go_skip_all (r : regex) (s : string) :
  re_match r EmptyString = None ->
  re_sub_go r EmptyString (String.length s) s = EmptyString.
Proof.
  intros Hr. induction s as [|c s IH]; simpl; [by rewrite Hr|done].
Qed.

Lemma re_sub_tz_annotated (p tz : string) :
  annotation tz = true -> re_sub Desktop.tz_pattern "" (p +:+ tz) = p.
Proof.
  intros Htz. unfold re_sub. induction p as [|c p IH].
  - destruct (tz_pattern_accepts tz Htz) as [found E].
    destruct tz as [|c t]; [done|].
    change ("" +:+ String c t) with (String c t).
    cbn [re_sub_go]. rewrite E.
    replace (String.length (String c t) - String.length "")%nat
      with (S (String.length t)) by (simpl; lia).
    change ("" +:+ ?x) with x. by apply re_sub_go_skip_all.
  - rewrite append_cons. cbn [re_sub_go]. rewrite <- append_cons.
    rewrite tz_pattern_rejects_inside by done.
    by rewrite IH.
Qed.

Lemma lstrip_app (timestamp tz : string) :
  annotation tz = true -> lstrip (timestamp +:+ tz) = lstrip timestamp +:+ tz.
Proof.
  intros Htz. induction timestamp as [|c t IH].
  - change ("" +:+ tz) with tz.
    destruct (annotation_inv tz Htz)
      as [(z & -> & Hz)|(sg & ? & ? & ? & ? & ? & -> & Hs & _)]; simpl.
    + by destruct (Z_chars z Hz) as (-> & _).
    + by destruct (sign_chars sg Hs) as (-> & _).
  - rewrite append_cons. simpl. by destruct (isspace c).
Qed.

Lemma rstrip_app (u tz : string) :
  annotation tz = true -> rstrip (u +:+ tz) = u +:+ tz.
Proof.
  intros Htz. induction u as [|c u IH].
  - change ("" +:+ tz) with tz.
    destruct (annotation_inv tz Htz)
      as [(z & -> & Hz)|(? & ? & ? & ? & ? & m2 & -> & _ & _ & _ & _ & _ & Hm)];
      simpl.
    + by destruct (Z_chars z Hz) as (-> & _).
    + by destruct (digit_not_Z_LF_space m2 Hm) as (_ & _ & ->).
  - rewrite append_cons. simpl. rewrite IH.
    destruct (u +:+ tz) eqn:E; [|done].
    destruct u; [|done]. change ("" +:+ tz) with tz in E. by subst.
Qed.

Lemma strip_app (timestamp tz : string) :
  annotation tz = true -> strip (timestamp +:+ tz) = lstrip timestamp +:+ tz.
Proof.
  intros Htz. unfold strip. by rewrite lstrip_app, rstrip_app.
Qed.

Lemma try_formats_none (data : string) (fmts : list string) :
  Forall (rejects data) fmts -> try_formats data fmts = None.
Proof.
  induction 1 as [|f fmts Hf _ IH]; simpl; [done|].
  unfold rejects in Hf. by rewrite Hf.
Qed.

Lemma lt_irrefl (d : datetime) : lt d d = Some false.
Proof.
  rewrite lt_key, lex_ltb_irrefl. by destruct (aware d).
Qed.

(** How the desktop normaliser reads an annotated timestamp that no
    format accepts. *)
Lemma parse_annotated (now : datetime) (timestamp tz : string) :
  annotation tz = true ->
  Forall (rejects (lstrip timestamp +:+ tz)) Desktop.formats ->
  Desktop._parse_timestamp now (timestamp +:+ tz)
  = match fromisoformat (replace "T" " " (lstrip timestamp)) with
    | Some d => (d, [])
    | None => (now, [warning (timestamp +:+ tz)])
    end.
Proof.
  intros Htz Hrej. unfold Desktop._parse_timestamp.
  rewrite strip_app by done.
  rewrite (try_formats_none _ _ Hrej).
  by rewrite re_sub_tz_annotated.
Qed.

(** C8, as amended.  The desktop normaliser discards a time-zone
    annotation and never applies it, on the fallback path: for every
    timestamp and every annotation ([+HH:MM], [-HH:MM] or [Z]) such that
    no format of the list accepts the annotated text, the canonical time
    is what the ISO parse gives for the timestamp alone (leading blanks
    dropped, [T] read as a space), and the clock reading when that parse
    fails.  So any two annotations of one timestamp give the same
    canonical time, and when the timestamp alone normalises to its ISO
    parse, the annotated and the bare timestamp have equal canonical
    times, whose comparison does not raise. *)
Theorem offset_is_discarded_by_the_fallback
    (now : datetime) (timestamp tz : string) :
  annotation tz = true ->
  Forall (rejects (lstrip timestamp +:+ tz)) Desktop.formats ->
  Desktop._parse_timestamp now (timestamp +:+ tz)
  = match fromisoformat (replace "T" " " (lstrip timestamp)) with
    | Some d => (d, [])
    | None => (now, [warning (timestamp +:+ tz)])
    end
  /\ (forall tz',
        annotation tz' = true ->
        Forall (rejects (lstrip timestamp +:+ tz')) Desktop.formats ->
        fst (Desktop._parse_timestamp now (timestamp +:+ tz'))
        = fst (Desktop._parse_timestamp now (timestamp +:+ tz)))
  /\ (forall d,
        fromisoformat (replace "T" " " (lstrip timestamp)) = Some d ->
        fst (Desktop._parse_timestamp now timestamp) = d ->
        fst (Desktop._parse_timestamp now (timestamp +:+ tz)) = d
        /\ lt (fst (Desktop._parse_timestamp now timestamp))
              (fst (Desktop._parse_timestamp now (timestamp +:+ tz)))
           = Some false).
Proof.
  intros Htz Hrej. split; [by apply parse_annotated|]. split.
  - intros tz' Htz' Hrej'. rewrite !parse_annotated by done.
    by destruct (fromisoformat _).
  - intros d Hd Hbare. rewrite parse_annotated by done.
    rewrite Hd, Hbare. split; [done|apply lt_irrefl].
Qed.

(** An instance: an ISO timestamp keeps its wall-clock reading under
    either annotation. *)
Lemma offset_is_discarded_by_the_fallback_witness :
  Desktop._parse_timestamp a_now "2024-01-15 10:00:00+05:00"
  = (mkdatetime 2024 1 15 10 0 0 0 None, [])
  /\ fst (Desktop._parse_timestamp a_now "2024-01-15 10:00:00Z")
     = fst (Desktop._parse_timestamp a_now "2024-01-15 10:00:00+05:00")
  /\ fst (Desktop._parse_timestamp a_now "2024-01-15 10:00:00+05:00")
     = fst (Desktop._parse_timestamp a_now "2024-01-15 10:00:00").
Proof.
  destruct (offset_is_discarded_by_the_fallback a_now "2024-01-15 10:00:00"
              "+05:00") as (H1 & H2 & H3).
  - reflexivity.
  - repeat constructor; vm_compute; reflexivity.
  - split; [exact H1|]. split.
    + apply (H2 "Z"); [reflexivity|].
      repeat constructor; vm_compute; reflexivity.
    + destruct (H3 (mkdatetime 2024 1 15 10 0 0 0 None)) as [E _];
        [vm_compute; reflexivity..|].
      etransitivity; [exact E|]. vm_compute; reflexivity.
Defined.

(** C8 as stated fails.  In the desktop application a timestamp in a
    format other than ISO loses its canonical time when an annotation is
    added: the bare text is read by the day-first format, the annotated
    one is accepted by no format and by no ISO parse and gets the clock
    reading.  In the web application nothing strips the offset: the
    annotated text becomes an aware datetime, different from the naive
    one of the bare text, and comparing the two raises. *)
Lemma annotation_changes_the_canonical_time :
  annotation "Z" = true
  /\ fst (Desktop._parse_timestamp a_now "15/01/2024 14:30:25")
     = mkdatetime 2024 1 15 14 30 25 0 None
  /\ fst (Desktop._parse_timestamp a_now "15/01/2024 14:30:25Z") = a_now
  /\ fst (Desktop._parse_timestamp a_now "15/01/2024 14:30:25+05:00") = a_now
  /\ fst (Desktop._parse_timestamp a_now "15/01/2024 14:30:25")
     <> fst (Desktop._parse_timestamp a_now "15/01/2024 14:30:25Z")
  /\ fst (Web._parse_timestamp a_now "2024-01-15 10:00:00")
     <> fst (Web._parse_timestamp a_now "2024-01-15 10:00:00+05:00")
  /\ lt (fst (Web._parse_timestamp a_now "2024-01-15 10:00:00"))
        (fst (Web._parse_timestamp a_now "2024-01-15 10:00:00+05:00"))
     = None.
Proof.
  split; [reflexivity|].
  split; [vm_compute; reflexivity|].
  split; [vm_compute; reflexivity|].
  split; [vm_compute; reflexivity|].
  split; [intros H; vm_compute in H; discriminate H|].
  split; [intros H; vm_compute in H; discriminate H|].
  vm_compute; reflexivity.
Qed.

(* ================================================================== *)
(** * Part VI.  Further properties of the two applications           *)
(* ================================================================== *)

(** ** Tests on lists *)

Lemma Forall_of_forallb {A : Type} (p : A -> bool) (P : A -> Prop)
    (l : list A) :
  (forall x, p x = true -> P x) -> forallb p l = true -> Forall P l.
Proof.
  intros Hp. induction l as [|x l IH]; simpl; [constructor|].
  intros [Hx Hl]%andb_true_iff. constructor; auto.
Qed.

(** ** Folder names *)

Lemma re_sub_reserved (s : string) :
  safe_name s
  = match s with
    | EmptyString => EmptyString
    | String c s' => String (if reserved c then "_"%char else c) (safe_name s')
    end.
Proof.
  unfold safe_name, re_sub. destruct s as [|c s']; [reflexivity|].
  cbn [re_sub_go]. unfold re_match. cbn [matches].
  destruct (reserved c); cbn [head]; [|done].
  replace (String.length (String c s') - String.length s')%nat with 1%nat
    by (simpl; lia).
  reflexivity.
Qed.

Lemma safe_name_length (s : string) :
  String.length (safe_name s) = String.length s.
Proof.
  induction s as [|c s IH]; rewrite re_sub_reserved; [done|].
  simpl. by rewrite IH.
Qed.

Lemma safe_name_clean (s : string) : has_char reserved (safe_name s) = false.
Proof.
  induction s as [|c s IH]; rewrite re_sub_reserved; [done|].
  cbn [has_char]. rewrite IH, orb_false_r.
  destruct (reserved c) eqn:E; [reflexivity|exact E].
Qed.

Lemma safe_name_id (s : string) :
  has_char reserved s = false -> safe_name s = s.
Proof.
  induction s as [|c s IH]; rewrite re_sub_reserved; [done|].
  cbn [has_char]. intros [Hc Hs]%orb_false_iff. by rewrite Hc, IH.
Qed.

Lemma safe_name_changes (s : string) :
  has_char reserved s = true -> safe_name s <> s.
Proof.
  intros H E. pose proof (safe_name_clean s) as K. rewrite E in K. congruence.
Qed.

(** X1.  The folder of an investigation is named after the investigation
    with every reserved character replaced by an underscore: the folder
    name has the length of the investigation name and no reserved
    character, a name without reserved characters is its own folder
    name, and cleaning twice changes nothing more.  Hence an
    investigation whose name has a reserved character shares its folder
    with the investigation of a different name: the web snapshot and the
    analysis reports of the two go to the same files. *)
Theorem investigation_folder_name (investigation_name : string) :
  String.length (safe_name investigation_name)
  = String.length investigation_name
  /\ has_char reserved (safe_name investigation_name) = false
  /\ (has_char reserved investigation_name = false ->
      safe_name investigation_name = investigation_name)
  /\ safe_name (safe_name investigation_name) = safe_name investigation_name
  /\ (has_char reserved investigation_name = true ->
      safe_name investigation_name <> investigation_name)
  /\ (forall entries files,
        Web.save_logs_to_file (safe_name investigation_name) entries files
        = Web.save_logs_to_file investigation_name entries files)
  /\ (forall now analysis_text files,
        snd (save_ai_analysis_to_file now (safe_name investigation_name)
                                      analysis_text files)
        = snd (save_ai_analysis_to_file now investigation_name analysis_text
                                        files)).
Proof.
  pose proof (safe_name_id _ (safe_name_clean investigation_name)) as Hidem.
  split; [apply safe_name_length|]. split; [apply safe_name_clean|].
  split; [apply safe_name_id|]. split; [exact Hidem|].
  split; [apply safe_name_changes|]. split.
  - intros entries files. unfold Web.save_logs_to_file. by rewrite Hidem.
  - intros now analysis_text files. unfold save_ai_analysis_to_file.
    destruct analysis_text; [done|]. simpl. by rewrite Hidem.
Qed.

(** ** Sorting what is sorted *)

Section SortedAgain.
Context {A : Type} (less : A -> A -> option bool).

Lemma sorted_of_Sorted (l : list A) :
  Sorted (ascending less) l -> sorted less l = Some l.
Proof.
  induction 1 as [|x l Hl IH Hhd]; [done|].
  simpl. rewrite IH. destruct Hhd as [|y l Hy]; [done|].
  simpl. unfold ascending in Hy. by rewrite Hy.
Qed.
End SortedAgain.

Lemma lex_ltb_cases (a b : list Z) :
  lex_ltb a b = true \/ a = b \/ lex_ltb b a = true.
Proof.
  revert b; induction a as [|u a IH]; intros [|v b]; simpl; auto.
  destruct (Z.ltb_spec u v); [by left|].
  destruct (Z.ltb_spec v u); [by right; right|].
  assert (u = v) as -> by lia. rewrite Z.eqb_refl. simpl.
  destruct (IH b) as [?|[->|?]]; auto.
Qed.

Lemma eq_refl_time (x : datetime) : eq x x = true.
Proof.
  rewrite eq_key. rewrite bool_decide_eq_true_2 by done.
  by destruct (aware x).
Qed.

Section Canonical.
Context {E : Type} (time : E -> datetime).
Implicit Types (l r : list E).

Lemma ascending_by_time_trans :
  Transitive (ascending (by_time time)).
Proof.
  intros x y z. unfold ascending, by_time. rewrite !lt_key.
  destruct (aware (time x)), (aware (time y)), (aware (time z)); simpl;
    try done; intros [= H1] [= H2]; f_equal;
    (destruct (lex_ltb (sort_key (time z)) (sort_key (time x))) eqn:H3;
     [|done]);
    (destruct (lex_ltb_cases (sort_key (time x)) (sort_key (time y)))
       as [K|[K|K]]; [|rewrite K in *; congruence|congruence]);
    (destruct (lex_ltb_cases (sort_key (time y)) (sort_key (time z)))
       as [L|[L|L]]; [|rewrite <- L in *; congruence|congruence]);
    pose proof (lex_ltb_trans _ _ _ K L) as M;
    apply lex_ltb_asym in M; congruence.
Qed.

Lemma at_time_nil l : (forall t, at_time time t l = []) -> l = [].
Proof.
  destruct l as [|x l]; [done|]. intros H. specialize (H (time x)).
  unfold at_time in H. simpl in H. by rewrite eq_refl_time in H.
Qed.

Lemma at_time_elem t x l : x ∈ at_time time t l -> x ∈ l.
Proof.
  unfold at_time. rewrite !list_elem_of_In, filter_In. tauto.
Qed.

(** A list in ascending order is determined by its entries at each
    instant. *)
Lemma ascending_unique l r :
  Sorted (ascending (by_time time)) l -> Sorted (ascending (by_time time)) r ->
  (forall t, at_time time t l = at_time time t r) -> l = r.
Proof.
  intros Hl Hr.
  apply (Sorted.Sorted_StronglySorted ascending_by_time_trans) in Hl, Hr.
  revert r Hr; induction Hl as [|x l Hl IH Hx]; intros r Hr H.
  { symmetry. apply at_time_nil. intros t. by rewrite <- H. }
  destruct Hr as [|y r Hr Hy].
  { specialize (H (time x)). unfold at_time in H. simpl in H.
    by rewrite eq_refl_time in H. }
  assert (x = y) as <-.
  { destruct (eq (time x) (time y)) eqn:Exy.
    - specialize (H (time y)). unfold at_time in H. simpl in H.
      rewrite Exy, eq_refl_time in H. by injection H.
    - assert (x ∈ r) as Hxr.
      { pose proof (H (time x)) as K. unfold at_time in K. simpl in K.
        rewrite eq_refl_time in K.
        assert (eq (time y) (time x) = false) as Eyx.
        { rewrite eq_key in *. destruct (aware (time x)), (aware (time y));
            simpl in *; try done;
            apply bool_decide_eq_false; apply bool_decide_eq_false in Exy;
            congruence. }
        rewrite Eyx in K. apply (at_time_elem (time x)). unfold at_time.
        rewrite <- K. by left. }
      assert (y ∈ l) as Hyl.
      { pose proof (H (time y)) as K. unfold at_time in K. simpl in K.
        rewrite eq_refl_time, Exy in K.
        apply (at_time_elem (time y)). unfold at_time. rewrite K. by left. }
      rewrite Forall_forall in Hx, Hy.
      apply Hy in Hxr. apply Hx in Hyl.
      unfold ascending in Hxr, Hyl.
      pose proof (lt_connected _ _ Hyl Exy) as K. unfold by_time in *.
      congruence. }
  f_equal. apply IH; [done|]. intros t. specialize (H t).
  unfold at_time in *. simpl in H. destruct (eq (time x) t); congruence.
Qed.

Lemma sorted_canonical l l' r r' :
  sorted (by_time time) l = Some r -> sorted (by_time time) l' = Some r' ->
  (forall t, at_time time t l = at_time time t l') -> r = r'.
Proof.
  intros (_ & S1 & F1)%sorted_by_time_spec (_ & S2 & F2)%sorted_by_time_spec H.
  apply ascending_unique; [done..|]. intros t. by rewrite F1, F2.
Qed.

(** Sorting again, in any direction, a list that a sort has produced
    gives what sorting the original list gives. *)
Lemma sorted_sorted l r :
  sorted (by_time time) l = Some r -> sorted (by_time time) r = Some r.
Proof.
  intros (_ & S1 & _)%sorted_by_time_spec. by apply sorted_of_Sorted.
Qed.

Lemma at_time_rev t l : at_time time t (rev l) = rev (at_time time t l).
Proof. unfold at_time. apply filter_rev. Qed.

(** A list in ascending order holds datetimes of one kind only. *)
Lemma ascending_comparable l :
  Sorted (ascending (by_time time)) l -> comparable (List.map time l).
Proof.
  intros Hl.
  assert (forall x y, x ∈ l -> y ∈ l -> aware (time x) = aware (time y)) as K.
  { induction Hl as [|x l Hl IH Hhd]; [by intros x y Hx%elem_of_nil|].
    assert (forall y, y ∈ l -> aware (time x) = aware (time y)) as Hx.
    { destruct Hhd as [|z l Hz]; [by intros y Hy%elem_of_nil|].
      intros y Hy. rewrite <- (IH z y); [|by left|done].
      unfold ascending, by_time in Hz. rewrite lt_key in Hz.
      by destruct (aware (time x)), (aware (time z)). }
    intros a b [->|Ha]%elem_of_cons [->|Hb]%elem_of_cons; auto.
    symmetry; auto. }
  intros a b (x & -> & Hx)%list_elem_of_fmap (y & -> & Hy)%list_elem_of_fmap.
  rewrite lt_key, (K x y Hx Hy). destruct (aware (time y)); by eexists.
Qed.

Lemma sorted_comparable l r :
  sorted (by_time time) l = Some r -> comparable (List.map time l).
Proof.
  intros (P & S & _)%sorted_by_time_spec.
  apply (comparable_perm time r l); [by symmetry|by apply ascending_comparable].
Qed.

Lemma sorted_reverse_comparable l r :
  sorted_reverse (by_time time) l = Some r -> comparable (List.map time l).
Proof.
  unfold sorted_reverse. destruct (sorted _ (rev l)) as [r'|] eqn:H; [|done].
  intros _. apply sorted_comparable in H.
  apply (comparable_perm time (rev l) l); [|done].
  symmetry. apply Permutation_rev.
Qed.

(** The ascending sort of a list that a sort has produced, in either
    direction, is the ascending sort of the original list, and so for
    the descending sort. *)
Lemma sorted_after_sorted l r :
  sorted (by_time time) l = Some r -> sorted (by_time time) r = Some r.
Proof.
  intros (_ & S1 & _)%sorted_by_time_spec. by apply sorted_of_Sorted.
Qed.

Lemma sorted_after_reverse l r :
  sorted_reverse (by_time time) l = Some r ->
  sorted (by_time time) r = sorted (by_time time) l.
Proof.
  intros H. pose proof (sorted_reverse_comparable _ _ H) as Hc.
  destruct (sorted_reverse_by_time_spec time _ _ H) as (P & _ & F).
  destruct (sorted_by_time_total time l Hc) as [a Ha].
  destruct (sorted_by_time_total time r (comparable_perm _ _ _ P Hc))
    as [b Hb].
  rewrite Ha, Hb. f_equal. by apply (sorted_canonical r l).
Qed.

Lemma reverse_after_sorted l r :
  sorted (by_time time) l = Some r ->
  sorted_reverse (by_time time) r = sorted_reverse (by_time time) l.
Proof.
  intros H. pose proof (sorted_comparable _ _ H) as Hc.
  destruct (sorted_by_time_spec time _ _ H) as (P & _ & F).
  unfold sorted_reverse.
  assert (comparable (List.map time (rev l))) as Hc1.
  { apply (comparable_perm time l); [apply Permutation_rev|done]. }
  assert (comparable (List.map time (rev r))) as Hc2.
  { apply (comparable_perm time l); [|done].
    by rewrite <- Permutation_rev. }
  destruct (sorted_by_time_total time _ Hc1) as [a Ha].
  destruct (sorted_by_time_total time _ Hc2) as [b Hb].
  rewrite Ha, Hb. simpl. do 2 f_equal. apply (sorted_canonical (rev r) (rev l));
    [done..|].
  intros t. by rewrite !at_time_rev, F.
Qed.

Lemma reverse_after_reverse l r :
  sorted_reverse (by_time time) l = Some r ->
  sorted_reverse (by_time time) r = Some r.
Proof.
  unfold sorted_reverse. destruct (sorted _ (rev l)) as [r'|] eqn:H; [|done].
  intros [= <-]. rewrite rev_involutive.
  by rewrite (sorted_after_sorted _ _ H).
Qed.
End Canonical.

(** ** The sort buttons, one after another *)

Lemma sort_button_entries (d : Desktop.direction) (self self' : Desktop.State) :
  sort_button d self = Desktop.Sorted_ self' ->
  match d with
  | Desktop.asc => sorted (by_time Desktop.parsed_time)
  | Desktop.desc => sorted_reverse (by_time Desktop.parsed_time)
  end (Desktop.log_entries self) = Some (Desktop.log_entries self').
Proof.
  destruct d; simpl; [apply sort_ascending_inv|apply sort_descending_inv].
Qed.

Lemma auto_save_sorted (self : Desktop.State) (r : list Desktop.LogEntry) :
  Desktop.log_entries self <> [] ->
  sorted (by_time Desktop.parsed_time) (Desktop.log_entries self) = Some r ->
  Desktop.auto_save_logs_to_csv self
  = Desktop.with_files self
      (<[Desktop.get_investigation_csv_path self := Desktop.csv_text r]>
         (Desktop.files self)).
Proof.
  intros Hne H. unfold Desktop.auto_save_logs_to_csv.
  destruct (Desktop.log_entries self) as [|e l] eqn:E; [done|].
  unfold by_time in H. by rewrite H.
Qed.

Lemma sort_button_inv (d : Desktop.direction) (self : Desktop.State) :
  match sort_button d self with
  | Desktop.NothingToSort s => s = self /\ Desktop.log_entries self = []
  | Desktop.SortFailed => Desktop.log_entries self <> []
  | Desktop.Sorted_ s =>
      exists r,
        Desktop.log_entries self <> []
        /\ match d with
           | Desktop.asc => sorted (by_time Desktop.parsed_time)
           | Desktop.desc => sorted_reverse (by_time Desktop.parsed_time)
           end (Desktop.log_entries self) = Some r
        /\ s = Desktop.auto_save_logs_to_csv
                 (Desktop.mkState r true (Some d)
                    (Desktop.investigation_name self)
                    (Desktop.refresh_treeview r) (Desktop.files self))
  end.
Proof.
  destruct d; simpl; unfold Desktop.sort_ascending, Desktop.sort_descending;
    destruct (Desktop.log_entries self) as [|e l] eqn:E; try done.
  - change Desktop.__lt__ with (by_time Desktop.parsed_time).
    destruct (sorted _ (e :: l)) as [r|]; [|done]. by exists r.
  - change Desktop.__lt__ with (by_time Desktop.parsed_time).
    destruct (sorted_reverse _ (e :: l)) as [r|]; [|done]. by exists r.
Qed.

Lemma sort_direction_spec {E : Type} (time : E -> datetime)
    (d : Desktop.direction) (l r : list E) :
  match d with
  | Desktop.asc => sorted (by_time time)
  | Desktop.desc => sorted_reverse (by_time time)
  end l = Some r ->
  Permutation l r /\ comparable (List.map time l)
  /\ sorted (by_time time) r = sorted (by_time time) l
  /\ sorted_reverse (by_time time) r = sorted_reverse (by_time time) l.
Proof.
  destruct d; intros H.
  - split; [by eapply sorted_perm|]. split; [by eapply sorted_comparable|].
    split; [by rewrite H; eapply sorted_after_sorted|].
    by apply reverse_after_sorted.
  - split; [by apply (sorted_reverse_by_time_spec time)|].
    split; [by eapply sorted_reverse_comparable|].
    split; [by apply sorted_after_reverse|].
    by rewrite H; eapply reverse_after_reverse.
Qed.

Lemma sort_button_Sorted (d : Desktop.direction) (self : Desktop.State)
    (r a : list Desktop.LogEntry) :
  Desktop.log_entries self <> [] ->
  match d with
  | Desktop.asc => sorted (by_time Desktop.parsed_time)
  | Desktop.desc => sorted_reverse (by_time Desktop.parsed_time)
  end (Desktop.log_entries self) = Some r ->
  sorted (by_time Desktop.parsed_time) r = Some a ->
  sort_button d self
  = Desktop.Sorted_
      (Desktop.mkState r true (Some d) (Desktop.investigation_name self)
         (Desktop.refresh_treeview r)
         (<[(safe_name (Desktop.investigation_name self), csv_name)
            := Desktop.csv_text a]> (Desktop.files self))).
Proof.
  intros Hne Hr Ha.
  assert (r <> []) as Hr0.
  { intros ->. destruct d.
    - apply sorted_perm, Permutation_nil_r in Hr. done.
    - apply (sorted_reverse_by_time_spec Desktop.parsed_time) in Hr as (P & _).
      by apply Permutation_nil_r in P. }
  destruct d; simpl; unfold Desktop.sort_ascending, Desktop.sort_descending;
    change Desktop.__lt__ with (by_time Desktop.parsed_time);
    (destruct (Desktop.log_entries self) as [|e l] eqn:E; [done|]);
    rewrite Hr; by rewrite (auto_save_sorted _ a).
Qed.

(** X2.  Pressing a sort button after a sort that completed gives
    exactly the state that pressing it at once would have given: the
    entries, the rows, the flags and the snapshot depend on the last
    button only.  In particular each button pressed twice does what it
    does pressed once, and ascending after descending is ascending. *)
Theorem sort_buttons_compose (d1 d2 : Desktop.direction)
    (self s1 : Desktop.State) :
  after (sort_button d1 self) = Some s1 ->
  sort_button d2 s1 = sort_button d2 self.
Proof.
  intros H. pose proof (sort_button_inv d1 self) as K.
  destruct (sort_button d1 self) as [s| s|] eqn:E0; simpl in H;
    [|by destruct K as [-> _]; injection H as <-|done].
  injection H as ->. destruct K as (r & Hne & Hr & _).
  destruct (sort_direction_spec Desktop.parsed_time d1 _ _ Hr)
    as (P & Hc & Ha & Hd).
  destruct (sorted_by_time_total Desktop.parsed_time _ Hc) as [a Ea].
  pose proof (sort_button_Sorted d1 self r a Hne Hr) as E1.
  rewrite Ha in E1. specialize (E1 Ea). rewrite E0 in E1.
  injection E1 as ->. clear E0.
  assert (exists r2,
            match d2 with
            | Desktop.asc => sorted (by_time Desktop.parsed_time)
            | Desktop.desc => sorted_reverse (by_time Desktop.parsed_time)
            end (Desktop.log_entries self) = Some r2) as [r2 H2].
  { destruct d2; [by exists a|].
    by apply sorted_reverse_by_time_total. }
  destruct (sort_direction_spec Desktop.parsed_time d2 _ _ H2)
    as (_ & _ & Ha2 & _).
  rewrite Ea in Ha2.
  rewrite (sort_button_Sorted d2 self r2 a Hne H2 Ha2).
  erewrite (sort_button_Sorted d2 _ r2 a); cbn [Desktop.log_entries]; cycle 1.
  - intros ->. by apply Permutation_nil_r in P.
  - destruct d2; congruence.
  - done.
  - cbn [Desktop.investigation_name Desktop.files].
    by rewrite insert_insert_eq.
Qed.

(** The instance of the three entries: descending after ascending is
    descending pressed at once. *)
Lemma sort_buttons_compose_witness :
  let s1 :=
    default three_entries (after (Desktop.sort_ascending three_entries)) in
  Desktop.sort_descending s1 = Desktop.sort_descending three_entries
  /\ Desktop.log_entries s1 <> Desktop.log_entries three_entries.
Proof.
  intros s1. split.
  - apply (sort_buttons_compose Desktop.asc Desktop.desc three_entries s1).
    vm_compute; reflexivity.
  - vm_compute. discriminate.
Defined.

(** ** Updating an entry of the web timeline *)

Lemma update_first_Some now entry_id timestamp description severity
    (entries r : list Web.LogEntry) :
  Web.update_first now entry_id timestamp description severity entries = Some r ->
  exists pre entry post,
    entries = (pre ++ entry :: post)%list
    /\ Forall (fun x => Web.id x <> entry_id) pre
    /\ Web.id entry = entry_id
    /\ r = (pre
            ++ Web.mkLogEntry entry_id timestamp description severity
                 (fst (Web._parse_timestamp now timestamp))
                 (Web.created_at entry)
            :: post)%list.
Proof.
  revert r; induction entries as [|x entries IH]; intros r; simpl; [done|].
  destruct (String.eqb_spec (Web.id x) entry_id) as [Hx|Hx].
  - intros [= <-]. exists [], x, entries. by rewrite Hx.
  - destruct (Web.update_first _ _ _ _ _ entries) as [r'|]; [|done].
    intros [= <-]. destruct (IH r' eq_refl) as (pre & e & post & -> & Hp & He & ->).
    exists (x :: pre), e, post. repeat split; [|done]. by constructor.
Qed.

Lemma update_first_None now entry_id timestamp description severity
    (entries : list Web.LogEntry) :
  Web.update_first now entry_id timestamp description severity entries = None ->
  Forall (fun x => Web.id x <> entry_id) entries.
Proof.
  induction entries as [|x entries IH]; simpl; [by constructor|].
  destruct (String.eqb_spec (Web.id x) entry_id) as [Hx|Hx]; [done|].
  destruct (Web.update_first _ _ _ _ _ entries) as [r'|]; [done|].
  intros _. constructor; auto.
Qed.

Lemma get_session_logs_at_const (now : datetime) (fresh : string)
    (session : Web.Session) :
  Web.get_session_logs_at (fun _ => now) fresh session
  = Web.get_session_logs now fresh session.
Proof.
  unfold Web.get_session_logs_at, Web.get_session_logs.
  induction (Web.log_entries session) as [|x l IH]; [done|].
  cbn [imap List.map]. f_equal. exact IH.
Qed.

(** X3.  [update_entry] of the web application.  With a blank timestamp
    or description it answers 400 and changes nothing.  Otherwise the
    stored entries are built anew, each at its reading of the clock;
    when none has the identifier it answers 404 and changes nothing;
    else it rewrites the first entry with that identifier, in place: the
    timestamp and the description are the trimmed texts, the canonical
    time is that of the new timestamp, read at the last reading of the
    clock, the identifier stays, and every other entry, the order and
    the number of entries are unchanged.  The snapshot is then written
    from the new list, in ascending order of canonical time, unless
    sorting the new list raises: then the files stay as they were and
    the answer is a success all the same.  No length is required of the
    description, unlike in [add_entry]. *)
Theorem update_entry_rewrites_one_entry (clock : nat -> datetime)
    (fresh entry_id data_timestamp data_description : string)
    (data_severity : option string) (session : Web.Session) (files : disk) :
  let entries := Web.get_session_logs_at clock fresh session in
  let last_reading := clock (length (Web.log_entries session)) in
  let result :=
    Web.update_entry clock fresh entry_id data_timestamp data_description
                     data_severity session files in
  if blank data_timestamp || blank data_description
  then result
       = (session, files,
          Web.Error 400 "Timestamp and description are required")
  else
    (Forall (fun x => Web.id x <> entry_id) entries
     /\ result = (session, files, Web.Error 404 "Entry not found"))
    \/ (exists pre entry post,
          entries = (pre ++ entry :: post)%list
          /\ Forall (fun x => Web.id x <> entry_id) pre
          /\ Web.id entry = entry_id
          /\ let entries' :=
               (pre
                ++ Web.mkLogEntry entry_id (strip data_timestamp)
                     (strip data_description) (default "Info" data_severity)
                     (fst (Web._parse_timestamp last_reading
                                                (strip data_timestamp)))
                     (Web.created_at entry)
                :: post)%list in
             List.map Web.id entries' = List.map Web.id entries
             /\ length entries' = length entries
             /\ exists files',
                  result
                  = (Web.save_session_logs entries' session, files',
                     Web.Success)
                  /\ match sorted (by_time Web.parsed_time) entries' with
                     | Some sorted_entries =>
                         files'
                         = <[(safe_name
                                (default "Unknown"
                                         (Web.investigation_name session)),
                              csv_name)
                             := Web.csv_text sorted_entries]> files
                     | None => files' = files
                     end).
Proof.
  intros entries last_reading result. subst entries last_reading result.
  unfold Web.update_entry, blank.
  destruct (strip data_timestamp) as [|c t] eqn:Et; [done|].
  destruct (strip data_description) as [|c' d] eqn:Ed; [done|].
  cbn [orb].
  destruct (Web.update_first _ _ _ _ _ _) as [r|] eqn:E.
  - right. apply update_first_Some in E as (pre & e & post & E0 & Hp & He & ->).
    exists pre, e, post. rewrite E0.
    split; [done|]. split; [done|]. split; [done|]. cbv zeta.
    split; [rewrite !map_app; simpl; by rewrite He|].
    split; [by rewrite !length_app|].
    eexists. split; [reflexivity|].
    unfold Web.auto_save, Web.save_logs_to_file, by_time.
    destruct pre; cbn [app]; by destruct (sorted _ _).
  - left. split; [|done]. by eapply update_first_None.
Qed.

(** The model follows the readings of the clock: in a session of two
    entries whose timestamps no format reads, updating the first one
    parses it after the second one was built, so that with a clock that
    moves the snapshot lists the second entry first. *)
Example update_entry_parses_the_updated_entry_last :
  let result :=
    Web.update_entry ticking "id-9" "id-1" "this morning" "apple tart"
                     (Some "Low") web_unparseable ∅ in
  snd result = Web.Success
  /\ List.map Web.description (Web.log_entries (fst (fst result)))
     = ["apple tart"; "cherry pie"]
  /\ List.map Web.parsed_time (Web.log_entries (fst (fst result)))
     = [ticking 2; ticking 1]
  /\ snd (fst result) !! ("Case", csv_name)
     = Some (Web.csv_text
               (rev (Web.log_entries (fst (fst result))))).
Proof. repeat split; vm_compute; reflexivity. Qed.

(** ** Trimmed texts *)

Lemma rstrip_head (c : ascii) (s : string) :
  isspace c = false -> exists r, rstrip (String c s) = String c r.
Proof.
  intros Hc. simpl. destruct (rstrip s); [|by eexists].
  rewrite Hc. by eexists.
Qed.

Lemma rstrip_rstrip (s : string) : rstrip (rstrip s) = rstrip s.
Proof.
  induction s as [|c s IH]; [done|]. simpl.
  destruct (rstrip s) as [|d r] eqn:E.
  - destruct (isspace c) eqn:Hc; [done|]. simpl. by rewrite Hc.
  - change (rstrip (String c (String d r))) with
      (match rstrip (String d r) with
       | EmptyString => if isspace c then EmptyString else String c EmptyString
       | r' => String c r'
       end).
    by rewrite IH.
Qed.

Lemma lstrip_head (s : string) :
  match lstrip s with
  | EmptyString => True
  | String c _ => isspace c = false
  end.
Proof.
  induction s as [|c s IH]; [done|]. simpl.
  destruct (isspace c) eqn:Hc; [done|]. done.
Qed.

Lemma lstrip_id (c : ascii) (s : string) :
  isspace c = false -> lstrip (String c s) = String c s.
Proof. intros Hc. simpl. by rewrite Hc. Qed.

Lemma strip_strip (s : string) : strip (strip s) = strip s.
Proof.
  unfold strip. pose proof (lstrip_head s) as H.
  destruct (lstrip s) as [|c u]; [done|].
  destruct (rstrip_head c u H) as [r Hr]. rewrite Hr.
  rewrite (lstrip_id c r H), <- Hr. apply rstrip_rstrip.
Qed.

(** ** Importing into the web timeline *)

Lemma web_severity_map_idem (severity : string) :
  Web.severity_map (Web.severity_map severity) = Web.severity_map severity.
Proof.
  unfold Web.severity_map at 2 3.
  repeat (match goal with
          | |- context [String.eqb ?a ?b] =>
              destruct (String.eqb a b) eqn:?; [reflexivity|]
          end).
  unfold Web.severity_map.
  repeat match goal with H : String.eqb _ _ = false |- _ => rewrite H; clear H end.
  reflexivity.
Qed.

Lemma import_entry_Some now fresh entry_data e :
  Web.import_entry now fresh entry_data = Some e ->
  exists t d s,
    entry_data = Web.Object t d s
    /\ exists tv dv sv,
      Web.text_of t "" = Some tv /\ Web.text_of d "" = Some dv
      /\ Web.text_of s "Info" = Some sv
      /\ blank tv = false /\ blank dv = false
      /\ e = Web.__init__ now fresh (strip tv) (strip dv)
                          (Web.severity_map (strip sv)) None.
Proof.
  destruct entry_data as [t d s|]; [|done]. simpl.
  destruct (Web.text_of t "") as [tv|] eqn:Et; [|done].
  destruct (Web.text_of d "") as [dv|] eqn:Ed; [|done].
  destruct (Web.text_of s "Info") as [sv|] eqn:Es; [|done].
  destruct (strip tv) as [|c1 t1] eqn:E1; [done|].
  destruct (strip dv) as [|c2 d1] eqn:E2; [done|].
  intros [= <-]. exists t, d, s. split; [done|]. exists tv, dv, sv.
  unfold blank. rewrite E1, E2. done.
Qed.

Lemma import_entries_spec now uuid4 (k : nat) (data : list Web.json_entry) :
  let imported := Web.import_entries now uuid4 k data in
  (length imported <= length data)%nat
  /\ List.map Web.id imported = List.map uuid4 (seq k (length imported))
  /\ Forall (fun e =>
               blank (Web.timestamp e) = false
               /\ strip (Web.timestamp e) = Web.timestamp e
               /\ blank (Web.description e) = false
               /\ strip (Web.description e) = Web.description e
               /\ Web.severity_map (Web.severity e) = Web.severity e
               /\ Web.parsed_time e
                  = fst (Web._parse_timestamp now (Web.timestamp e)))
            imported.
Proof.
  revert k; induction data as [|x data IH]; intros k; simpl.
  { split; [lia|]. split; [done|]. constructor. }
  destruct (Web.import_entry now (uuid4 k) x) as [e|] eqn:E.
  - destruct (IH (S k)) as (Hl & Hid & Hall). simpl.
    apply import_entry_Some in E
        as (? & ? & ? & _ & tv & dv & sv & _ & _ & _ & Ht & Hd & ->).
    split; [lia|]. split.
    + rewrite Hid. done.
    + constructor; [|done].
      simpl. unfold blank in *. rewrite !strip_strip.
      rewrite web_severity_map_idem. done.
  - destruct (IH k) as (Hl & Hid & Hall). split; [lia|]. done.
Qed.

Lemma import_entries_complete now uuid4 (k : nat) (data : list Web.json_entry)
    (t d s : Web.json_field) (tv dv sv : string) :
  Web.Object t d s ∈ data ->
  Web.text_of t "" = Some tv -> Web.text_of d "" = Some dv ->
  Web.text_of s "Info" = Some sv ->
  blank tv = false -> blank dv = false ->
  exists e,
    e ∈ Web.import_entries now uuid4 k data
    /\ Web.timestamp e = strip tv /\ Web.description e = strip dv
    /\ Web.severity e = Web.severity_map (strip sv).
Proof.
  intros Hin Ht Hd Hs Bt Bd. revert k.
  induction data as [|x data IH]; intros k; [by apply elem_of_nil in Hin|].
  apply elem_of_cons in Hin as [<-|Hin].
  - simpl. rewrite Ht, Hd, Hs. unfold blank in Bt, Bd.
    destruct (strip tv) as [|c1 t1] eqn:E1; [done|].
    destruct (strip dv) as [|c2 d1] eqn:E2; [done|].
    eexists. split; [by left|]. done.
  - simpl. destruct (Web.import_entry now (uuid4 k) x).
    + destruct (IH Hin (S k)) as (e & He & K). exists e. split; [by right|done].
    + apply IH, Hin.
Qed.

Lemma import_entries_sound now uuid4 (k : nat) (data : list Web.json_entry)
    (e : Web.LogEntry) :
  e ∈ Web.import_entries now uuid4 k data ->
  exists t d s tv dv sv,
    Web.Object t d s ∈ data
    /\ Web.text_of t "" = Some tv /\ Web.text_of d "" = Some dv
    /\ Web.text_of s "Info" = Some sv
    /\ blank tv = false /\ blank dv = false
    /\ Web.timestamp e = strip tv /\ Web.description e = strip dv
    /\ Web.severity e = Web.severity_map (strip sv).
Proof.
  revert k; induction data as [|x data IH]; intros k; simpl;
    [by intros ?%elem_of_nil|].
  destruct (Web.import_entry now (uuid4 k) x) as [e'|] eqn:E.
  - intros [->|He]%elem_of_cons.
    + apply import_entry_Some in E
          as (t & d & s & -> & tv & dv & sv & Ht & Hd & Hs & Bt & Bd & ->).
      exists t, d, s, tv, dv, sv. split; [by left|done].
    + destruct (IH _ He) as (t & d & s & tv & dv & sv & Hin & K).
      exists t, d, s, tv, dv, sv. split; [by right|done].
  - intros He. destruct (IH _ He) as (t & d & s & tv & dv & sv & Hin & K).
    exists t, d, s, tv, dv, sv. split; [by right|done].
Qed.

(** X4.  [import_csv] of the web application keeps the entries of the
    session in front and appends one entry for every element of the list
    that is an object whose timestamp and description are texts that are
    not blank (a text that is absent counts as empty, an absent severity
    as Info), and for no other element: the request does not fail on the
    elements it skips.  The answer counts the entries appended and the
    entries in all.  Every appended entry holds the trimmed texts, a
    severity that the normalisation of severities leaves as it is, the
    canonical time of its timestamp and the next fresh identifier.  No
    length is required of the description, unlike in [add_entry]. *)
Theorem import_csv_appends_the_valid_elements (now : datetime) (fresh : string)
    (uuid4 : nat -> string) (entry_data : Web.json_entry)
    (rest : list Web.json_entry) (session : Web.Session) :
  exists imported,
    Web.import_csv now fresh uuid4 (Some (entry_data :: rest)) session
    = (Web.mkSession (Web.investigation_name session)
         (Web.get_session_logs now fresh session ++ imported),
       Web.Imported (length imported)
                    (length (Web.log_entries session) + length imported))
    /\ (length imported <= length (entry_data :: rest))%nat
    /\ List.map Web.id imported = List.map uuid4 (seq 0 (length imported))
    /\ Forall (fun e =>
                 blank (Web.timestamp e) = false
                 /\ strip (Web.timestamp e) = Web.timestamp e
                 /\ blank (Web.description e) = false
                 /\ strip (Web.description e) = Web.description e
                 /\ Web.severity_map (Web.severity e) = Web.severity e
                 /\ Web.parsed_time e
                    = fst (Web._parse_timestamp now (Web.timestamp e)))
              imported
    /\ (forall e,
          e ∈ imported ->
          exists t d s tv dv sv,
            Web.Object t d s ∈ entry_data :: rest
            /\ Web.text_of t "" = Some tv /\ Web.text_of d "" = Some dv
            /\ Web.text_of s "Info" = Some sv
            /\ blank tv = false /\ blank dv = false
            /\ Web.timestamp e = strip tv /\ Web.description e = strip dv
            /\ Web.severity e = Web.severity_map (strip sv))
    /\ (forall t d s tv dv sv,
          Web.Object t d s ∈ entry_data :: rest ->
          Web.text_of t "" = Some tv -> Web.text_of d "" = Some dv ->
          Web.text_of s "Info" = Some sv ->
          blank tv = false -> blank dv = false ->
          exists e,
            e ∈ imported
            /\ Web.timestamp e = strip tv /\ Web.description e = strip dv
            /\ Web.severity e = Web.severity_map (strip sv)).
Proof.
  exists (Web.import_entries now uuid4 0 (entry_data :: rest)).
  destruct (import_entries_spec now uuid4 0 (entry_data :: rest))
    as (Hl & Hid & Hall).
  split; [|split; [done|split; [done|split; [done|split]]]].
  - unfold Web.import_csv. rewrite length_app.
    unfold Web.get_session_logs at 2. by rewrite length_map.
  - intros e. apply import_entries_sound.
  - intros t d s tv dv sv. apply import_entries_complete.
Qed.

(** ** The edit dialog *)

Lemma known_severity_inv (severity : string) :
  known_severity severity = true ->
  severity = "Critical" \/ severity = "High" \/ severity = "Medium"
  \/ severity = "Low" \/ severity = "Info".
Proof.
  unfold known_severity. rewrite !orb_true_iff, !String.eqb_eq. tauto.
Qed.

Lemma known_severity_map (severity_text : string) :
  known_severity (Desktop.severity_map severity_text) = true.
Proof.
  unfold Desktop.severity_map.
  repeat match goal with
         | |- context [if String.eqb ?a ?b then _ else _] =>
             destruct (String.eqb a b); [reflexivity|]
         end.
  reflexivity.
Qed.

Lemma label_is_not_known (a b : string) :
  known_severity a = true -> known_severity b = true ->
  String.eqb a (Desktop.severity_emoji_map b) = false.
Proof.
  intros Ha%known_severity_inv Hb%known_severity_inv.
  destruct Ha as [->|[->|[->|[->| ->]]]], Hb as [->|[->|[->|[->| ->]]]];
    vm_compute; reflexivity.
Qed.

Lemma find_entry_None (i : nat) (v0 v1 v2 : tk_value)
    (entries : list Desktop.LogEntry) :
  Forall (fun e => text_eq (Desktop.severity e) v1 = false) entries ->
  Desktop.find_entry i (v0, v1, v2) entries = None.
Proof.
  intros H. revert i. induction H as [|e entries He _ IH]; intros i; [done|].
  cbn [Desktop.find_entry]. rewrite He, andb_false_r. cbn [andb]. apply IH.
Qed.

(** X5.  In a timeline whose severities are among the five of the combo
    box, as every entry made by [add_log_entry] is, a sort refreshes the
    rows with the pictograph labels, and then a double click on a row
    opens no edit dialog: [edit_selected_entry] looks for an entry whose
    severity is the label of the row, and finds none. *)
Theorem edit_dialog_stays_closed_after_sort (self : Desktop.State) :
  Forall (fun e => known_severity (Desktop.severity e) = true)
         (Desktop.log_entries self) ->
  (forall now timestamp_var description_text severity_var,
     Forall (fun e => known_severity (Desktop.severity e) = true)
            (Desktop.log_entries
               (fst (Desktop.add_log_entry now timestamp_var description_text
                                           severity_var self))))
  /\ (forall d self' selection,
        sort_button d self = Desktop.Sorted_ self' ->
        Forall (fun e => known_severity (Desktop.severity e) = true)
               (Desktop.log_entries self')
        /\ Desktop.edit_selected_entry selection self' = None).
Proof.
  intros Hk. split.
  - intros now ts dt sv. unfold Desktop.add_log_entry.
    destruct (strip ts); [done|]. destruct (strip dt); [done|].
    cbn [fst]. rewrite auto_save_keeps_entries. cbn [Desktop.log_entries].
    apply Forall_app. split; [done|]. constructor; [|constructor].
    apply known_severity_map.
  - intros d self' selection H.
    pose proof (sort_button_inv d self) as K. rewrite H in K.
    destruct K as (r & _ & Hr & ->).
    destruct (sort_direction_spec Desktop.parsed_time d _ _ Hr) as (P & _).
    rewrite auto_save_keeps_entries. cbn [Desktop.log_entries].
    assert (Forall (fun e => known_severity (Desktop.severity e) = true) r)
      as Hkr by (by rewrite <- P).
    split; [done|].
    unfold Desktop.edit_selected_entry. destruct selection as [|sel _]; [done|].
    rewrite auto_save_keeps_tree, auto_save_keeps_entries.
    cbn [Desktop.tree Desktop.log_entries].
    destruct (Desktop.refresh_treeview r !! sel) as [[[v0 v1] v2]|] eqn:E;
      [|done].
    apply find_entry_None.
    unfold Desktop.refresh_treeview in E.
    change (List.map ?f r) with (f <$> r) in E.
    rewrite list_lookup_fmap in E.
    destruct (r !! sel) as [e|] eqn:Er; [|done]. injection E as <- <- <-.
    assert (known_severity (Desktop.severity e) = true) as He.
    { rewrite Forall_forall in Hkr. apply Hkr. by eapply list_elem_of_lookup_2. }
    eapply Forall_impl; [exact Hkr|]. intros x Hx. simpl in Hx.
    unfold _convert_stringval at 1.
    destruct (int_text _); cbn [text_eq]; [done|].
    by apply label_is_not_known.
Qed.

(** The instance of the three entries, sorted in ascending order, and a
    double click on the first row. *)
Lemma edit_dialog_stays_closed_after_sort_witness :
  let self' :=
    default three_entries (after (Desktop.sort_ascending three_entries)) in
  Desktop.sort_ascending three_entries = Desktop.Sorted_ self'
  /\ Desktop.edit_selected_entry [0%nat] self' = None
  /\ Desktop.tree self' !! 0%nat
     = Some ("2024-01-14 09:00:00", "🔴 Critical", "second event")
  /\ option_map Desktop.severity (Desktop.log_entries self' !! 0%nat)
     = Some "Critical".
Proof.
  intros self'.
  assert (Desktop.sort_ascending three_entries = Desktop.Sorted_ self') as E
      by (vm_compute; reflexivity).
  destruct (edit_dialog_stays_closed_after_sort three_entries) as [_ H].
  { apply (Forall_of_forallb
             (fun e => known_severity (Desktop.severity e))); [done|].
    vm_compute; reflexivity. }
  split; [exact E|]. split; [exact (proj2 (H Desktop.asc self' [0%nat] E))|].
  split; vm_compute; reflexivity.
Defined.

(** ** The sorted flag *)

Lemma descending_by_time_trans {E : Type} (time : E -> datetime) :
  Transitive (flip (ascending (by_time time))).
Proof.
  intros x y z Hxy Hyz. unfold flip in *.
  by apply (ascending_by_time_trans time z y x).
Qed.

Lemma delete_first_StronglySorted (R : relation Desktop.LogEntry)
    (v0 v2 : tk_value) (entries : list Desktop.LogEntry) :
  StronglySorted R entries ->
  StronglySorted R (Desktop.delete_first v0 v2 entries).
Proof.
  induction 1 as [|e entries Hs IH He]; cbn [Desktop.delete_first];
    [constructor|].
  destruct (_ && _); [done|]. constructor; [done|].
  rewrite Forall_forall in *. intros x Hx. apply He.
  clear -Hx. induction entries as [|y entries IH];
    cbn [Desktop.delete_first] in *; [done|].
  destruct (_ && _); [by right|].
  apply elem_of_cons in Hx as [->|Hx]; [by left|right; auto].
Qed.

Lemma delete_first_time_ordered (v0 v2 : tk_value)
    (entries : list Desktop.LogEntry) :
  time_ordered entries -> time_ordered (Desktop.delete_first v0 v2 entries).
Proof.
  intros [H|H]; [left|right].
  - apply Sorted.StronglySorted_Sorted, delete_first_StronglySorted.
    apply Sorted.Sorted_StronglySorted; [|done].
    apply (ascending_by_time_trans Desktop.parsed_time).
  - apply Sorted.StronglySorted_Sorted, delete_first_StronglySorted.
    apply Sorted.Sorted_StronglySorted; [|done].
    apply (descending_by_time_trans Desktop.parsed_time).
Qed.

Lemma delete_first_keys (v0 v2 : string) (entries : list Desktop.LogEntry) :
  (v0, v2) ∈ List.map entry_key entries ->
  Permutation (List.map entry_key entries)
              ((v0, v2)
               :: List.map entry_key
                    (Desktop.delete_first (TkText v0) (TkText v2) entries)).
Proof.
  induction entries as [|e entries IH];
    cbn [Desktop.delete_first List.map text_eq];
    [by intros ?%elem_of_nil|].
  destruct (String.eqb_spec (Desktop.timestamp e) v0) as [E0|E0];
    destruct (String.eqb_spec (Desktop.description e) v2) as [E2|E2];
    cbn [andb List.map];
    try (intros [[=]|H]%elem_of_cons; try congruence;
         rewrite (IH H) at 1; apply perm_swap).
  intros _. unfold entry_key at 1. by rewrite E0, E2.
Qed.

Lemma delete_first_plain (v0 v2 : tk_value) (entries : list Desktop.LogEntry) :
  plain_texts entries -> plain_texts (Desktop.delete_first v0 v2 entries).
Proof.
  induction 1 as [|e entries He Hs IH]; cbn [Desktop.delete_first];
    [constructor|].
  destruct (_ && _); [exact Hs|]. by constructor.
Qed.

Lemma plain_textsb_sound (entries : list Desktop.LogEntry) :
  plain_textsb entries = true -> plain_texts entries.
Proof.
  apply Forall_of_forallb. intros e.
  by intros [H1%negb_true_iff H2%negb_true_iff]%andb_true_iff.
Qed.

Lemma time_ordered_comparable (entries : list Desktop.LogEntry) :
  time_ordered entries ->
  comparable (List.map Desktop.parsed_time entries).
Proof.
  intros [H|H].
  - by apply (ascending_comparable Desktop.parsed_time).
  - apply (comparable_perm Desktop.parsed_time (rev entries));
      [symmetry; apply Permutation_rev|].
    apply (ascending_comparable Desktop.parsed_time).
    rewrite rev_alt. exact (Sorted_reverse _ _ H).
Qed.

Lemma sort_total_when_ordered (self : Desktop.State) :
  time_ordered (Desktop.log_entries self) ->
  Desktop.sort_ascending self <> Desktop.SortFailed
  /\ Desktop.sort_descending self <> Desktop.SortFailed
  /\ Desktop.sort_logs self <> Desktop.SortFailed.
Proof.
  intros Hc%time_ordered_comparable.
  destruct (sorted_by_time_total Desktop.parsed_time _ Hc) as [a Ha].
  destruct (sorted_reverse_by_time_total Desktop.parsed_time _ Hc) as [b Hb].
  unfold Desktop.sort_ascending, Desktop.sort_descending, Desktop.sort_logs.
  change Desktop.__lt__ with (by_time Desktop.parsed_time).
  rewrite Ha, Hb. by destruct (Desktop.log_entries self).
Qed.

Lemma flag_holds_unsorted (self : Desktop.State) :
  Desktop.is_sorted self = false -> flag_holds self.
Proof. unfold flag_holds. congruence. Qed.

Lemma flag_holds_auto_save (self : Desktop.State) :
  flag_holds self -> flag_holds (Desktop.auto_save_logs_to_csv self).
Proof.
  unfold flag_holds. destruct (auto_save_keeps_flags self) as (-> & _).
  by rewrite auto_save_keeps_entries, auto_save_keeps_tree.
Qed.

Lemma refresh_treeview_keys (entries : list Desktop.LogEntry) :
  List.map row_key (Desktop.refresh_treeview entries)
  = List.map entry_key entries.
Proof.
  unfold Desktop.refresh_treeview. rewrite List.map_map. done.
Qed.

Lemma flag_holds_sorted (entries : list Desktop.LogEntry) d name files :
  time_ordered entries ->
  flag_holds (Desktop.mkState entries true d name
                (Desktop.refresh_treeview entries) files).
Proof.
  intros H _. split; [done|]. simpl. by rewrite refresh_treeview_keys.
Qed.

Lemma reachable_plain (self : Desktop.State) :
  reachable self -> plain_texts (Desktop.log_entries self).
Proof.
  induction 1 as
    [ files
    | now ts dt sv self _ IH Hp
    | self self' _ IH Hs
    | self self' _ IH Hs
    | self self' _ IH Hs
    | self entries _ IH Hf P
    | confirm self _ IH
    | selection confirm self _ IH
    | now index ts sv dt self _ IH Hp
    | now text self self' _ IH Hi Hp
    | confirm self _ IH
    | name self _ IH ]; try done.
  - constructor.
  - pose proof (sort_button_inv Desktop.asc self) as K. simpl in K.
    rewrite Hs in K. destruct K as (r & _ & Hr & ->).
    rewrite auto_save_keeps_entries. cbn [Desktop.log_entries].
    unfold plain_texts. by rewrite <- (sorted_perm _ _ _ Hr).
  - pose proof (sort_button_inv Desktop.desc self) as K. simpl in K.
    rewrite Hs in K. destruct K as (r & _ & Hr & ->).
    rewrite auto_save_keeps_entries. cbn [Desktop.log_entries].
    destruct (sort_direction_spec Desktop.parsed_time Desktop.desc _ _ Hr)
      as (P & _).
    unfold plain_texts. by rewrite <- P.
  - unfold Desktop.sort_logs in Hs.
    destruct (Desktop.log_entries self) as [|e l] eqn:E; [done|].
    destruct (sorted Desktop.__lt__ (e :: l)) as [r|] eqn:Hr; [|done].
    injection Hs as <-. rewrite auto_save_keeps_entries.
    cbn [Desktop.log_entries].
    unfold plain_texts. by rewrite <- (sorted_perm _ _ _ Hr).
  - cbn [Desktop.log_entries]. unfold plain_texts. by rewrite <- P.
  - unfold Desktop.clear_logs.
    destruct (Desktop.log_entries self) eqn:E; [by rewrite E|].
    destruct confirm; [|by rewrite E].
    rewrite auto_save_keeps_entries. constructor.
  - unfold Desktop.delete_selected_entry.
    destruct selection as [|sel ?]; [done|]. destruct confirm; [|done].
    destruct (Desktop.tree self !! sel) as [[[s0 s1] s2]|]; [|done].
    cbn [fst]. rewrite auto_save_keeps_entries. cbn [Desktop.log_entries].
    by apply delete_first_plain.
  - unfold Desktop.new_investigation. destruct confirm; [|done]. constructor.
  - unfold Desktop.start_investigation. by destruct (strip name).
Qed.

Lemma reachable_flag_holds (self : Desktop.State) :
  reachable self -> flag_holds self.
Proof.
  induction 1 as
    [ files
    | now ts dt sv self _ IH _
    | self self' _ IH Hs
    | self self' _ IH Hs
    | self self' _ IH Hs
    | self entries _ IH Hf P
    | confirm self _ IH
    | selection confirm self R IH
    | now index ts sv dt self _ IH _
    | now text self self' _ IH Hi _
    | confirm self _ IH
    | name self _ IH ].
  - by apply flag_holds_unsorted.
  - unfold Desktop.add_log_entry.
    destruct (strip ts); [done|]. destruct (strip dt); [done|].
    by apply flag_holds_auto_save, flag_holds_unsorted.
  - pose proof (sort_button_inv Desktop.asc self) as K. simpl in K.
    rewrite Hs in K. destruct K as (r & _ & Hr & ->).
    apply flag_holds_auto_save, flag_holds_sorted. left.
    by apply (sorted_by_time_spec Desktop.parsed_time) in Hr as (_ & S & _).
  - pose proof (sort_button_inv Desktop.desc self) as K. simpl in K.
    rewrite Hs in K. destruct K as (r & _ & Hr & ->).
    apply flag_holds_auto_save, flag_holds_sorted. right.
    by apply (sorted_reverse_by_time_spec Desktop.parsed_time) in Hr
        as (_ & S & _).
  - unfold Desktop.sort_logs in Hs.
    destruct (Desktop.log_entries self) as [|e l] eqn:E; [done|].
    destruct (sorted Desktop.__lt__ (e :: l)) as [r|] eqn:Hr; [|done].
    injection Hs as <-.
    apply flag_holds_auto_save, flag_holds_sorted. left.
    by apply (sorted_by_time_spec Desktop.parsed_time) in Hr as (_ & S & _).
  - destruct (Desktop.is_sorted self) eqn:Es;
      [|by apply flag_holds_unsorted].
    destruct (IH Es) as [Ho _].
    destruct (sort_total_when_ordered self Ho) as (? & ? & ?).
    by destruct Hf as [?|[?|?]].
  - unfold Desktop.clear_logs.
    destruct (Desktop.log_entries self); [done|]. destruct confirm; [|done].
    by apply flag_holds_auto_save, flag_holds_unsorted.
  - apply reachable_plain in R.
    unfold Desktop.delete_selected_entry.
    destruct selection as [|sel ?]; [done|]. destruct confirm; [|done].
    destruct (Desktop.tree self !! sel) as [[[v0 v1] v2]|] eqn:E; [|done].
    cbn [fst]. apply flag_holds_auto_save. intros Es. simpl in Es.
    destruct (IH Es) as [Ho Hp]. simpl. split.
    + by apply delete_first_time_ordered.
    + assert ((v0, v2) ∈ List.map entry_key (Desktop.log_entries self)) as Hin.
      { rewrite <- Hp. change (v0, v2) with (row_key (v0, v1, v2)).
        apply list_elem_of_fmap_2. by eapply list_elem_of_lookup_2. }
      assert (reads_as_int v0 = false /\ reads_as_int v2 = false) as [H0 H2].
      { apply list_elem_of_fmap in Hin as (e & [= -> ->] & He).
        unfold plain_texts in R. rewrite Forall_forall in R. by apply R. }
      rewrite !convert_plain by done.
      apply (Permutation_cons_inv (a := (v0, v2))).
      rewrite <- (delete_first_keys v0 v2 _ Hin), <- Hp.
      rewrite (delete_Permutation _ _ _ E) at 2. done.
  - unfold Desktop.save_changes.
    destruct (strip ts); [done|]. destruct (strip dt); [done|].
    destruct (Nat.ltb_spec index (length (Desktop.log_entries self)));
      [|done].
    destruct (Nat.ltb_spec index (length (Desktop.tree self))).
    + by apply flag_holds_auto_save, flag_holds_unsorted.
    + cbn [fst]. intros Es. simpl in Es. destruct (IH Es) as [_ Hp].
      apply Permutation_length in Hp. rewrite !length_map in Hp. lia.
  - unfold Desktop.import_csv in Hi.
    destruct (DictReader text) as [rows ok].
    destruct (Desktop.import_rows now rows self) as [s c].
    destruct (c && ok); [|done]. injection Hi as <-.
    by apply flag_holds_auto_save, flag_holds_unsorted.
  - unfold Desktop.new_investigation. destruct confirm; [|done].
    by apply flag_holds_unsorted.
  - unfold Desktop.start_investigation.
    destruct (strip name); [done|]. exact IH.
Qed.

(** X6.  Every export is in time order, as long as no timestamp and no
    description of the timeline comes back from the tree view as an
    integer.  In every state that the window then reaches from its start
    by [add_log_entry], the three sorts, whether they complete or raise,
    [clear_logs], [delete_selected_entry], [save_changes], an
    [import_csv] that runs to its end, [new_investigation] and
    [start_investigation], the entries that an export writes are the
    entries of the timeline in ascending or in descending order of their
    canonical times.  When the sorted flag is set they are written
    without a sort, the rows of the tree stand for the entries, and none
    of the three sorts raises. *)
Theorem exports_are_in_time_order (self : Desktop.State) :
  reachable self ->
  (forall entries,
     Desktop.entries_to_export self = Some entries ->
     Permutation (Desktop.log_entries self) entries /\ time_ordered entries)
  /\ (Desktop.is_sorted self = true ->
      Desktop.entries_to_export self = Some (Desktop.log_entries self)
      /\ Permutation (List.map row_key (Desktop.tree self))
                     (List.map entry_key (Desktop.log_entries self))
      /\ Desktop.sort_ascending self <> Desktop.SortFailed
      /\ Desktop.sort_descending self <> Desktop.SortFailed
      /\ Desktop.sort_logs self <> Desktop.SortFailed).
Proof.
  intros H%reachable_flag_holds. unfold flag_holds in H. split.
  - intros entries. unfold Desktop.entries_to_export.
    destruct (Desktop.is_sorted self).
    + intros [= <-]. by destruct H.
    + intros Hr. split; [by apply sorted_perm in Hr|]. left.
      by apply (sorted_by_time_spec Desktop.parsed_time) in Hr as (_ & S & _).
  - intros Es. destruct (H Es) as [Ho Hp].
    unfold Desktop.entries_to_export. rewrite Es.
    split; [done|]. split; [done|]. by apply sort_total_when_ordered.
Qed.

(** The instance of the three entries sorted in descending order, of
    which the first is then deleted. *)
Lemma exports_are_in_time_order_witness :
  let sorted_state :=
    default three_entries (after (Desktop.sort_descending three_entries)) in
  let self := fst (Desktop.delete_selected_entry [0%nat] true sorted_state) in
  Desktop.is_sorted self = true
  /\ List.map Desktop.description (Desktop.log_entries self)
     = ["third event"; "second event"]
  /\ Desktop.entries_to_export self = Some (Desktop.log_entries self)
  /\ time_ordered (Desktop.log_entries self).
Proof.
  intros sorted_state self.
  assert (reachable self) as R.
  { apply reach_delete_selected_entry.
    apply (reach_sort_descending three_entries); [|vm_compute; reflexivity].
    repeat (apply reach_add_log_entry;
            [|apply plain_textsb_sound; vm_compute; reflexivity]).
    apply reach_start. }
  destruct (exports_are_in_time_order self R) as [He Hs].
  assert (Desktop.is_sorted self = true) as Es by (vm_compute; reflexivity).
  destruct (Hs Es) as (E & _).
  split; [exact Es|]. split; [vm_compute; reflexivity|].
  split; [exact E|]. by apply (He _ E).
Defined.

(** Without the condition the property fails.  Two entries of a
    severity that is not among the five are imported, the first with the
    number 4624 as its description, and sorted.  Deleting the row of the
    first takes the row and leaves the entry, since the description
    comes back as an integer.  A double click on the row that is left
    opens the edit dialog for the second entry, at index 1;
    [save_changes] replaces that entry, finds no row at that index and
    stops before the flag is cleared: the flag is set, and the export
    lists the entry of 2024 before the entry of 2023. *)
Example export_out_of_order_after_numeric_description :
  let text :=
    "Timestamp,Severity,Description" +:+ String LF
      ("2024-01-14 09:00:00,Urgent,4624" +:+ String LF
         ("2024-01-15 10:00:00,Urgent,second event" +:+ String LF "")) in
  let s1 := fst (Desktop.import_csv a_now (Some text) (Desktop.start ∅)) in
  let s2 := default s1 (after (Desktop.sort_ascending s1)) in
  let s3 := fst (Desktop.delete_selected_entry [0%nat] true s2) in
  let s4 := fst (Desktop.save_changes a_now 1 "2023-01-01 00:00:00" "Urgent"
                   "rewritten" s3) in
  List.map Desktop.description (Desktop.log_entries s2)
  = ["4624"; "second event"]
  /\ Desktop.sort_ascending s1 = Desktop.Sorted_ s2
  /\ Desktop.log_entries s3 = Desktop.log_entries s2
  /\ Desktop.tree s3 = [("2024-01-15 10:00:00", "Urgent", "second event")]
  /\ option_map fst (Desktop.edit_selected_entry [0%nat] s3) = Some 1%nat
  /\ Desktop.is_sorted s4 = true
  /\ option_map (List.map Desktop.timestamp) (Desktop.entries_to_export s4)
     = Some ["2024-01-14 09:00:00"; "2023-01-01 00:00:00"].
Proof. repeat split; vm_compute; reflexivity. Qed.

(** ** The text of the clock and the normaliser *)

(** *** Digits *)

Lemma code_digit_char (n : Z) : code (digit_char n) = 48 + n mod 10.
Proof.
  unfold code, digit_char.
  pose proof (Z.mod_pos_bound n 10 ltac:(lia)).
  rewrite N_ascii_embedding by lia. lia.
Qed.

Lemma isdigit_digit_char (n : Z) : isdigit (digit_char n) = true.
Proof.
  unfold isdigit. rewrite code_digit_char.
  pose proof (Z.mod_pos_bound n 10 ltac:(lia)). lia.
Qed.

Lemma zpad_2 (n : Z) :
  zpad 2 n = String (digit_char (n / 10)) (String (digit_char n) EmptyString).
Proof. reflexivity. Qed.

Lemma zpad_4 (n : Z) :
  zpad 4 n
  = String (digit_char (n / 10 / 10 / 10))
      (String (digit_char (n / 10 / 10))
         (String (digit_char (n / 10)) (String (digit_char n) EmptyString))).
Proof. reflexivity. Qed.

Lemma digits_value_app (acc : Z) (a b : string) :
  digits_value acc (a +:+ b) = digits_value (digits_value acc a) b.
Proof.
  revert acc; induction a as [|c a IH]; intros acc; [done|].
  rewrite append_cons. simpl. apply IH.
Qed.

Lemma digits_value_zpad (w : nat) (n : Z) :
  0 <= n < 10 ^ Z.of_nat w -> digits_value 0 (zpad w n) = n.
Proof.
  revert n; induction w as [|w IH]; intros n Hn.
  { simpl in *. lia. }
  rewrite Nat2Z.inj_succ, Z.pow_succ_r in Hn by lia.
  cbn [zpad]. rewrite digits_value_app, IH.
  - cbn [digits_value]. rewrite code_digit_char.
    pose proof (Z.div_mod n 10 ltac:(lia)). lia.
  - split; [apply Z.div_pos; lia|]. apply Z.div_lt_upper_bound; lia.
Qed.

Lemma lstrip_digit (c : ascii) (s : string) :
  isdigit c = true -> lstrip (String c s) = String c s.
Proof.
  intros H. simpl. by destruct (digit_not_Z_LF_space c H) as (_ & _ & ->).
Qed.

Lemma int_zpad (w : nat) (n : Z) :
  0 <= n < 10 ^ Z.of_nat (S w) -> int (zpad (S w) n) = n.
Proof.
  intros Hn. unfold int.
  assert (lstrip (zpad (S w) n) = zpad (S w) n) as ->.
  { pose proof (zpad_length (S w) n) as Hl.
    assert (exists c s, zpad (S w) n = String c s /\ isdigit c = true)
      as (c & s & -> & Hc); [|by apply lstrip_digit].
    clear Hn Hl. revert n; induction w as [|w IH]; intros n.
    - exists (digit_char n), EmptyString. split; [done|].
      apply isdigit_digit_char.
    - destruct (IH (n / 10)) as (c & s & E & Hc).
      change (zpad (S (S w)) n)
        with (zpad (S w) (n / 10) +:+ String (digit_char n) EmptyString).
      rewrite E. by exists c, (s +:+ String (digit_char n) EmptyString). }
  by apply digits_value_zpad.
Qed.

(** *** Matching the text of a field *)

Lemma take_all_but (p rest : string) :
  take (String.length (p +:+ rest) - String.length rest) (p +:+ rest) = p.
Proof.
  rewrite append_length.
  replace (String.length p + String.length rest - String.length rest)%nat
    with (String.length p) by lia.
  induction p as [|c p IH]; [by destruct rest|].
  rewrite append_cons. simpl. by rewrite IH.
Qed.

Lemma takes_then (g k : regex) (name : ascii) (text rest : string) :
  takes g name text -> refuses_digits k ->
  matches (Seq g k) (text +:+ rest)
  = List.map (fun m => ((name, text) :: fst m, snd m)) (matches k rest).
Proof.
  intros Hg Hk. destruct (Hg rest) as (others & E & Ho).
  cbn [matches]. rewrite E. cbn [flat_map fst snd].
  assert (flat_map
            (fun m1 : captures * string =>
               List.map (fun m2 : captures * string =>
                           (app (fst m1) (fst m2), snd m2))
                        (matches k (snd m1))) others = []) as ->.
  { clear E. induction Ho as [|m others (b & s & Hm & Hb) _ IH]; [done|].
    cbn [flat_map]. rewrite IH, Hm, (Hk b s Hb). done. }
  by rewrite app_nil_r.
Qed.

Lemma takes_last (g : regex) (name : ascii) (text rest : string) :
  takes g name text ->
  re_match (Seq g Eps) (text +:+ rest) = Some ([(name, text)], rest).
Proof.
  intros Hg. destruct (Hg rest) as (others & E & _).
  unfold re_match. cbn [matches]. rewrite E. done.
Qed.


(** *** Patterns that read a bounded number of characters *)

Lemma take_app_le (n : nat) (s rest : string) :
  (n <= String.length s)%nat -> take n (s +:+ rest) = take n s.
Proof.
  revert s; induction n as [|n IH]; intros [|c s] H; simpl in *; try lia.
  - by destruct rest.
  - done.
  - rewrite IH; [done|lia].
Qed.

Lemma matches_consumes (r : regex) (s : string) (m : captures * string) :
  simple r = true -> In m (matches r s) ->
  (String.length (snd m) <= String.length s
   /\ String.length s <= String.length (snd m) + width r)%nat.
Proof.
  revert s m; induction r as [|p|a IHa b IHb|a IHa b IHb|p lo hi| |n r IH];
    intros s m Hs; simpl in *; try done.
  - intros [<-|[]]. simpl. lia.
  - destruct s as [|c s]; [done|].
    destruct (p c); [|done]. intros [<-|[]]. simpl. lia.
  - apply andb_true_iff in Hs as [Ha Hb].
    intros (m1 & H1 & (m2 & <- & H2)%in_map_iff)%in_flat_map.
    specialize (IHa _ _ Ha H1). specialize (IHb _ _ Hb H2). simpl. lia.
  - apply andb_true_iff in Hs as [Ha Hb].
    intros [H|H]%in_app_or;
      [specialize (IHa _ _ Ha H)|specialize (IHb _ _ Hb H)]; lia.
  - intros (m1 & <- & H1)%in_map_iff. specialize (IH _ _ Hs H1).
    simpl. lia.
Qed.

Lemma matches_frame (r : regex) (s rest : string) :
  simple r = true -> (width r <= String.length s)%nat ->
  matches r (s +:+ rest)
  = List.map (fun m : captures * string => (fst m, snd m +:+ rest))
             (matches r s).
Proof.
  revert s; induction r as [|p|a IHa b IHb|a IHa b IHb|p lo hi| |n r IH];
    intros s Hs Hw; simpl in *; try done.
  - destruct s as [|c s]; [simpl in Hw; lia|].
    rewrite append_cons. by destruct (p c).
  - apply andb_true_iff in Hs as [Ha Hb].
    rewrite IHa by (done || lia).
    rewrite !flat_map_concat_map, List.map_map, concat_map, List.map_map.
    f_equal. apply map_ext_in. intros m1 H1. cbn [fst snd].
    destruct (matches_consumes a s m1 Ha H1) as [_ Hl].
    rewrite IHb by (done || lia). by rewrite !List.map_map.
  - apply andb_true_iff in Hs as [Ha Hb].
    rewrite IHa, IHb by (done || lia). by rewrite List.map_app.
  - rewrite IH by done. rewrite !List.map_map.
    apply map_ext_in. intros m H. cbn [fst snd].
    destruct (matches_consumes r s m Hs H) as [Hl _].
    rewrite !append_length.
    replace (String.length s + String.length rest
             - (String.length (snd m) + String.length rest))%nat
      with (String.length s - String.length (snd m))%nat by lia.
    rewrite take_app_le by lia. done.
Qed.

Lemma takes_of_check (g : regex) (name : ascii) (text : string) :
  takes_check g name text = true -> takes g name text.
Proof.
  unfold takes_check.
  intros [[[Hs Hw]%andb_true_iff Hh]%andb_true_iff Ho]%andb_true_iff rest.
  apply Nat.leb_le in Hw. rewrite matches_frame by done.
  destruct (matches g text) as [|[caps [|? ?]] others]; try done.
  apply bool_decide_eq_true in Hh as ->.
  eexists. split; [reflexivity|].
  cbn [tl] in Ho. rewrite forallb_forall in Ho.
  apply Forall_forall. intros m (m0 & -> & H0)%list_elem_of_fmap.
  apply list_elem_of_In, Ho in H0. cbn [snd].
  destruct (snd m0) as [|b t]; [done|].
  by exists b, (t +:+ rest).
Qed.

Lemma takes_range (g : regex) (name : ascii) (w : nat) (lo hi : Z) :
  forallb (fun i => takes_check g name (zpad w (lo + Z.of_nat i)))
          (seq 0 (Z.to_nat (hi - lo + 1))) = true ->
  forall v, lo <= v <= hi -> takes g name (zpad w v).
Proof.
  intros H v Hv. apply takes_of_check.
  rewrite forallb_forall in H.
  replace v with (lo + Z.of_nat (Z.to_nat (v - lo))) by lia.
  apply H, in_seq. lia.
Qed.

Lemma takes_year (v : Z) : 0 <= v <= 9999 -> takes (field "Y") "Y" (zpad 4 v).
Proof. apply takes_range. vm_compute. reflexivity. Qed.

Lemma takes_month (v : Z) : 1 <= v <= 12 -> takes (field "m") "m" (zpad 2 v).
Proof. apply takes_range. vm_compute. reflexivity. Qed.

Lemma takes_day (v : Z) : 1 <= v <= 31 -> takes (field "d") "d" (zpad 2 v).
Proof. apply takes_range. vm_compute. reflexivity. Qed.

Lemma takes_hour (v : Z) : 0 <= v <= 23 -> takes (field "H") "H" (zpad 2 v).
Proof. apply takes_range. vm_compute. reflexivity. Qed.

Lemma takes_minute (v : Z) : 0 <= v <= 59 -> takes (field "M") "M" (zpad 2 v).
Proof. apply takes_range. vm_compute. reflexivity. Qed.

Lemma takes_second (v : Z) : 0 <= v <= 59 -> takes (field "S") "S" (zpad 2 v).
Proof. apply takes_range. vm_compute. reflexivity. Qed.

(** *** Literal characters and blanks *)

Lemma map_pair_id {A B : Type} (l : list (A * B)) :
  List.map (fun m : A * B => (fst m, snd m)) l = l.
Proof. induction l as [|[a b] l IH]; simpl; [done|]. by rewrite IH. Qed.

Lemma lit_then (c x : ascii) (k : regex) (s : string) :
  is_char_nocase c x = true ->
  matches (Seq (lit c) k) (String x s) = matches k s.
Proof.
  intros H. unfold lit. cbn [matches]. rewrite H. cbn [flat_map fst snd app].
  by rewrite app_nil_r, map_pair_id.
Qed.

Lemma lit_fails (c x : ascii) (k : regex) (s : string) :
  is_char_nocase c x = false -> matches (Seq (lit c) k) (String x s) = [].
Proof. intros H. unfold lit. cbn [matches]. by rewrite H. Qed.

Lemma isdigit_cases (b : ascii) :
  isdigit b = true ->
  In b ["0"; "1"; "2"; "3"; "4"; "5"; "6"; "7"; "8"; "9"]%char.
Proof.
  destruct b as [[] [] [] [] [] [] [] []]; vm_compute; intros H;
    try discriminate H; tauto.
Qed.

Lemma lit_refuses_digits (c : ascii) (k : regex) :
  forallb (fun b => negb (is_char_nocase c b))
          ["0"; "1"; "2"; "3"; "4"; "5"; "6"; "7"; "8"; "9"]%char = true ->
  refuses_digits (Seq (lit c) k).
Proof.
  intros H b s Hb%isdigit_cases. apply lit_fails.
  rewrite forallb_forall in H. apply H in Hb. by destruct (is_char_nocase c b).
Qed.

Lemma ws_then (c b : ascii) (k : regex) (s : string) :
  isspace c = true -> isdigit b = true ->
  matches (Seq ws k) (String c (String b s)) = matches k (String b s).
Proof.
  intros Hc Hb. destruct (digit_not_Z_LF_space b Hb) as (_ & _ & Hs).
  unfold ws. cbn [matches default String.length run_length].
  rewrite Hc, Hs. cbn [rep_candidates Nat.leb Nat.eqb drop flat_map fst snd app].
  by rewrite app_nil_r, map_pair_id.
Qed.

Lemma ws_refuses_digits (k : regex) : refuses_digits (Seq ws k).
Proof.
  intros b s Hb. destruct (digit_not_Z_LF_space b Hb) as (_ & _ & Hs).
  unfold ws. cbn [matches default String.length run_length]. rewrite Hs.
  done.
Qed.

Lemma zpad_head (w : nat) (n : Z) :
  exists b s, zpad (S w) n = String b s /\ isdigit b = true.
Proof.
  revert n; induction w as [|w IH]; intros n.
  - exists (digit_char n), EmptyString. split; [done|].
    apply isdigit_digit_char.
  - destruct (IH (n / 10)) as (c & s & E & Hc).
    change (zpad (S (S w)) n)
      with (zpad (S w) (n / 10) +:+ String (digit_char n) EmptyString).
    rewrite E. by exists c, (s +:+ String (digit_char n) EmptyString).
Qed.

Lemma ws_fails (c : ascii) (k : regex) (s : string) :
  isspace c = false -> matches (Seq ws k) (String c s) = [].
Proof.
  intros Hs. unfold ws. cbn [matches default String.length run_length].
  by rewrite Hs.
Qed.

(** *** Walking along a pattern *)

Lemma re_match_takes (g k : regex) (name : ascii) (text rest : string) :
  takes g name text -> refuses_digits k ->
  re_match (Seq g k) (text +:+ rest)
  = option_map (found_first name text) (re_match k rest).
Proof.
  intros Hg Hk. unfold re_match. rewrite (takes_then g k name) by done.
  by destruct (matches k rest).
Qed.

Lemma re_match_last (g : regex) (name : ascii) (text rest : string) :
  takes g name text ->
  re_match (Seq g Eps) (text +:+ rest) = Some ([(name, text)], rest).
Proof. apply takes_last. Qed.

Lemma re_match_lit (c x : ascii) (k : regex) (s : string) :
  is_char_nocase c x = true ->
  re_match (Seq (lit c) k) (String x s) = re_match k s.
Proof. intros H. unfold re_match. by rewrite lit_then. Qed.

Lemma re_match_lit_fails (c x : ascii) (k : regex) (s : string) :
  is_char_nocase c x = false -> re_match (Seq (lit c) k) (String x s) = None.
Proof. intros H. unfold re_match. by rewrite lit_fails. Qed.

Lemma re_match_ws (c : ascii) (k : regex) (w : nat) (n : Z) (rest : string) :
  isspace c = true ->
  re_match (Seq ws k) (String c (zpad (S w) n +:+ rest))
  = re_match k (zpad (S w) n +:+ rest).
Proof.
  intros Hc. destruct (zpad_head w n) as (b & t & E & Hb).
  unfold re_match. rewrite E, append_cons. by rewrite ws_then.
Qed.

Lemma re_match_ws_fails (c : ascii) (k : regex) (s : string) :
  isspace c = false -> re_match (Seq ws k) (String c s) = None.
Proof. intros H. unfold re_match. by rewrite ws_fails. Qed.

(** *** The three formats of the clock texts *)

Lemma valid_clock_ranges (d : datetime) :
  valid_clock d ->
  1000 <= year d <= 9999 /\ 1 <= month d <= 12 /\ 1 <= day d <= 31
  /\ 0 <= hour d <= 23 /\ 0 <= minute d <= 59 /\ 0 <= second d <= 59
  /\ 0 <= microsecond d <= 999999 /\ tzinfo d = None
  /\ make_datetime (year d) (month d) (day d) (hour d) (minute d) (second d)
                   0 None = Some (to_the_second d).
Proof.
  intros [H Hy]. unfold make_datetime in *.
  destruct (between 1 9999 (year d)) eqn:E1; [|done].
  destruct (between 1 12 (month d)) eqn:E2; [|done].
  destruct (between 1 (days_in_month (year d) (month d)) (day d)) eqn:E3;
    [|done].
  destruct (between 0 23 (hour d)) eqn:E4; [|done].
  destruct (between 0 59 (minute d)) eqn:E5; [|done].
  destruct (between 0 59 (second d)) eqn:E6; [|done].
  destruct (between 0 999999 (microsecond d)) eqn:E7; [|done].
  simpl in H. injection H as H.
  assert (tzinfo d = None) as Htz by (by rewrite <- H).
  unfold between in *.
  assert (days_in_month (year d) (month d) <= 31) as Hdim.
  { unfold days_in_month.
    repeat match goal with |- context [if ?b then _ else _] => destruct b end;
      lia. }
  repeat split; try lia; [done|].
  simpl. unfold to_the_second. by rewrite Htz.
Qed.

Ltac sep_refuses :=
  first [ apply ws_refuses_digits
        | apply lit_refuses_digits; vm_compute; reflexivity ].

Ltac walk :=
  repeat first
    [ rewrite re_match_lit by (vm_compute; reflexivity)
    | rewrite re_match_lit_fails by (vm_compute; reflexivity)
    | rewrite re_match_ws by (vm_compute; reflexivity)
    | rewrite re_match_ws_fails by (vm_compute; reflexivity)
    | rewrite (re_match_takes _ _ "Y") by (first [apply takes_year; lia|sep_refuses])
    | rewrite (re_match_takes _ _ "m") by (first [apply takes_month; lia|sep_refuses])
    | rewrite (re_match_takes _ _ "d") by (first [apply takes_day; lia|sep_refuses])
    | rewrite (re_match_takes _ _ "H") by (first [apply takes_hour; lia|sep_refuses])
    | rewrite (re_match_takes _ _ "M") by (first [apply takes_minute; lia|sep_refuses])
    | rewrite (re_match_takes _ _ "S") by (first [apply takes_second; lia|sep_refuses])
    | rewrite (re_match_last _ "M") by (apply takes_minute; lia)
    | rewrite (re_match_last _ "S") by (apply takes_second; lia) ].

Lemma pattern_custom :
  pattern "%Y-%m-%d-%H-%M-%S"
  = Some (Seq (field "Y") (Seq (lit "-") (Seq (field "m") (Seq (lit "-")
      (Seq (field "d") (Seq (lit "-") (Seq (field "H") (Seq (lit "-")
      (Seq (field "M") (Seq (lit "-") (Seq (field "S") Eps))))))))))).
Proof. reflexivity. Qed.

Lemma strftime_custom (d : datetime) :
  strftime d "%Y-%m-%d-%H-%M-%S"
  = zpad 4 (year d) +:+ String "-" (zpad 2 (month d) +:+ String "-"
      (zpad 2 (day d) +:+ String "-" (zpad 2 (hour d) +:+ String "-"
      (zpad 2 (minute d) +:+ String "-" (zpad 2 (second d) +:+ ""))))).
Proof. reflexivity. Qed.

Lemma pattern_display :
  pattern "%Y-%m-%d %H:%M:%S"
  = Some (Seq (field "Y") (Seq (lit "-") (Seq (field "m") (Seq (lit "-")
      (Seq (field "d") (Seq ws (Seq (field "H") (Seq (lit ":")
      (Seq (field "M") (Seq (lit ":") (Seq (field "S") Eps))))))))))).
Proof. reflexivity. Qed.

Lemma strftime_display (d : datetime) :
  strftime d "%Y-%m-%d %H:%M:%S"
  = zpad 4 (year d) +:+ String "-" (zpad 2 (month d) +:+ String "-"
      (zpad 2 (day d) +:+ String " " (zpad 2 (hour d) +:+ String ":"
      (zpad 2 (minute d) +:+ String ":" (zpad 2 (second d) +:+ ""))))).
Proof. reflexivity. Qed.

Lemma pattern_local :
  pattern "%Y-%m-%dT%H:%M:%S"
  = Some (Seq (field "Y") (Seq (lit "-") (Seq (field "m") (Seq (lit "-")
      (Seq (field "d") (Seq (lit "T") (Seq (field "H") (Seq (lit ":")
      (Seq (field "M") (Seq (lit ":") (Seq (field "S") Eps))))))))))).
Proof. reflexivity. Qed.

Lemma strftime_local (d : datetime) :
  strftime d "%Y-%m-%dT%H:%M:%S"
  = zpad 4 (year d) +:+ String "-" (zpad 2 (month d) +:+ String "-"
      (zpad 2 (day d) +:+ String "T" (zpad 2 (hour d) +:+ String ":"
      (zpad 2 (minute d) +:+ String ":" (zpad 2 (second d) +:+ ""))))).
Proof. reflexivity. Qed.

Lemma pattern_minutes :
  pattern "%Y-%m-%dT%H:%M"
  = Some (Seq (field "Y") (Seq (lit "-") (Seq (field "m") (Seq (lit "-")
      (Seq (field "d") (Seq (lit "T") (Seq (field "H") (Seq (lit ":")
      (Seq (field "M") Eps))))))))).
Proof. reflexivity. Qed.

Lemma pattern_slashes :
  pattern "%Y/%m/%d %H:%M:%S"
  = Some (Seq (field "Y") (Seq (lit "/") (Seq (field "m") (Seq (lit "/")
      (Seq (field "d") (Seq ws (Seq (field "H") (Seq (lit ":")
      (Seq (field "M") (Seq (lit ":") (Seq (field "S") Eps))))))))))).
Proof. reflexivity. Qed.

Lemma six_groups (y m d h mi s : string) :
  let found := [("Y"%char, y); ("m"%char, m); ("d"%char, d); ("H"%char, h);
                ("M"%char, mi); ("S"%char, s)] in
  group_int "Y" 1900 found = int y /\ group_int "m" 1 found = int m
  /\ group_int "d" 1 found = int d /\ group_int "H" 0 found = int h
  /\ group_int "M" 0 found = int mi /\ group_int "S" 0 found = int s
  /\ group_fraction found = 0.
Proof. repeat split; reflexivity. Qed.

Ltac read_groups :=
  cbn [option_map found_first fst snd];
  match goal with
  | |- context [group_int "Y" 1900 [(_, ?y); (_, ?m); (_, ?d); (_, ?h);
                                    (_, ?mi); (_, ?s)]] =>
      destruct (six_groups y m d h mi s) as (-> & -> & -> & -> & -> & -> & ->)
  end;
  rewrite !int_zpad by (simpl; lia).

Lemma strptime_custom (d : datetime) :
  valid_clock d ->
  strptime (strftime d "%Y-%m-%d-%H-%M-%S") "%Y-%m-%d-%H-%M-%S"
  = Some (to_the_second d).
Proof.
  intros (Hy & Hm & Hd & Hh & Hmi & Hs & _ & _ & Hv)%valid_clock_ranges.
  unfold strptime. rewrite pattern_custom, strftime_custom.
  walk. by read_groups.
Qed.

Lemma strptime_display (d : datetime) :
  valid_clock d ->
  strptime (strftime d "%Y-%m-%d %H:%M:%S") "%Y-%m-%d %H:%M:%S"
  = Some (to_the_second d).
Proof.
  intros (Hy & Hm & Hd & Hh & Hmi & Hs & _ & _ & Hv)%valid_clock_ranges.
  unfold strptime. rewrite pattern_display, strftime_display.
  walk. by read_groups.
Qed.

Lemma strptime_local (d : datetime) :
  valid_clock d ->
  strptime (strftime d "%Y-%m-%dT%H:%M:%S") "%Y-%m-%dT%H:%M:%S"
  = Some (to_the_second d).
Proof.
  intros (Hy & Hm & Hd & Hh & Hmi & Hs & _ & _ & Hv)%valid_clock_ranges.
  unfold strptime. rewrite pattern_local, strftime_local.
  walk. by read_groups.
Qed.

(** The formats that stand before the right one refuse the text. *)
Lemma custom_rejects_display (d : datetime) :
  valid_clock d ->
  rejects (strftime d "%Y-%m-%d %H:%M:%S") "%Y-%m-%d-%H-%M-%S".
Proof.
  intros (Hy & Hm & Hd & Hh & Hmi & Hs & _)%valid_clock_ranges.
  unfold rejects, strptime. rewrite pattern_custom, strftime_display.
  by walk.
Qed.

Lemma custom_rejects_local (d : datetime) :
  valid_clock d ->
  rejects (strftime d "%Y-%m-%dT%H:%M:%S") "%Y-%m-%d-%H-%M-%S".
Proof.
  intros (Hy & Hm & Hd & Hh & Hmi & Hs & _)%valid_clock_ranges.
  unfold rejects, strptime. rewrite pattern_custom, strftime_local.
  by walk.
Qed.

Lemma display_rejects_local (d : datetime) :
  valid_clock d ->
  rejects (strftime d "%Y-%m-%dT%H:%M:%S") "%Y-%m-%d %H:%M:%S".
Proof.
  intros (Hy & Hm & Hd & Hh & Hmi & Hs & _)%valid_clock_ranges.
  unfold rejects, strptime. rewrite pattern_display, strftime_local.
  by walk.
Qed.

Lemma minutes_rejects_local (d : datetime) :
  valid_clock d ->
  rejects (strftime d "%Y-%m-%dT%H:%M:%S") "%Y-%m-%dT%H:%M".
Proof.
  intros (Hy & Hm & Hd & Hh & Hmi & Hs & _)%valid_clock_ranges.
  unfold rejects, strptime. rewrite pattern_minutes, strftime_local.
  by walk.
Qed.

(** *** The clock texts are trimmed *)

Lemma rstrip_last (s : string) (c : ascii) :
  last_char s = Some c -> isspace c = false -> rstrip s = s.
Proof.
  intros Hl Hc. induction s as [|x s IH]; [done|].
  cbn [rstrip]. cbn [last_char] in Hl. destruct s as [|y s].
  - injection Hl as ->. simpl. by rewrite Hc.
  - rewrite (IH Hl). done.
Qed.

Lemma last_char_cons (c : ascii) (s : string) :
  s <> EmptyString -> last_char (String c s) = last_char s.
Proof. by destruct s. Qed.

Lemma zpad_not_empty (w : nat) (n : Z) (rest : string) :
  zpad (S w) n +:+ rest <> EmptyString.
Proof. destruct (zpad_head w n) as (b & t & -> & _). done. Qed.

Lemma last_char_zpad (w : nat) (n : Z) :
  last_char (zpad (S w) n +:+ "") = Some (digit_char n).
Proof.
  cbn [zpad]. rewrite append_assoc. rewrite last_char_app by done. done.
Qed.

Lemma strip_clock (w : nat) (n : Z) (rest : string) (c : ascii) :
  last_char (zpad (S w) n +:+ rest) = Some c -> isspace c = false ->
  strip (zpad (S w) n +:+ rest) = zpad (S w) n +:+ rest.
Proof.
  intros Hl Hc. unfold strip.
  destruct (zpad_head w n) as (b & t & E & Hb). rewrite E in *.
  rewrite append_cons in *. rewrite lstrip_digit by done.
  by apply (rstrip_last _ c).
Qed.

Ltac last_of_clock :=
  repeat first
    [ rewrite last_char_app by (first [done|apply zpad_not_empty])
    | rewrite last_char_cons by (first [done|apply zpad_not_empty]) ];
  apply last_char_zpad.

Lemma strip_custom (d : datetime) :
  strip (strftime d "%Y-%m-%d-%H-%M-%S") = strftime d "%Y-%m-%d-%H-%M-%S".
Proof.
  rewrite strftime_custom.
  apply (strip_clock _ _ _ (digit_char (second d)));
    [last_of_clock|].
  by destruct (digit_not_Z_LF_space _ (isdigit_digit_char (second d)))
    as (_ & _ & ->).
Qed.

Lemma strip_display (d : datetime) :
  strip (strftime d "%Y-%m-%d %H:%M:%S") = strftime d "%Y-%m-%d %H:%M:%S".
Proof.
  rewrite strftime_display.
  apply (strip_clock _ _ _ (digit_char (second d)));
    [last_of_clock|].
  by destruct (digit_not_Z_LF_space _ (isdigit_digit_char (second d)))
    as (_ & _ & ->).
Qed.

Lemma strip_local (d : datetime) :
  strip (strftime d "%Y-%m-%dT%H:%M:%S") = strftime d "%Y-%m-%dT%H:%M:%S".
Proof.
  rewrite strftime_local.
  apply (strip_clock _ _ _ (digit_char (second d)));
    [last_of_clock|].
  by destruct (digit_not_Z_LF_space _ (isdigit_digit_char (second d)))
    as (_ & _ & ->).
Qed.

Lemma clock_text_not_blank (d : datetime) :
  blank (strftime d "%Y-%m-%d-%H-%M-%S") = false.
Proof.
  unfold blank. rewrite strip_custom, strftime_custom.
  by destruct (zpad_head 3 (year d)) as (b & t & -> & _).
Qed.

(** X7.  The button that inserts the current time and the normaliser
    agree.  For every reading of the clock (a valid date with a year of
    four digits), the text that [insert_current_time] puts into the
    timestamp field is accepted by the first format of the list, and the
    canonical time is the reading without its fraction of a second, with
    no warning and whatever the clock shows when the entry is added.
    Adding an entry with that timestamp appends an entry with that
    canonical time. *)
Theorem inserted_current_time_is_read_back (now later : datetime)
    (description_text severity_var : string) (self : Desktop.State) :
  valid_clock now -> blank description_text = false ->
  Desktop._parse_timestamp later (Desktop.insert_current_time now)
  = (to_the_second now, [])
  /\ Desktop.add_log_entry later (Desktop.insert_current_time now)
                           description_text severity_var self
     = (Desktop.auto_save_logs_to_csv
          (Desktop.mkState
             (Desktop.log_entries self
              ++ [Desktop.mkLogEntry (Desktop.insert_current_time now)
                    (strip description_text)
                    (Desktop.severity_map severity_var) (to_the_second now)])
             false None (Desktop.investigation_name self)
             (Desktop.tree self
              ++ [(Desktop.insert_current_time now, severity_var,
                   strip description_text)])
             (Desktop.files self)),
        Desktop.NoDialog).
Proof.
  intros Hv Hb.
  assert (Desktop._parse_timestamp later (Desktop.insert_current_time now)
          = (to_the_second now, [])) as Hp.
  { unfold Desktop._parse_timestamp, Desktop.insert_current_time.
    rewrite strip_custom. unfold Desktop.formats. cbn [try_formats].
    by rewrite strptime_custom. }
  split; [exact Hp|].
  unfold Desktop.add_log_entry, Desktop.__init__.
  pose proof (clock_text_not_blank now) as Hn. unfold blank in Hn, Hb.
  unfold Desktop.insert_current_time in *. rewrite strip_custom in *.
  destruct (strftime now "%Y-%m-%d-%H-%M-%S") as [|c t] eqn:E; [done|].
  destruct (strip description_text) as [|c' t'] eqn:E'; [done|].
  by rewrite Hp.
Qed.

(** The clock of the example. *)
Lemma inserted_current_time_is_read_back_witness :
  Desktop.insert_current_time (mkdatetime 2024 1 15 14 30 25 123456 None)
  = "2024-01-15-14-30-25"
  /\ Desktop._parse_timestamp a_now "2024-01-15-14-30-25"
     = (mkdatetime 2024 1 15 14 30 25 0 None, []).
Proof.
  split; [reflexivity|].
  refine (proj1 (inserted_current_time_is_read_back
                   (mkdatetime 2024 1 15 14 30 25 123456 None) a_now
                   "event" "Info" (Desktop.start ∅) _ _)).
  - split; [reflexivity|]. simpl. lia.
  - reflexivity.
Defined.


(** *** The ISO text of the clock *)

Lemma stops_of_check (g k : regex) (text rest : string) :
  stops_check g text = true -> refuses_digits k ->
  matches (Seq g k) (text +:+ rest) = [].
Proof.
  unfold stops_check.
  intros [[Hs Hw%Nat.leb_le]%andb_true_iff Ho]%andb_true_iff Hk.
  cbn [matches]. rewrite matches_frame by done.
  rewrite forallb_forall in Ho.
  induction (matches g text) as [|m l IH]; [done|].
  cbn [List.map flat_map fst snd]. rewrite IH; [|by intros x Hx; apply Ho; right].
  specialize (Ho m (or_introl eq_refl)). destruct (snd m) as [|b t]; [done|].
  rewrite append_cons, (Hk b _ Ho). done.
Qed.

Lemma day_stops_in_year (v : Z) (k : regex) (rest : string) :
  1000 <= v <= 9999 -> refuses_digits k ->
  re_match (Seq (field "d") k) (zpad 4 v +:+ rest) = None.
Proof.
  intros Hv Hk. unfold re_match. rewrite stops_of_check; [done| |done].
  assert (forallb (fun i => stops_check (field "d") (zpad 4 (1000 + Z.of_nat i)))
                  (seq 0 (Z.to_nat 9000)) = true) as H
    by (vm_compute; reflexivity).
  rewrite forallb_forall in H.
  replace v with (1000 + Z.of_nat (Z.to_nat (v - 1000))) by lia.
  apply H, in_seq. lia.
Qed.

Lemma pattern_day_first :
  pattern "%d/%m/%Y %H:%M:%S"
  = Some (Seq (field "d") (Seq (lit "/") (Seq (field "m") (Seq (lit "/")
      (Seq (field "Y") (Seq ws (Seq (field "H") (Seq (lit ":")
      (Seq (field "M") (Seq (lit ":") (Seq (field "S") Eps))))))))))).
Proof. reflexivity. Qed.

Lemma isoformat_fraction (d : datetime) :
  tzinfo d = None -> microsecond d <> 0 ->
  isoformat d
  = zpad 4 (year d) +:+ String "-" (zpad 2 (month d) +:+ String "-"
      (zpad 2 (day d) +:+ String "T" (zpad 2 (hour d) +:+ String ":"
      (zpad 2 (minute d) +:+ String ":" (zpad 2 (second d) +:+ String "."
      (zpad 6 (microsecond d) +:+ "")))))).
Proof.
  intros Htz Hus. unfold isoformat. rewrite Htz.
  destruct (Z.eqb_spec (microsecond d) 0); [done|]. reflexivity.
Qed.

Lemma isoformat_whole (d : datetime) :
  tzinfo d = None -> microsecond d = 0 ->
  isoformat d = strftime d "%Y-%m-%dT%H:%M:%S".
Proof.
  intros Htz Hus. unfold isoformat. rewrite Htz, Hus, strftime_local.
  reflexivity.
Qed.

Lemma all_digits_app (a b : string) :
  all_digits (a +:+ b) = all_digits a && all_digits b.
Proof.
  induction a as [|c a IH]; [done|]. rewrite append_cons. simpl.
  by rewrite IH, andb_assoc.
Qed.

Lemma all_digits_zpad (w : nat) (n : Z) : all_digits (zpad w n) = true.
Proof.
  revert n; induction w as [|w IH]; intros n; [done|].
  cbn [zpad]. rewrite all_digits_app, IH. simpl.
  by rewrite isdigit_digit_char.
Qed.

Lemma replace_app (a b : ascii) (s t : string) :
  replace a b (s +:+ t) = replace a b s +:+ replace a b t.
Proof.
  induction s as [|c s IH]; [done|]. rewrite append_cons. simpl.
  by rewrite IH.
Qed.

Lemma replace_digits (a b : ascii) (s : string) :
  isdigit a = false -> all_digits s = true -> replace a b s = s.
Proof.
  intros Ha. induction s as [|c s IH]; [done|]. simpl.
  intros [Hc Hs]%andb_true_iff. rewrite (IH Hs).
  destruct (is_char a c) eqn:E; [|done].
  unfold is_char in E. apply Z.eqb_eq in E. unfold isdigit in *.
  rewrite E in Ha. congruence.
Qed.

Lemma replace_zpad (w : nat) (n : Z) (rest : string) :
  replace "T" " " (zpad w n +:+ rest) = zpad w n +:+ replace "T" " " rest.
Proof.
  rewrite replace_app, replace_digits; [done|done|apply all_digits_zpad].
Qed.

Lemma take_app_length (a b : string) : take (String.length a) (a +:+ b) = a.
Proof.
  induction a as [|c a IH]; [by destruct b|]. rewrite append_cons. simpl.
  by rewrite IH.
Qed.

Lemma drop_app_length (a b : string) : drop (String.length a) (a +:+ b) = b.
Proof. induction a as [|c a IH]; [by destruct b|]. done. Qed.

Lemma take_digits_zpad (w : nat) (n : Z) (rest : string) :
  0 <= n < 10 ^ Z.of_nat w ->
  take_digits w (zpad w n +:+ rest) = Some (n, rest).
Proof.
  intros Hn. unfold take_digits.
  pose proof (take_app_length (zpad w n) rest) as Ht.
  pose proof (drop_app_length (zpad w n) rest) as Hd.
  rewrite zpad_length in Ht, Hd. rewrite Ht, Hd, zpad_length, Nat.eqb_refl.
  rewrite all_digits_zpad. simpl. by rewrite digits_value_zpad.
Qed.

Lemma split_offset_none (s : string) :
  has_char Desktop.sign s = false -> split_offset s = (s, None).
Proof.
  induction s as [|c s IH]; [done|]. simpl.
  intros [Hc Hs]%orb_false_iff. unfold Desktop.sign in Hc.
  apply orb_false_iff in Hc as [-> ->]. by rewrite (IH Hs).
Qed.

Lemma has_char_app (p : ascii -> bool) (a b : string) :
  has_char p (a +:+ b) = has_char p a || has_char p b.
Proof.
  induction a as [|c a IH]; [done|]. rewrite append_cons. simpl.
  by rewrite IH, orb_assoc.
Qed.

Lemma no_sign_in_digits (s : string) :
  all_digits s = true -> has_char Desktop.sign s = false.
Proof.
  induction s as [|c s IH]; [done|]. simpl.
  intros [Hc Hs]%andb_true_iff. rewrite (IH Hs), orb_false_r.
  apply isdigit_cases in Hc. simpl in Hc.
  repeat (destruct Hc as [<-|Hc]; [reflexivity|]). done.
Qed.

Lemma append_nil_r (s : string) : s +:+ "" = s.
Proof. induction s as [|c s IH]; [done|]. by rewrite append_cons, IH. Qed.

Ltac closed_tests :=
  repeat match goal with
         | |- context [is_char ?a ?c] =>
             let v := eval vm_compute in (is_char a c) in
             match v with
             | true => change (is_char a c) with true
             | false => change (is_char a c) with false
             end; cbv iota
         end.

Lemma parse_time_of_clock (h mi sec us : Z) :
  0 <= h <= 23 -> 0 <= mi <= 59 -> 0 <= sec <= 59 -> 0 <= us <= 999999 ->
  parse_hh_mm_ss_ff
    (zpad 2 h +:+ String ":" (zpad 2 mi +:+ String ":"
       (zpad 2 sec +:+ String "." (zpad 6 us +:+ ""))))
  = Some (h, mi, sec, us).
Proof.
  intros Hh Hmi Hs Hu. unfold parse_hh_mm_ss_ff.
  rewrite take_digits_zpad by (simpl; lia). cbn [mbind option_bind expect].
  closed_tests. cbn [mbind option_bind].
  rewrite take_digits_zpad by (simpl; lia). cbn [mbind option_bind expect].
  closed_tests. cbn [mbind option_bind].
  rewrite take_digits_zpad by (simpl; lia). cbn [mbind option_bind expect].
  closed_tests. cbn [mbind option_bind].
  rewrite append_nil_r, all_digits_zpad, zpad_length. cbn [andb Nat.eqb].
  by rewrite digits_value_zpad by (simpl; lia).
Qed.

Lemma no_sign_in_time (h mi sec us : Z) :
  has_char Desktop.sign
    (zpad 2 h +:+ String ":" (zpad 2 mi +:+ String ":"
       (zpad 2 sec +:+ String "." (zpad 6 us +:+ ""))))
  = false.
Proof.
  repeat (rewrite has_char_app, no_sign_in_digits by apply all_digits_zpad;
          cbn [has_char orb]).
  reflexivity.
Qed.

Lemma fromisoformat_of_isoformat (d : datetime) :
  valid_clock d -> microsecond d <> 0 ->
  fromisoformat (replace "T" " " (isoformat d)) = Some d.
Proof.
  intros Hv Hus.
  destruct (valid_clock_ranges d Hv)
    as (Hy & Hm & Hd & Hh & Hmi & Hs & Hu & Htz & _).
  destruct Hv as [Hv _].
  rewrite isoformat_fraction by done.
  repeat (rewrite replace_zpad; cbn [replace]; closed_tests).
  unfold fromisoformat.
  rewrite take_digits_zpad by (simpl; lia). cbn [mbind option_bind expect].
  closed_tests. cbn [mbind option_bind].
  rewrite take_digits_zpad by (simpl; lia). cbn [mbind option_bind expect].
  closed_tests. cbn [mbind option_bind].
  rewrite take_digits_zpad by (simpl; lia). cbn [mbind option_bind].
  rewrite split_offset_none by apply no_sign_in_time.
  rewrite parse_time_of_clock by done. cbn [mbind option_bind].
  exact Hv.
Qed.

Lemma isoformat_rejected (d : datetime) :
  valid_clock d -> microsecond d <> 0 ->
  try_formats (strip (isoformat d)) Web.formats = None.
Proof.
  intros Hv Hus.
  destruct (valid_clock_ranges d Hv)
    as (Hy & Hm & Hd & Hh & Hmi & Hs & Hu & Htz & _).
  assert (strip (isoformat d) = isoformat d) as ->.
  { rewrite isoformat_fraction by done.
    apply (strip_clock _ _ _ (digit_char (microsecond d))); [last_of_clock|].
    by destruct (digit_not_Z_LF_space _ (isdigit_digit_char (microsecond d)))
      as (_ & _ & ->). }
  rewrite isoformat_fraction by done.
  unfold Web.formats. cbn [try_formats]. unfold strptime.
  rewrite pattern_custom, pattern_display, pattern_minutes, pattern_local,
    pattern_slashes, pattern_day_first.
  walk. cbn [option_map found_first].
  rewrite day_stops_in_year by (first [lia|sep_refuses]).
  done.
Qed.

(** X8.  The answers of [current_time] of the web application are read
    back by its normaliser.  For every reading of the clock (a valid date
    with a year of four digits) the texts for the datetime-local input,
    in the custom format and for display give the reading without its
    fraction of a second, each by the first format of the list that
    accepts it; the ISO text gives the reading itself, by the ISO parse
    when it has a fraction.  None prints a warning, and none depends on
    the clock at the time of reading. *)
Theorem current_time_is_read_back (now later : datetime) :
  valid_clock now ->
  Web._parse_timestamp later (Web.formatted (Web.current_time now))
  = (to_the_second now, [])
  /\ Web._parse_timestamp later (Web.display (Web.current_time now))
     = (to_the_second now, [])
  /\ Web._parse_timestamp later (Web.datetime_local (Web.current_time now))
     = (to_the_second now, [])
  /\ Web._parse_timestamp later (Web.iso (Web.current_time now)) = (now, []).
Proof.
  intros Hv.
  assert (Web._parse_timestamp later (strftime now "%Y-%m-%dT%H:%M:%S")
          = (to_the_second now, [])) as Hlocal.
  { unfold Web._parse_timestamp. rewrite strip_local. unfold Web.formats.
    cbn [try_formats]. rewrite (custom_rejects_local now Hv).
    rewrite (display_rejects_local now Hv).
    rewrite (minutes_rejects_local now Hv).
    by rewrite strptime_local. }
  unfold Web.current_time.
  cbn [Web.formatted Web.display Web.datetime_local Web.iso].
  split; [|split; [|split]].
  - unfold Web._parse_timestamp. rewrite strip_custom. unfold Web.formats.
    cbn [try_formats]. by rewrite strptime_custom.
  - unfold Web._parse_timestamp. rewrite strip_display. unfold Web.formats.
    cbn [try_formats]. rewrite (custom_rejects_display now Hv).
    by rewrite strptime_display.
  - exact Hlocal.
  - destruct (valid_clock_ranges now Hv) as (_ & _ & _ & _ & _ & _ & _ & Htz & _).
    destruct (Z.eq_dec (microsecond now) 0) as [Hus|Hus].
    + rewrite isoformat_whole, Hlocal by done. f_equal.
      unfold to_the_second. rewrite <- Hus. by destruct now.
    + unfold Web._parse_timestamp.
      rewrite isoformat_rejected, fromisoformat_of_isoformat by done. done.
Qed.

(** The clock of the example. *)
Lemma current_time_is_read_back_witness :
  Web.current_time (mkdatetime 2024 1 15 14 30 25 123456 None)
  = Web.mktimes "2024-01-15T14:30:25" "2024-01-15-14-30-25"
                "2024-01-15T14:30:25.123456" "2024-01-15 14:30:25"
  /\ Web._parse_timestamp a_now "2024-01-15T14:30:25"
     = (mkdatetime 2024 1 15 14 30 25 0 None, [])
  /\ Web._parse_timestamp a_now "2024-01-15T14:30:25.123456"
     = (mkdatetime 2024 1 15 14 30 25 123456 None, []).
Proof.
  split; [reflexivity|].
  destruct (current_time_is_read_back
              (mkdatetime 2024 1 15 14 30 25 123456 None) a_now)
    as (_ & _ & Hl & Hi).
  { split; [reflexivity|]. simpl. lia. }
  split; [exact Hl|exact Hi].
Defined.

(** ** Reading back what the writer wrote *)

Lemma file_lines_nonempty (c : ascii) (t : string) :
  file_lines (String c t) <> [].
Proof. simpl. destruct (is_char LF c); [done|]. by destruct (file_lines t). Qed.

Lemma records_from_scan (t : string) (self : Reader.ReaderObj) :
  ends_lines t = true ->
  Reader.records_from self (file_lines t)
  = match scan self t with
    | (records, Some final) =>
        (app records
             (if negb (String.eqb (Reader.field final) "")
                 || Reader.in_quoted_field (Reader.state final)
              then [Reader.fields (Reader.parse_save_field final)] else []),
         true)
    | (records, None) => (records, false)
    end.
Proof.
  revert self; induction t as [|c t IH]; intros self Ht.
  { simpl. by destruct (_ || _). }
  assert (ends_lines t = true \/ (t = EmptyString /\ is_char LF c = true))
    as Ht'.
  { destruct t; [by right|by left]. }
  cbn [file_lines scan].
  destruct (is_char LF c) eqn:Hc.
  - (* the end of a line *)
    assert (ends_lines t = true) as Hl by (destruct Ht' as [?|[-> _]]; done).
    cbn [Reader.records_from Reader.process_line].
    destruct (is_char "000" c); [done|].
    destruct (Reader.parse_process_char self (Some c)) as [self1|]; [|done].
    destruct (Reader.parse_process_char self1 None) as [self2|]; [|done].
    destruct (Reader.state self2) eqn:Es; try (by rewrite IH);
      rewrite IH by done;
      by destruct (scan Reader.parse_reset t) as [records [final|]].
  - (* inside a line *)
    destruct Ht' as [Hl|[_ ?]]; [|congruence].
    destruct t as [|c' t']; [simpl in Ht; congruence|].
    specialize (IH).
    destruct (file_lines (String c' t')) as [|line lines] eqn:El;
      [by apply file_lines_nonempty in El|].
    cbn [Reader.records_from Reader.process_line].
    destruct (is_char "000" c); [done|].
    destruct (Reader.parse_process_char self (Some c)) as [self1|]; [|done].
    rewrite <- (IH self1 Hl). done.
Qed.

Lemma csv_safe_length (acc f : string) :
  Z.of_nat (String.length (acc +:+ f)) <= Reader.field_limit ->
  forall c f', f = String c f' ->
    (Reader.field_limit <=? Z.of_nat (String.length acc)) = false.
Proof.
  intros H c f' ->. rewrite append_length in H. simpl in H. lia.
Qed.

Lemma append_snoc (acc : string) (c : ascii) (f : string) :
  (acc +:+ String c EmptyString) +:+ f = acc +:+ String c f.
Proof. by rewrite append_assoc. Qed.

Lemma is_char_eq (a c : ascii) : is_char a c = true -> c = a.
Proof.
  unfold is_char, code. intros H%Z.eqb_eq%N2Z.inj.
  apply (f_equal ascii_of_N) in H. by rewrite !ascii_N_embedding in H.
Qed.

(** The steps of [scan]. *)
Lemma scan_char (self self1 : Reader.ReaderObj) (c : ascii) (rest : string) :
  is_char "000" c = false -> is_char LF c = false ->
  Reader.parse_process_char self (Some c) = Some self1 ->
  scan self (String c rest) = scan self1 rest.
Proof. intros H0 Hl H. cbn [scan]. by rewrite H0, H, Hl. Qed.

Lemma scan_newline (self self1 self2 : Reader.ReaderObj) (rest : string) :
  Reader.parse_process_char self (Some LF) = Some self1 ->
  Reader.parse_process_char self1 None = Some self2 ->
  scan self (String LF rest)
  = match Reader.state self2 with
    | Reader.START_RECORD =>
        let '(records, final) := scan Reader.parse_reset rest in
        (Reader.fields self2 :: records, final)
    | _ => scan self2 rest
    end.
Proof.
  intros H1 H2. cbn [scan]. change (is_char "000" LF) with false.
  change (is_char LF LF) with true. cbv iota. by rewrite H1, H2.
Qed.

(** The steps of the machine, on a machine given by its three parts. *)
Lemma add_char_ok (st : Reader.ParserState) (acc : string)
    (fs : list string) (c : ascii) :
  Z.of_nat (String.length acc) < Reader.field_limit ->
  Reader.parse_add_char (Reader.mkReaderObj st acc fs) c
  = Some (Reader.mkReaderObj st (acc +:+ String c EmptyString) fs).
Proof.
  intros H. unfold Reader.parse_add_char. cbn [Reader.field].
  destruct (Z.leb_spec Reader.field_limit (Z.of_nat (String.length acc)));
    [lia|done].
Qed.

Lemma step_in_quoted (acc : string) (fs : list string) (c : ascii) :
  is_char dquote c = false ->
  Z.of_nat (String.length acc) < Reader.field_limit ->
  Reader.parse_process_char
    (Reader.mkReaderObj Reader.IN_QUOTED_FIELD acc fs) (Some c)
  = Some (Reader.mkReaderObj Reader.IN_QUOTED_FIELD
            (acc +:+ String c EmptyString) fs).
Proof.
  intros Hq Hl. unfold Reader.parse_process_char. cbn [Reader.state].
  rewrite Hq. by apply add_char_ok.
Qed.

Lemma step_quote_in_quoted (acc : string) (fs : list string) :
  Z.of_nat (String.length acc) < Reader.field_limit ->
  Reader.parse_process_char
    (Reader.mkReaderObj Reader.QUOTE_IN_QUOTED_FIELD acc fs) (Some dquote)
  = Some (Reader.mkReaderObj Reader.IN_QUOTED_FIELD
            (acc +:+ String dquote EmptyString) fs).
Proof.
  intros Hl. unfold Reader.parse_process_char. cbn [Reader.state].
  change (is_char dquote dquote) with true. cbv iota.
  by rewrite add_char_ok.
Qed.

Lemma step_in_field (acc : string) (fs : list string) (c : ascii) :
  csv_special c = false ->
  Z.of_nat (String.length acc) < Reader.field_limit ->
  Reader.parse_process_char (Reader.mkReaderObj Reader.IN_FIELD acc fs) (Some c)
  = Some (Reader.mkReaderObj Reader.IN_FIELD (acc +:+ String c EmptyString) fs).
Proof.
  unfold csv_special. intros [[[Hc Hq]%orb_false_iff Hr]%orb_false_iff
                                Hn]%orb_false_iff Hl.
  unfold Reader.parse_process_char, Reader.is_newline. cbn [Reader.state].
  rewrite Hn, Hr, Hc. cbn [orb]. by apply add_char_ok.
Qed.

Lemma step_start (st : Reader.ParserState) (fs : list string) (c : ascii) :
  st = Reader.START_RECORD \/ st = Reader.START_FIELD ->
  csv_special c = false ->
  Reader.parse_process_char (Reader.mkReaderObj st "" fs) (Some c)
  = Some (Reader.mkReaderObj Reader.IN_FIELD (String c EmptyString) fs).
Proof.
  unfold csv_special. intros Hst [[[Hc Hq]%orb_false_iff Hr]%orb_false_iff
                                    Hn]%orb_false_iff.
  unfold Reader.parse_process_char, Reader.start_field, Reader.is_newline.
  destruct Hst as [-> | ->]; cbn [Reader.state Reader.with_state];
    rewrite Hn, Hr, Hq, Hc; cbn [orb]; reflexivity.
Qed.

Lemma step_start_quote (st : Reader.ParserState) (fs : list string) :
  st = Reader.START_RECORD \/ st = Reader.START_FIELD ->
  Reader.parse_process_char (Reader.mkReaderObj st "" fs) (Some dquote)
  = Some (Reader.mkReaderObj Reader.IN_QUOTED_FIELD "" fs).
Proof. by intros [-> | ->]. Qed.

Lemma step_start_comma (st : Reader.ParserState) (fs : list string) :
  st = Reader.START_RECORD \/ st = Reader.START_FIELD ->
  Reader.parse_process_char (Reader.mkReaderObj st "" fs) (Some ","%char)
  = Some (Reader.mkReaderObj Reader.START_FIELD "" (fs ++ [""]))%list.
Proof. by intros [-> | ->]. Qed.

(** Inside a quoted field. *)
Lemma scan_quoted_body (f acc rest : string) (fs : list string) :
  has_char (is_char "000") f = false ->
  Z.of_nat (String.length (acc +:+ f)) <= Reader.field_limit ->
  scan (Reader.mkReaderObj Reader.IN_QUOTED_FIELD acc fs)
       (double_quotes f +:+ rest)
  = scan (Reader.mkReaderObj Reader.IN_QUOTED_FIELD (acc +:+ f) fs) rest.
Proof.
  revert acc; induction f as [|c f IH]; intros acc Hn Hl.
  { by rewrite append_nil_r. }
  cbn [has_char] in Hn. apply orb_false_iff in Hn as [Hc Hn].
  assert (Z.of_nat (String.length acc) < Reader.field_limit) as Hlim.
  { rewrite append_length in Hl. simpl in Hl. lia. }
  rewrite <- append_snoc in Hl |- *.
  cbn [double_quotes]. destruct (is_char dquote c) eqn:Hq.
  - apply is_char_eq in Hq as ->. rewrite !append_cons.
    rewrite (scan_char _ (Reader.mkReaderObj Reader.QUOTE_IN_QUOTED_FIELD acc fs))
      by done.
    erewrite scan_char; [|done|done|by apply step_quote_in_quoted].
    by apply IH.
  - rewrite append_cons. destruct (is_char LF c) eqn:Hlf.
    + apply is_char_eq in Hlf as ->.
      erewrite scan_newline; [|by apply step_in_quoted|reflexivity].
      cbn [Reader.state]. by apply IH.
    + erewrite scan_char; [|done|done|by apply step_in_quoted].
      by apply IH.
Qed.

(** Inside a field without quotes. *)
Lemma scan_plain_body (f acc rest : string) (fs : list string) :
  has_char csv_special f = false -> has_char (is_char "000") f = false ->
  Z.of_nat (String.length (acc +:+ f)) <= Reader.field_limit ->
  scan (Reader.mkReaderObj Reader.IN_FIELD acc fs) (f +:+ rest)
  = scan (Reader.mkReaderObj Reader.IN_FIELD (acc +:+ f) fs) rest.
Proof.
  revert acc; induction f as [|c f IH]; intros acc Hs Hn Hl.
  { by rewrite append_nil_r. }
  cbn [has_char] in Hs, Hn. apply orb_false_iff in Hs as [Hc Hs].
  apply orb_false_iff in Hn as [H0 Hn].
  assert (Z.of_nat (String.length acc) < Reader.field_limit) as Hlim.
  { rewrite append_length in Hl. simpl in Hl. lia. }
  rewrite <- append_snoc in Hl |- *. rewrite append_cons.
  assert (is_char LF c = false) as Hlf.
  { unfold csv_special in Hc. by apply orb_false_iff in Hc as [_ ->]. }
  erewrite scan_char; [|done|done|by apply step_in_field].
  by apply IH.
Qed.

Lemma step_in_field_comma (acc : string) (fs : list string) :
  Reader.parse_process_char (Reader.mkReaderObj Reader.IN_FIELD acc fs)
                            (Some ","%char)
  = Some (Reader.mkReaderObj Reader.START_FIELD "" (fs ++ [acc]))%list.
Proof. reflexivity. Qed.

Lemma step_close_quote (acc : string) (fs : list string) :
  Reader.parse_process_char
    (Reader.mkReaderObj Reader.IN_QUOTED_FIELD acc fs) (Some dquote)
  = Some (Reader.mkReaderObj Reader.QUOTE_IN_QUOTED_FIELD acc fs).
Proof. reflexivity. Qed.

Lemma step_closed_comma (acc : string) (fs : list string) :
  Reader.parse_process_char
    (Reader.mkReaderObj Reader.QUOTE_IN_QUOTED_FIELD acc fs) (Some ","%char)
  = Some (Reader.mkReaderObj Reader.START_FIELD "" (fs ++ [acc]))%list.
Proof. reflexivity. Qed.

Lemma quoted_app (s rest : string) :
  quoted s +:+ rest = String dquote (s +:+ String dquote rest).
Proof. unfold quoted. by rewrite append_cons, append_assoc. Qed.

(** A field and the comma after it. *)
Lemma scan_field_comma (st : Reader.ParserState) (fs : list string)
    (text f rest : string) :
  st = Reader.START_RECORD \/ st = Reader.START_FIELD ->
  encoded text f -> has_char (is_char "000") f = false ->
  Z.of_nat (String.length f) <= Reader.field_limit ->
  scan (Reader.mkReaderObj st "" fs) (text +:+ String "," rest)
  = scan (Reader.mkReaderObj Reader.START_FIELD "" (fs ++ [f])%list) rest.
Proof.
  intros Hst [[-> Hs]| ->] Hn Hl.
  - destruct f as [|c f].
    + change ("" +:+ String "," rest) with (String "," rest).
      erewrite scan_char; [done|done|done|by apply step_start_comma].
    + cbn [has_char] in Hs, Hn. apply orb_false_iff in Hs as [Hc Hs].
      apply orb_false_iff in Hn as [H0 Hn].
      assert (is_char LF c = false) as Hlf.
      { unfold csv_special in Hc. by apply orb_false_iff in Hc as [_ ->]. }
      rewrite append_cons.
      erewrite scan_char; [|done|done|by apply step_start].
      rewrite scan_plain_body by done.
      erewrite scan_char; [done|done|done|apply step_in_field_comma].
  - rewrite quoted_app.
    erewrite scan_char; [|done|done|by apply step_start_quote].
    rewrite scan_quoted_body by done.
    erewrite scan_char; [|done|done|apply step_close_quote].
    erewrite scan_char; [done|done|done|apply step_closed_comma].
Qed.

(** A field and the end of the line after it. *)
Lemma scan_field_newline (st : Reader.ParserState) (fs : list string)
    (text f rest : string) :
  st = Reader.START_FIELD \/ (st = Reader.START_RECORD /\ text <> "") ->
  encoded text f -> has_char (is_char "000") f = false ->
  Z.of_nat (String.length f) <= Reader.field_limit ->
  scan (Reader.mkReaderObj st "" fs) (text +:+ String LF rest)
  = let '(records, final) := scan Reader.parse_reset rest in
    ((fs ++ [f])%list :: records, final).
Proof.
  intros Hst [[-> Hs]| ->] Hn Hl.
  - destruct f as [|c f].
    + destruct Hst as [->|[_ ?]]; [|done].
      change ("" +:+ String LF rest) with (String LF rest).
      erewrite scan_newline; [|reflexivity|reflexivity]. done.
    + cbn [has_char] in Hs, Hn. apply orb_false_iff in Hs as [Hc Hs].
      apply orb_false_iff in Hn as [H0 Hn].
      assert (is_char LF c = false) as Hlf.
      { unfold csv_special in Hc. by apply orb_false_iff in Hc as [_ ->]. }
      rewrite append_cons.
      erewrite scan_char; [|done|done|apply step_start; [tauto|done]].
      rewrite scan_plain_body by done.
      erewrite scan_newline; [|reflexivity|reflexivity]. done.
  - rewrite quoted_app.
    erewrite scan_char; [|done|done|apply step_start_quote; tauto].
    rewrite scan_quoted_body by done.
    erewrite scan_char; [|done|done|apply step_close_quote].
    erewrite scan_newline; [|reflexivity|reflexivity]. done.
Qed.

(** A line of fields. *)
Lemma scan_line (texts fields : list string) (st : Reader.ParserState)
    (fs : list string) (rest : string) :
  Forall2 encoded texts fields ->
  Forall (fun f => has_char (is_char "000") f = false
                   /\ Z.of_nat (String.length f) <= Reader.field_limit)
         fields ->
  st = Reader.START_FIELD
  \/ (st = Reader.START_RECORD /\ texts <> [""]) ->
  texts <> [] ->
  scan (Reader.mkReaderObj st "" fs) (join "," texts +:+ String LF rest)
  = let '(records, final) := scan Reader.parse_reset rest in
    ((fs ++ fields)%list :: records, final).
Proof.
  intros H. revert st fs.
  induction H as [|text f texts fields He H IH]; intros st fs Hf Hst Hne;
    [done|].
  apply Forall_cons in Hf as [[Hn Hl] Hf].
  destruct texts as [|text2 texts].
  - apply Forall2_nil_inv_l in H as ->. cbn [join].
    apply scan_field_newline; try done.
    destruct Hst as [?|[? ?]]; [by left|right]. split; [done|].
    intros ->. done.
  - change (join "," (text :: text2 :: texts))
      with (text +:+ "," +:+ join "," (text2 :: texts)).
    rewrite append_assoc. change ("," +:+ ?x) with (String "," x).
    rewrite append_cons.
    change ("" +:+ ?x) with x.
    rewrite (scan_field_comma st fs text f); try done;
      [|by destruct Hst as [?|[? _]]; auto].
    rewrite IH; [|done|by left|done].
    by rewrite <- app_assoc.
Qed.

(** A text of lines. *)
Lemma scan_lines (texts fields : list (list string)) :
  Forall2 (Forall2 encoded) texts fields ->
  Forall (Forall (fun f => has_char (is_char "000") f = false
                           /\ Z.of_nat (String.length f)
                              <= Reader.field_limit)) fields ->
  Forall (fun row => row <> [] /\ row <> [""]) texts ->
  scan Reader.parse_reset (lines_text texts) = (fields, Some Reader.parse_reset).
Proof.
  induction 1 as [|row frow texts fields Hrow _ IH]; intros Hf Ht; [done|].
  apply Forall_cons in Hf as [Hf Hfs]. apply Forall_cons in Ht as [[Hne H1] Ht].
  cbn [lines_text]. unfold Reader.parse_reset at 1.
  rewrite (scan_line row frow); [|done|done|by right|done].
  by rewrite IH.
Qed.

Lemma ends_lines_lines_text (texts : list (list string)) :
  ends_lines (lines_text texts) = true.
Proof.
  induction texts as [|row texts IH]; [done|]. cbn [lines_text].
  generalize (join "," row). intros s.
  induction s as [|c s IHs].
  - change ("" +:+ ?x) with x. destruct (lines_text texts); done.
  - rewrite append_cons. cbn [ends_lines].
    destruct (s +:+ String LF (lines_text texts)) eqn:E; [|done].
    by destruct s.
Qed.

Lemma records_lines_text (texts fields : list (list string)) :
  Forall2 (Forall2 encoded) texts fields ->
  Forall (Forall (fun f => has_char (is_char "000") f = false
                           /\ Z.of_nat (String.length f)
                              <= Reader.field_limit)) fields ->
  Forall (fun row => row <> [] /\ row <> [""]) texts ->
  Reader.records (file_lines (lines_text texts)) = (fields, true).
Proof.
  intros H Hf Ht. unfold Reader.records.
  rewrite records_from_scan by apply ends_lines_lines_text.
  rewrite (scan_lines texts fields) by done. cbn. by rewrite app_nil_r.
Qed.

(** The texts that the writer makes. *)
Lemma encoded_csv_field (f : string) : encoded (csv_field f) f.
Proof.
  unfold encoded, csv_field. destruct (has_char csv_special f); [by right|].
  by left.
Qed.

Lemma has_char_double_quotes (p : ascii -> bool) (s : string) :
  p dquote = false -> has_char p (double_quotes s) = has_char p s.
Proof.
  intros Hp. induction s as [|c s IH]; [done|]. cbn [double_quotes].
  destruct (is_char dquote c) eqn:Hq.
  - apply is_char_eq in Hq as ->. cbn [has_char]. by rewrite Hp, IH.
  - cbn [has_char]. by rewrite IH.
Qed.

Lemma has_char_quoted (p : ascii -> bool) (s : string) :
  p dquote = false -> has_char p (quoted s) = has_char p s.
Proof.
  intros Hp. unfold quoted. cbn [has_char]. rewrite Hp, has_char_app.
  cbn [has_char]. rewrite Hp. by rewrite !orb_false_r.
Qed.

Lemma has_char_csv_field (p : ascii -> bool) (s : string) :
  p dquote = false -> has_char p (csv_field s) = has_char p s.
Proof.
  intros Hp. unfold csv_field. destruct (has_char csv_special s); [|done].
  by rewrite has_char_quoted, has_char_double_quotes.
Qed.

Lemma has_char_join (p : ascii -> bool) (texts : list string) :
  p ","%char = false -> Forall (fun t => has_char p t = false) texts ->
  has_char p (join "," texts) = false.
Proof.
  intros Hp. induction 1 as [|t texts Ht Hs IH]; [done|].
  destruct texts as [|t2 texts]; [done|].
  change (join "," (t :: t2 :: texts)) with (t +:+ "," +:+ join "," (t2 :: texts)).
  rewrite !has_char_app, Ht, IH. cbn [has_char]. by rewrite Hp.
Qed.

Lemma universal_newlines_app (s t : string) :
  has_char (is_char CR) s = false ->
  universal_newlines (s +:+ t) = s +:+ universal_newlines t.
Proof.
  induction s as [|c s IH]; [done|]. cbn [has_char].
  intros [Hc Hs]%orb_false_iff. rewrite append_cons.
  cbn [universal_newlines]. by rewrite Hc, IH.
Qed.

Lemma universal_newlines_id (s : string) :
  has_char (is_char CR) s = false -> universal_newlines s = s.
Proof.
  intros H. rewrite <- (append_nil_r s) at 1.
  rewrite universal_newlines_app by done. by rewrite append_nil_r.
Qed.

Lemma universal_newlines_writerow (row : list string) (rest : string) :
  Forall (fun f => has_char (is_char CR) f = false) row ->
  universal_newlines (writerow row +:+ rest)
  = join "," (List.map csv_field row) +:+ String LF (universal_newlines rest).
Proof.
  intros H. unfold writerow. rewrite append_assoc, append_cons.
  change ("" +:+ ?x) with x. rewrite append_cons.
  rewrite universal_newlines_app.
  - cbn [universal_newlines]. change (is_char CR CR) with true.
    change (is_char LF LF) with true. cbv iota. done.
  - apply has_char_join; [done|]. apply Forall_forall.
    intros t (f & -> & Hf)%list_elem_of_fmap.
    rewrite has_char_csv_field by done.
    rewrite Forall_forall in H. by apply H.
Qed.

Lemma concat_cons (x : string) (xs : list string) :
  String.concat "" (x :: xs) = x +:+ String.concat "" xs.
Proof. destruct xs; simpl; [by rewrite append_nil_r|done]. Qed.

Lemma universal_newlines_rows (rows : list (list string)) :
  Forall (Forall (fun f => has_char (is_char CR) f = false)) rows ->
  universal_newlines (String.concat "" (List.map writerow rows))
  = lines_text (List.map (List.map csv_field) rows).
Proof.
  induction 1 as [|row rows Hrow _ IH]; [done|].
  cbn [List.map]. rewrite concat_cons.
  rewrite universal_newlines_writerow by done. by rewrite IH.
Qed.

(** *** The dictionaries of the rows *)

Lemma zip_dict_three (n1 n2 n3 v1 v2 v3 : string) :
  zip_dict [n1; n2; n3] [v1; v2; v3]
  = <[n3 := Some v3]> (<[n2 := Some v2]> (<[n1 := Some v1]> ∅)).
Proof. reflexivity. Qed.

Lemma zip_dict_four (n1 n2 n3 n4 v1 v2 v3 v4 : string) :
  zip_dict [n1; n2; n3; n4] [v1; v2; v3; v4]
  = <[n4 := Some v4]>
      (<[n3 := Some v3]> (<[n2 := Some v2]> (<[n1 := Some v1]> ∅))).
Proof. reflexivity. Qed.

Lemma row_gives_three (t s d : string) :
  row_gives (zip_dict ["Timestamp"; "Severity"; "Description"] [t; s; d])
            (t, s, d).
Proof.
  rewrite zip_dict_three. unfold row_gives, dict_get.
  rewrite lookup_insert_ne, lookup_insert_ne, lookup_insert_eq by done.
  rewrite lookup_insert_ne, lookup_insert_eq by done.
  by rewrite lookup_insert_eq.
Qed.

Lemma row_gives_four (t s d p : string) :
  row_gives (zip_dict ["Timestamp"; "Severity"; "Description"; "Parsed Time"]
                      [t; s; d; p])
            (t, s, d).
Proof.
  rewrite zip_dict_four. unfold row_gives, dict_get.
  rewrite lookup_insert_ne, lookup_insert_ne, lookup_insert_ne,
    lookup_insert_eq by done.
  rewrite lookup_insert_ne, lookup_insert_ne, lookup_insert_eq by done.
  by rewrite lookup_insert_ne, lookup_insert_eq by done.
Qed.

Lemma import_rows_values (now : datetime)
    (rows : list (gmap string (option string)))
    (read : list (string * string * string)) (self : Desktop.State) :
  Forall2 row_gives rows read ->
  Forall (fun v => blank (fst (fst v)) = false /\ blank (snd v) = false) read ->
  Desktop.import_rows now rows self
  = (Desktop.mkState
       (Desktop.log_entries self ++ List.map (reimported now) read)
       (Desktop.is_sorted self) (Desktop.current_sort_direction self)
       (Desktop.investigation_name self)
       (Desktop.tree self ++ List.map reimported_row read)
       (Desktop.files self),
     true).
Proof.
  intros H. revert self.
  induction H as [|row [[t s] d] rows read (Ht & Hs & Hd) _ IH]; intros self Hb.
  { simpl. rewrite !app_nil_r. by destruct self. }
  apply Forall_cons in Hb as [[Bt Bd] Hb]. cbn [fst snd] in Bt, Bd.
  cbn [Desktop.import_rows]. unfold Desktop.import_row.
  rewrite Ht, Hs, Hd. unfold blank in Bt, Bd.
  destruct (strip t) as [|c1 t1] eqn:E1; [done|].
  destruct (strip d) as [|c2 d1] eqn:E2; [done|].
  rewrite IH by done. cbn [Desktop.log_entries Desktop.tree Desktop.is_sorted
    Desktop.current_sort_direction Desktop.investigation_name Desktop.files].
  cbn [List.map reimported reimported_row]. rewrite E1, E2.
  by rewrite <- !app_assoc.
Qed.

Lemma import_csv_values (now : datetime) (text : string)
    (rows : list (gmap string (option string)))
    (read : list (string * string * string)) (self : Desktop.State) :
  DictReader text = (rows, true) ->
  Forall2 row_gives rows read ->
  Forall (fun v => blank (fst (fst v)) = false /\ blank (snd v) = false) read ->
  Desktop.import_csv now (Some text) self
  = (imported now read self, Desktop.NoDialog).
Proof.
  intros Hr Hg Hb. unfold Desktop.import_csv. rewrite Hr.
  by rewrite (import_rows_values now rows read).
Qed.

Lemma DictReader_lines (text : string) (htexts header : list string)
    (texts rows : list (list string)) :
  universal_newlines text = lines_text (htexts :: texts) ->
  Forall2 (Forall2 encoded) (htexts :: texts) (header :: rows) ->
  Forall (Forall (fun f => has_char (is_char "000") f = false
                           /\ Z.of_nat (String.length f)
                              <= Reader.field_limit)) (header :: rows) ->
  Forall (fun row => row <> [] /\ row <> [""]) (htexts :: texts) ->
  DictReader text = (List.map (zip_dict header) rows, true).
Proof.
  intros Hu He Hf Ht. unfold DictReader. rewrite Hu.
  rewrite (records_lines_text _ (header :: rows)) by done.
  f_equal. f_equal.
  apply Forall2_cons in He as [_ He]. apply Forall_cons in Ht as [_ Ht].
  clear -He Ht. induction He as [|t r texts rows Htr _ IH]; [done|].
  apply Forall_cons in Ht as [[Hne _] Ht].
  cbn [List.filter]. destruct r as [|f r].
  - apply Forall2_nil_inv_r in Htr. done.
  - cbn [is_empty_record negb]. by rewrite IH.
Qed.

Lemma csv_safe_parts (s : string) :
  csv_safe s ->
  has_char (is_char CR) s = false
  /\ (has_char (is_char "000") s = false
      /\ Z.of_nat (String.length s) <= Reader.field_limit).
Proof. unfold csv_safe. tauto. Qed.

Lemma DictReader_written (header : list string) (rows : list (list string)) :
  Forall (Forall csv_safe) (header :: rows) ->
  Forall (fun row => row <> [] /\ row <> [""]) (header :: rows) ->
  DictReader (String.concat "" (List.map writerow (header :: rows)))
  = (List.map (zip_dict header) rows, true).
Proof.
  intros Hs Hne.
  apply (DictReader_lines _ (List.map csv_field header) header
                          (List.map (List.map csv_field) rows)).
  - rewrite universal_newlines_rows; [done|].
    eapply Forall_impl; [exact Hs|]. intros row Hrow.
    eapply Forall_impl; [exact Hrow|]. intros f Hf. by apply csv_safe_parts.
  - change (List.map csv_field header :: List.map (List.map csv_field) rows)
      with (List.map (List.map csv_field) (header :: rows)).
    clear. induction (header :: rows) as [|row l IH]; constructor; [|done].
    clear. induction row as [|f row IH]; constructor; [|done].
    apply encoded_csv_field.
  - eapply Forall_impl; [exact Hs|]. intros row Hrow.
    eapply Forall_impl; [exact Hrow|]. intros f Hf. by apply csv_safe_parts.
  - change (List.map csv_field header :: List.map (List.map csv_field) rows)
      with (List.map (List.map csv_field) (header :: rows)).
    apply Forall_forall. intros t (row & -> & Hrow)%list_elem_of_fmap.
    rewrite Forall_forall in Hne. destruct (Hne row Hrow) as [H0 H1].
    split.
    + by destruct row.
    + destruct row as [|f [|f2 row]]; try done.
      cbn [List.map]. intros [= E]. destruct H1. f_equal.
      unfold csv_field in E. by destruct (has_char csv_special f).
Qed.

(** *** The snapshot of the desktop application *)

Lemma desktop_csv_text_rows (entries : list Desktop.LogEntry) :
  Desktop.csv_text entries
  = String.concat ""
      (List.map writerow
         (["Timestamp"; "Severity"; "Description"]
          :: List.map (fun e => [Desktop.timestamp e; Desktop.severity e;
                                 Desktop.description e]) entries)).
Proof.
  unfold Desktop.csv_text. cbn [List.map]. rewrite concat_cons.
  by rewrite List.map_map.
Qed.

Lemma csv_safe_literal (s : string) :
  has_char (is_char CR) s = false -> has_char (is_char "000") s = false ->
  (String.length s <=? 100)%nat = true -> csv_safe s.
Proof.
  intros H1 H2 H3%Nat.leb_le. repeat split; [done..|].
  unfold Reader.field_limit. lia.
Qed.

Lemma import_written (now : datetime) (header : list string)
    (rows : list (list string)) (read : list (string * string * string))
    (self : Desktop.State) :
  Forall (Forall csv_safe) (header :: rows) ->
  Forall (fun row => row <> [] /\ row <> [""]) (header :: rows) ->
  Forall2 (fun row v => row_gives (zip_dict header row) v) rows read ->
  Forall (fun v => blank (fst (fst v)) = false /\ blank (snd v) = false) read ->
  Desktop.import_csv now
    (Some (String.concat "" (List.map writerow (header :: rows)))) self
  = (imported now read self, Desktop.NoDialog).
Proof.
  intros Hs Hne Hg Hb.
  apply (import_csv_values now _ (List.map (zip_dict header) rows));
    [by apply DictReader_written| |done].
  clear -Hg. induction Hg; constructor; done.
Qed.

Lemma importable_blank (read : list (string * string * string)) :
  Forall importable read ->
  Forall (fun v => blank (fst (fst v)) = false /\ blank (snd v) = false) read.
Proof.
  intros H. eapply Forall_impl; [exact H|].
  intros [[t s] d] (_ & _ & _ & Bt & Bd). done.
Qed.

Lemma import_desktop_csv_text (now : datetime)
    (entries : list Desktop.LogEntry) (self : Desktop.State) :
  Forall importable (List.map desktop_values entries) ->
  Desktop.import_csv now (Some (Desktop.csv_text entries)) self
  = (imported now (List.map desktop_values entries) self, Desktop.NoDialog).
Proof.
  intros H. rewrite desktop_csv_text_rows.
  apply import_written.
  - constructor.
    + repeat (apply Forall_cons; split; [by apply csv_safe_literal|]).
      apply Forall_nil_2.
    + apply Forall_forall. intros row (e & -> & He)%list_elem_of_fmap.
      rewrite Forall_forall in H.
      destruct (H (desktop_values e)) as (Ht & Hs & Hd & _);
        [by apply list_elem_of_fmap_2|].
      repeat (apply Forall_cons; split; [done|]). apply Forall_nil_2.
  - constructor; [done|]. apply Forall_forall.
    by intros row (e & -> & He)%list_elem_of_fmap.
  - clear. induction entries as [|e entries IH]; constructor; [|done].
    apply row_gives_three.
  - by apply importable_blank.
Qed.

Lemma reimported_values (now : datetime)
    (read : list (string * string * string)) :
  Forall trimmed read ->
  List.map desktop_values (List.map (reimported now) read) = read.
Proof.
  induction 1 as [|[[t s] d] read (Ht & Hs & Hd) _ IH]; [done|].
  cbn [List.map]. rewrite IH. f_equal.
  unfold desktop_values, reimported, Desktop.__init__. simpl.
  by rewrite Ht, Hs, Hd.
Qed.

(** *** The conditions as tests *)

Lemma csv_safeb_sound (s : string) : csv_safeb s = true -> csv_safe s.
Proof.
  unfold csv_safeb, csv_safe.
  intros [[H1%negb_true_iff H2%negb_true_iff]%andb_true_iff H3%Z.leb_le]
         %andb_true_iff.
  done.
Qed.

Lemma importableb_sound (values : string * string * string) :
  importableb values = true -> importable values.
Proof.
  destruct values as [[t s] d]. unfold importableb, importable.
  intros [[[[Ht%csv_safeb_sound Hs%csv_safeb_sound]%andb_true_iff
              Hd%csv_safeb_sound]%andb_true_iff
             Bt%negb_true_iff]%andb_true_iff Bd%negb_true_iff]%andb_true_iff.
  done.
Qed.

Lemma no_double_quote_sound (e : Web.LogEntry) :
  no_double_quote e = true ->
  has_char (is_char dquote) (Web.timestamp e) = false
  /\ has_char (is_char dquote) (Web.severity e) = false.
Proof.
  unfold no_double_quote.
  by intros [H1%negb_true_iff H2%negb_true_iff]%andb_true_iff.
Qed.

(** X9.  The snapshot of an investigation can be imported again.  When
    the texts of the entries hold no CR and no NUL, are not longer than a
    field of the reader may be, and the timestamps and descriptions are
    not blank, [import_csv] on the file that [auto_save_logs_to_csv]
    wrote completes without an error and appends to the timeline at
    hand one entry for each entry of the snapshot, in the order of the
    snapshot, made of the trimmed timestamp, description and severity,
    with a row of the tree for each; the timeline is then marked as not
    sorted and saved.  When the texts are trimmed, as the insertion makes
    them, the appended entries have the timestamps, severities and
    descriptions of the snapshot unchanged: commas, quotes and line feeds
    inside a text come back as they were. *)
Theorem snapshot_is_read_back (now : datetime)
    (self other : Desktop.State) (r : list Desktop.LogEntry) :
  Desktop.log_entries self <> [] ->
  sorted (by_time Desktop.parsed_time) (Desktop.log_entries self) = Some r ->
  Forall importable (List.map desktop_values (Desktop.log_entries self)) ->
  exists text,
    Desktop.files (Desktop.auto_save_logs_to_csv self)
      !! Desktop.get_investigation_csv_path self = Some text
    /\ Desktop.import_csv now (Some text) other
       = (imported now (List.map desktop_values r) other, Desktop.NoDialog)
    /\ (Forall trimmed (List.map desktop_values (Desktop.log_entries self)) ->
        List.map desktop_values
                 (List.map (reimported now) (List.map desktop_values r))
        = List.map desktop_values r).
Proof.
  intros Hne Hr Hi. exists (Desktop.csv_text r).
  pose proof (sorted_perm _ _ _ Hr) as P.
  split; [|split].
  - rewrite (auto_save_sorted self r) by done.
    unfold Desktop.with_files. cbn [Desktop.files]. apply lookup_insert_eq.
  - apply import_desktop_csv_text. by rewrite <- P.
  - intros Ht. apply reimported_values. by rewrite <- P.
Qed.

(** The instance of two entries whose descriptions hold a comma, double
    quotes and a line feed. *)
Lemma snapshot_is_read_back_witness :
  exists text,
    Desktop.files (Desktop.auto_save_logs_to_csv quoted_entries)
      !! Desktop.get_investigation_csv_path quoted_entries = Some text
    /\ Desktop.import_csv a_now (Some text) (Desktop.start ∅)
       = (imported a_now
            (List.map desktop_values (rev (Desktop.log_entries quoted_entries)))
            (Desktop.start ∅),
          Desktop.NoDialog)
    /\ List.map desktop_values (rev (Desktop.log_entries quoted_entries))
       = [("2024-01-14 09:00:00", "Critical", "two" +:+ String LF "lines");
          ("2024-01-15 10:00:00", "Low",
           "said " +:+ String dquote ("hi" +:+ String dquote ", then left"))].
Proof.
  destruct (snapshot_is_read_back a_now quoted_entries (Desktop.start ∅)
              (rev (Desktop.log_entries quoted_entries)))
    as (text & Hf & Hi & _).
  - vm_compute. discriminate.
  - vm_compute; reflexivity.
  - apply (Forall_of_forallb importableb); [apply importableb_sound|].
    vm_compute; reflexivity.
  - exists text. split; [exact Hf|]. split; [exact Hi|].
    vm_compute; reflexivity.
Defined.

(** *** The CSV export of the desktop application *)

Lemma has_char_digits (p : ascii -> bool) (s : string) :
  (forall c, isdigit c = true -> p c = false) -> all_digits s = true ->
  has_char p s = false.
Proof.
  intros Hp. induction s as [|c s IH]; [done|]. simpl.
  intros [Hc Hs]%andb_true_iff. by rewrite (Hp c Hc), IH.
Qed.

Lemma digit_is_not (a c : ascii) :
  isdigit a = false -> isdigit c = true -> is_char a c = false.
Proof.
  intros Ha Hc. destruct (is_char a c) eqn:E; [|done].
  apply is_char_eq in E. congruence.
Qed.

Lemma csv_safe_clock (d : datetime) :
  csv_safe (strftime d "%Y-%m-%d %H:%M:%S").
Proof.
  rewrite strftime_display. repeat split.
  - repeat (rewrite has_char_app, has_char_digits;
            [|by intros c; apply digit_is_not|apply all_digits_zpad];
            cbn [has_char orb]).
    reflexivity.
  - repeat (rewrite has_char_app, has_char_digits;
            [|by intros c; apply digit_is_not|apply all_digits_zpad];
            cbn [has_char orb]).
    reflexivity.
  - repeat (rewrite append_length, zpad_length; cbn [String.length]).
    unfold Reader.field_limit. lia.
Qed.

(** X10.  What [export_csv] writes can be imported again.  When the
    export completes, its file lists the entries in the order of export,
    and under the conditions of the snapshot on the texts of the entries,
    [import_csv] on that file completes and appends one entry for each
    exported entry, in that order, made of the trimmed timestamp,
    description and severity: the fourth column, the canonical time, is
    not read. *)
Theorem export_csv_is_read_back (now : datetime) (filename text : string)
    (self other : Desktop.State) :
  Desktop.export_csv filename self = (Some text, Desktop.NoDialog) ->
  Forall importable (List.map desktop_values (Desktop.log_entries self)) ->
  exists entries,
    Desktop.entries_to_export self = Some entries
    /\ Permutation (Desktop.log_entries self) entries
    /\ Desktop.import_csv now (Some text) other
       = (imported now (List.map desktop_values entries) other,
          Desktop.NoDialog).
Proof.
  unfold Desktop.export_csv.
  destruct (Desktop.log_entries self) as [|e0 l0] eqn:El; [done|].
  destruct filename as [|c name]; [done|].
  destruct (Desktop.entries_to_export self) as [entries|] eqn:Ee; [|done].
  intros [= <-] Hi. exists entries. split; [done|].
  assert (Permutation (e0 :: l0) entries) as P.
  { unfold Desktop.entries_to_export in Ee. rewrite El in Ee.
    destruct (Desktop.is_sorted self); [by injection Ee as <-|].
    by apply sorted_perm in Ee. }
  split; [done|].
  rewrite <- (List.map_map
                (fun entry => [Desktop.timestamp entry; Desktop.severity entry;
                               Desktop.description entry;
                               strftime (Desktop.parsed_time entry)
                                        "%Y-%m-%d %H:%M:%S"]) writerow).
  rewrite <- concat_cons.
  change (writerow ?h :: List.map writerow ?rows)
    with (List.map writerow (h :: rows)).
  rewrite P in Hi.
  apply import_written.
  - constructor.
    + repeat (apply Forall_cons; split; [by apply csv_safe_literal|]).
      apply Forall_nil_2.
    + apply Forall_forall. intros row (e & -> & He)%list_elem_of_fmap.
      rewrite Forall_forall in Hi.
      destruct (Hi (desktop_values e)) as (Ht & Hs & Hd & _);
        [by apply list_elem_of_fmap_2|].
      repeat (apply Forall_cons; split; [done || apply csv_safe_clock|]).
      apply Forall_nil_2.
  - constructor; [done|]. apply Forall_forall.
    by intros row (e & -> & He)%list_elem_of_fmap.
  - clear. induction entries as [|e entries IH]; constructor; [|done].
    apply row_gives_four.
  - by apply importable_blank.
Qed.

(** The instance of the same two entries, exported at once. *)
Lemma export_csv_is_read_back_witness :
  exists text entries,
    Desktop.export_csv "timeline.csv" quoted_entries
    = (Some text, Desktop.NoDialog)
    /\ Desktop.entries_to_export quoted_entries = Some entries
    /\ List.map Desktop.timestamp entries
       = ["2024-01-14 09:00:00"; "2024-01-15 10:00:00"]
    /\ Desktop.import_csv a_now (Some text) (Desktop.start ∅)
       = (imported a_now (List.map desktop_values entries) (Desktop.start ∅),
          Desktop.NoDialog).
Proof.
  exists (default "" (fst (Desktop.export_csv "timeline.csv" quoted_entries))).
  destruct (export_csv_is_read_back a_now "timeline.csv"
              (default "" (fst (Desktop.export_csv "timeline.csv"
                                                   quoted_entries)))
              quoted_entries (Desktop.start ∅))
    as (entries & He & _ & Hi).
  - vm_compute; reflexivity.
  - apply (Forall_of_forallb importableb); [apply importableb_sound|].
    vm_compute; reflexivity.
  - exists entries. split; [vm_compute; reflexivity|].
    split; [exact He|]. split; [|exact Hi].
    assert (Some entries = Some (rev (Desktop.log_entries quoted_entries)))
      as [= ->] by (rewrite <- He; vm_compute; reflexivity).
    vm_compute; reflexivity.
Defined.

(** *** The snapshot of the web application *)

Lemma double_quotes_id (s : string) :
  has_char (is_char dquote) s = false -> double_quotes s = s.
Proof.
  induction s as [|c s IH]; [done|]. cbn [has_char double_quotes].
  intros [-> Hs]%orb_false_iff. by rewrite IH.
Qed.

Lemma web_csv_text_lines (entries : list Web.LogEntry) :
  Web.csv_text entries
  = lines_text
      (["Timestamp"; "Severity"; "Description"]
       :: List.map (fun e => [quoted (Web.timestamp e); quoted (Web.severity e);
                              quoted (double_quotes (Web.description e))])
                   entries).
Proof.
  unfold Web.csv_text. cbn [lines_text].
  change (join "," ["Timestamp"; "Severity"; "Description"])
    with "Timestamp,Severity,Description".
  f_equal. unfold newline. change (String LF "" +:+ ?x) with (String LF x).
  f_equal. induction entries as [|e entries IH]; [done|].
  cbn [List.map lines_text]. rewrite concat_cons, IH.
  unfold Web.csv_line, newline. cbn [join].
  rewrite !append_assoc. done.
Qed.

Lemma universal_newlines_lines_text (texts : list (list string)) :
  Forall (Forall (fun t => has_char (is_char CR) t = false)) texts ->
  universal_newlines (lines_text texts) = lines_text texts.
Proof.
  induction 1 as [|row texts Hrow _ IH]; [done|]. cbn [lines_text].
  rewrite universal_newlines_app by (by apply has_char_join).
  cbn [universal_newlines]. change (is_char CR LF) with false. cbv iota.
  by rewrite IH.
Qed.

Lemma encoded_quoted (s : string) :
  has_char (is_char dquote) s = false -> encoded (quoted s) s.
Proof. intros H. right. by rewrite double_quotes_id. Qed.

(** X11.  The desktop application reads the snapshot of the web
    application.  Under the conditions of the desktop snapshot on the
    texts, and when no timestamp and no severity holds a double quote
    (the web application doubles the quotes of the description only),
    [import_csv] of the desktop application on the file that
    [save_logs_to_file] of the web application wrote completes and
    appends one entry for each entry of the file, in its order, made of
    the trimmed timestamp, description and severity. *)
Theorem web_snapshot_is_read_by_desktop (now : datetime)
    (investigation_name : string) (entries r : list Web.LogEntry)
    (files : disk) (other : Desktop.State) :
  entries <> [] ->
  sorted (by_time Web.parsed_time) entries = Some r ->
  Forall importable (List.map web_values entries) ->
  Forall (fun e => has_char (is_char dquote) (Web.timestamp e) = false
                   /\ has_char (is_char dquote) (Web.severity e) = false)
         entries ->
  exists files' text,
    Web.save_logs_to_file investigation_name entries files
    = Some (files', Some (safe_name investigation_name, csv_name))
    /\ files' !! (safe_name investigation_name, csv_name) = Some text
    /\ Desktop.import_csv now (Some text) other
       = (imported now (List.map web_values r) other, Desktop.NoDialog).
Proof.
  intros Hne Hr Hi Hq. pose proof (sorted_perm _ _ _ Hr) as P.
  rewrite P in Hi, Hq.
  exists (<[(safe_name investigation_name, csv_name) := Web.csv_text r]> files),
    (Web.csv_text r).
  split; [|split; [apply lookup_insert_eq|]].
  { unfold Web.save_logs_to_file. destruct entries; [done|].
    unfold by_time in Hr. by rewrite Hr. }
  clear Hne Hr P entries.
  rewrite Forall_forall in Hi. rewrite Forall_forall in Hq.
  apply (import_csv_values now _
           (List.map (zip_dict ["Timestamp"; "Severity"; "Description"])
                     (List.map (fun e => [Web.timestamp e; Web.severity e;
                                          Web.description e]) r))).
  - apply (DictReader_lines _ ["Timestamp"; "Severity"; "Description"] _
             (List.map (fun e => [quoted (Web.timestamp e);
                                  quoted (Web.severity e);
                                  quoted (double_quotes (Web.description e))])
                       r)).
    + rewrite web_csv_text_lines. apply universal_newlines_lines_text.
      constructor; [by repeat constructor|].
      apply Forall_forall. intros row (e & -> & He)%list_elem_of_fmap.
      destruct (Hi (web_values e)) as ((Ct & _) & (Cs & _) & (Cd & _) & _);
        [by apply list_elem_of_fmap_2|].
      repeat (apply Forall_cons; split;
              [by rewrite has_char_quoted, ?has_char_double_quotes|]).
      apply Forall_nil_2.
    + constructor.
      * repeat (apply Forall2_cons; split; [by left|]). constructor.
      * apply Forall2_fmap, Forall_Forall2_diag, Forall_forall. intros e He.
        destruct (Hq e He) as [Qt Qs].
        repeat (apply Forall2_cons; split;
                [first [by apply encoded_quoted|by right]|]).
        constructor.
    + constructor.
      * repeat (apply Forall_cons; split; [by split|]). apply Forall_nil_2.
      * apply Forall_forall. intros row (e & -> & He)%list_elem_of_fmap.
        destruct (Hi (web_values e))
          as ((_ & Nt & Lt) & (_ & Ns & Ls) & (_ & Nd & Ld) & _);
          [by apply list_elem_of_fmap_2|].
        repeat (apply Forall_cons; split; [done|]). apply Forall_nil_2.
    + constructor; [done|]. apply Forall_forall.
      by intros row (e & -> & He)%list_elem_of_fmap.
  - rewrite List.map_map.
    clear. induction r as [|e r IH]; constructor; [|done].
    apply row_gives_three.
  - apply importable_blank. apply Forall_forall, Hi.
Qed.

(** The instance of the three entries of the web session. *)
Lemma web_snapshot_is_read_by_desktop_witness :
  exists files' text r,
    sorted (by_time Web.parsed_time) (Web.log_entries web_three) = Some r
    /\ Web.save_logs_to_file "Case:1" (Web.log_entries web_three) ∅
       = Some (files', Some ("Case_1", csv_name))
    /\ files' !! ("Case_1", csv_name) = Some text
    /\ Desktop.import_csv a_now (Some text) (Desktop.start ∅)
       = (imported a_now (List.map web_values r) (Desktop.start ∅),
          Desktop.NoDialog)
    /\ List.map Web.description r
       = ["second event"; "first event"; "third event"].
Proof.
  destruct (web_snapshot_is_read_by_desktop a_now "Case:1"
              (Web.log_entries web_three)
              (default [] (sorted (by_time Web.parsed_time)
                                  (Web.log_entries web_three)))
              ∅ (Desktop.start ∅))
    as (files' & text & Hs & Hf & Hi).
  - vm_compute. discriminate.
  - vm_compute; reflexivity.
  - apply (Forall_of_forallb importableb); [apply importableb_sound|].
    vm_compute; reflexivity.
  - apply (Forall_of_forallb no_double_quote);
      [apply no_double_quote_sound|].
    vm_compute; reflexivity.
  - exists files', text, (default [] (sorted (by_time Web.parsed_time)
                                         (Web.log_entries web_three))).
    split; [vm_compute; reflexivity|]. split; [exact Hs|].
    split; [exact Hf|]. split; [exact Hi|]. vm_compute; reflexivity.
Defined.

(** ** An import that fails *)

Lemma import_rows_appends (now : datetime)
    (rows : list (gmap string (option string))) (self self' : Desktop.State)
    (completed : bool) :
  Desktop.import_rows now rows self = (self', completed) ->
  exists added added_rows,
    self' = Desktop.mkState
              (Desktop.log_entries self ++ added) (Desktop.is_sorted self)
              (Desktop.current_sort_direction self)
              (Desktop.investigation_name self)
              (Desktop.tree self ++ added_rows) (Desktop.files self)
    /\ Forall2 (fun entry values =>
                  exists timestamp severity description,
                    timestamp <> "" /\ description <> ""
                    /\ entry = Desktop.__init__ now timestamp description
                                                severity
                    /\ values = (timestamp,
                                 Desktop.severity_emoji_map severity,
                                 description))
               added added_rows.
Proof.
  revert self. induction rows as [|row rows IH]; intros self; simpl.
  - intros [= <- <-]. exists [], []. rewrite !app_nil_r.
    split; [by destruct self|constructor].
  - destruct (Desktop.import_row now row self) as [s1|] eqn:E1.
    + intros (added & added_rows & -> & F)%IH.
      unfold Desktop.import_row in E1.
      destruct (dict_get row "Timestamp" "") as [tv|]; [|done].
      destruct (dict_get row "Description" "") as [dv|]; [|done].
      destruct (dict_get row "Severity" "Info") as [sv|]; [|done].
      destruct (strip tv) as [|c1 t1] eqn:Et;
        [injection E1 as <-; by exists added, added_rows|].
      destruct (strip dv) as [|c2 t2] eqn:Ed;
        [injection E1 as <-; by exists added, added_rows|].
      injection E1 as <-. cbn.
      exists (Desktop.__init__ now (String c1 t1) (String c2 t2) (strip sv)
              :: added),
        ((String c1 t1, Desktop.severity_emoji_map (strip sv), String c2 t2)
         :: added_rows).
      rewrite <- !app_assoc. split; [done|].
      constructor; [|done]. by exists (String c1 t1), (strip sv), (String c2 t2).
    + intros [= <- <-]. exists [], []. rewrite !app_nil_r.
      split; [by destruct self|constructor].
Qed.

(** X12.  [import_csv] of the desktop application only adds.  Whatever
    the file holds, the entries and the rows that were there stay in their
    places, and each entry added has a timestamp and a description that
    are not empty and comes with its row.  An import that runs to its end
    clears the sorted flag and rewrites the snapshot.  An import that
    shows the error dialog keeps the entries read before the error, and
    with them the sorted flag as it was and the files as they were: after
    it the flag can be set on a timeline that is not in time order. *)
Theorem import_csv_only_adds (now : datetime) (chosen : option string)
    (self self' : Desktop.State) (shown : Desktop.dialog) :
  Desktop.import_csv now chosen self = (self', shown) ->
  exists added added_rows,
    Desktop.log_entries self' = (Desktop.log_entries self ++ added)%list
    /\ Desktop.tree self' = (Desktop.tree self ++ added_rows)%list
    /\ Forall2 (fun entry values =>
                  exists timestamp severity description,
                    timestamp <> "" /\ description <> ""
                    /\ entry = Desktop.__init__ now timestamp description
                                                severity
                    /\ values = (timestamp,
                                 Desktop.severity_emoji_map severity,
                                 description))
               added added_rows
    /\ Desktop.investigation_name self' = Desktop.investigation_name self
    /\ Desktop.current_sort_direction self'
       = Desktop.current_sort_direction self
    /\ match shown with
       | Desktop.NoDialog =>
           chosen = None /\ self' = self
           \/ chosen <> None /\ Desktop.is_sorted self' = false
              /\ self' = Desktop.auto_save_logs_to_csv
                           (Desktop.mkState
                              (Desktop.log_entries self ++ added) false
                              (Desktop.current_sort_direction self)
                              (Desktop.investigation_name self)
                              (Desktop.tree self ++ added_rows)
                              (Desktop.files self))
       | _ =>
           Desktop.is_sorted self' = Desktop.is_sorted self
           /\ Desktop.files self' = Desktop.files self
       end.
Proof.
  unfold Desktop.import_csv. destruct chosen as [text|].
  - destruct (DictReader text) as [rows ok].
    destruct (Desktop.import_rows now rows self) as [s completed] eqn:E.
    apply import_rows_appends in E as (added & added_rows & -> & F).
    destruct (completed && ok); intros [= <- <-];
      exists added, added_rows; cbn.
    + rewrite auto_save_keeps_entries, auto_save_keeps_tree.
      destruct (auto_save_keeps_flags
                  (Desktop.mkState (Desktop.log_entries self ++ added) false
                     (Desktop.current_sort_direction self)
                     (Desktop.investigation_name self)
                     (Desktop.tree self ++ added_rows) (Desktop.files self)))
        as (Hs & Hd & Hn).
      cbn in Hs, Hd, Hn.
      split; [done|]. split; [done|]. split; [done|].
      split; [done|]. split; [done|]. right. by rewrite Hs.
    + repeat split; done.
  - intros [= <- <-]. exists [], []. rewrite !app_nil_r.
    split; [done|]. split; [done|]. split; [constructor|].
    split; [done|]. split; [done|]. by left.
Qed.

(** The instance of the three entries in ascending order and a file
    whose second line has one field only: the first line is added, the
    error dialog is shown, the flag stays set, and the next export writes
    the entry of 2020 last. *)
Lemma import_csv_only_adds_witness :
  let sorted_state :=
    default three_entries (after (Desktop.sort_ascending three_entries)) in
  let text :=
    "Timestamp,Severity,Description" +:+ String LF
      ("2020-01-01 00:00:00,Low,early" +:+ String LF ("x" +:+ String LF "")) in
  let result := Desktop.import_csv a_now (Some text) sorted_state in
  snd result <> Desktop.NoDialog
  /\ (exists added added_rows,
        Desktop.log_entries (fst result)
        = (Desktop.log_entries sorted_state ++ added)%list
        /\ Desktop.tree (fst result)
           = (Desktop.tree sorted_state ++ added_rows)%list
        /\ length added = 1%nat)
  /\ Desktop.is_sorted (fst result) = true
  /\ option_map (List.map Desktop.timestamp)
                (Desktop.entries_to_export (fst result))
     = Some ["2024-01-14 09:00:00"; "2024-01-15 10:00:00";
             "2024-01-15 10:00:00"; "2020-01-01 00:00:00"].
Proof.
  intros sorted_state text result.
  destruct (import_csv_only_adds a_now (Some text) sorted_state (fst result)
              (snd result))
    as (added & added_rows & He & Ht & _ & _ & _ & _).
  { apply surjective_pairing. }
  split; [vm_compute; discriminate|]. split.
  - exists added, added_rows. split; [exact He|]. split; [exact Ht|].
    apply (f_equal length) in He. rewrite length_app in He.
    assert (length (Desktop.log_entries (fst result)) = 4%nat) as L4
        by (vm_compute; reflexivity).
    assert (length (Desktop.log_entries sorted_state) = 3%nat) as L3
        by (vm_compute; reflexivity).
    lia.
  - split; vm_compute; reflexivity.
Defined.
